(** * plus-monitoring: a shallow embedding of the monitoring engine

    The Python sources embedded here are [main.py] and [src/config.py],
    [src/mysql.py], [src/postgresql.py], [src/redis.py], [src/rabbitmq.py].

    Python objects are records, Python exceptions are values of [exn], and a
    statement sequence is a computation in the monad [M]: it threads a state,
    may raise, may never return (a blocking library call), and writes the
    events it produces (log records, gauge writes, sleeps, library calls).
    The backend libraries (mysql.connector, psycopg2, redis, pika), the file
    system and the YAML parser are the environment: they are interfaces whose
    every call returns a value, raises an exception or blocks. *)

From Stdlib Require Import ZArith List String Ascii Bool Lia.
From Stdlib Require Import Strings.Byte.
From stdpp Require Import base tactics option list strings pretty.

Set Warnings "-register-all".

Local Open Scope string_scope.
Local Open Scope list_scope.
Local Open Scope Z_scope.

(** ** Python values, exceptions and the computation monad *)

Module Py.

(** The values a YAML configuration holds and the code passes around. *)
Inductive value :=
| VNone
| VBool (b : bool)
| VInt (z : Z)
| VStr (s : string)
| VList (vs : list value)
| VDict (kvs : list (string * value)).

(** Exception classes. All of them derive from [Exception]; [MySQLError] is
    [mysql.connector.Error], [Psycopg2Error] is [psycopg2.Error], and
    [LibraryError] stands for any other exception a backend library raises
    (socket errors, redis and pika errors). *)
Inductive exn_class :=
| AttributeError
| TypeError
| ValueError
| IndexError
| UnicodeDecodeError
| ModuleNotFoundError
| OSError
| YAMLError
| MySQLError
| Psycopg2Error
| LibraryError
| OverflowError.

Record exn := Exn { exn_class_of : exn_class; exn_msg : string }.

Definition exn_class_eqb (a b : exn_class) : bool :=
  match a, b with
  | AttributeError, AttributeError | TypeError, TypeError
  | ValueError, ValueError | IndexError, IndexError
  | UnicodeDecodeError, UnicodeDecodeError
  | ModuleNotFoundError, ModuleNotFoundError | OSError, OSError
  | YAMLError, YAMLError | MySQLError, MySQLError
  | Psycopg2Error, Psycopg2Error | LibraryError, LibraryError
  | OverflowError, OverflowError => true
  | _, _ => false
  end.

(** [except cls as err]: the handler takes instances of [cls]. *)
Definition isinstance (cls : exn_class) (e : exn) : bool :=
  exn_class_eqb (exn_class_of e) cls.

(** [except Exception as e]: every modelled exception is an [Exception]. *)
Definition is_Exception (e : exn) : bool := true.

(** What a call does: return, raise, or never return. *)
Inductive res (A : Type) :=
| Ok (a : A)
| Err (e : exn)
| Block.
Arguments Ok {A} a.
Arguments Err {A} e.
Arguments Block {A}.

Inductive level := INFO | ERROR | CRITICAL.

(** A handle of a library object (a connection, a cursor, a channel). *)
Definition handle := nat.

(** Keyword arguments of a library's connect call, as the drivers pass them. *)
Record conn_params := ConnParams {
  cp_host : value;
  cp_port : value;
  cp_user : value;
  cp_password : value;
  cp_database : value
}.

(** Observable events of an execution unit, in program order. *)
Inductive event :=
| Log (lvl : level) (msg : string)           (* logger.info / error / critical *)
| MetricSet (v : Z)                           (* metric.set(v) on the service's gauge *)
| Sleep (secs : Z)                            (* time.sleep(secs) returned *)
| OpenFile (path : string)                    (* open(path) *)
| GetConnection (force : option bool)         (* get_connection(force=...) entered *)
| Connect (p : conn_params)                   (* the library's connect call issued *)
| Cursor (c : handle)                         (* connection.cursor() on c *)
| Command (c : handle) (name : string)        (* a cache command issued on c *)
| Channel (c : handle)                        (* connection.channel() on c *)
| ThreadStart (name : string).                (* thread.start() *)

(** State, exceptions, blocking and an event log. *)
Definition M (S A : Type) : Type := S -> res A * S * list event.

Definition ret {S A} (a : A) : M S A := fun s => (Ok a, s, []).

Definition bind {S A C} (m : M S A) (f : A -> M S C) : M S C := fun s =>
  match m s with
  | (Ok a, s1, ev1) =>
      match f a s1 with (r, s2, ev2) => (r, s2, ev1 ++ ev2) end
  | (Err e, s1, ev1) => (Err e, s1, ev1)
  | (Block, s1, ev1) => (Block, s1, ev1)
  end.

Definition raise {S A} (e : exn) : M S A := fun s => (Err e, s, []).

Definition emit {S} (ev : event) : M S unit := fun s => (Ok tt, s, [ev]).

Definition get {S} : M S S := fun s => (Ok s, s, []).

Definition modify {S} (f : S -> S) : M S unit := fun s => (Ok tt, f s, []).

(** [try: m  except <catches> as e: handler e]. An exception the clause does
    not take, and a call that never returns, pass through. *)
Definition try_except {S A} (m : M S A) (catches : exn -> bool)
    (handler : exn -> M S A) : M S A := fun s =>
  match m s with
  | (Err e, s1, ev1) =>
      if catches e
      then match handler e s1 with (r, s2, ev2) => (r, s2, ev1 ++ ev2) end
      else (Err e, s1, ev1)
  | other => other
  end.

(** Sequencing of plain results. *)
Definition and_then {A C} (r : res A) (f : A -> res C) : res C :=
  match r with
  | Ok a => f a
  | Err e => Err e
  | Block => Block
  end.

(** Lift a result into the monad. *)
Definition of_res {S A} (r : res A) : M S A := fun s => (r, s, []).

Definition logger {S} (lvl : level) (msg : string) : M S unit := emit (Log lvl msg).

(** [d.get(k, default)] on a dict given as an association list. *)
Fixpoint assoc (k : string) (kvs : list (string * value)) : option value :=
  match kvs with
  | [] => None
  | (k', v) :: rest => if String.eqb k k' then Some v else assoc k rest
  end.

(** [obj.get(k, default)]: only a dict has the method. *)
Definition dict_get (obj : value) (k : string) (default : value) : res value :=
  match obj with
  | VDict kvs => Ok (match assoc k kvs with Some v => v | None => default end)
  | _ => Err (Exn AttributeError "object has no attribute 'get'")
  end.

(** [type(v).__name__] *)
Definition type_name (v : value) : string :=
  match v with
  | VNone => "NoneType"
  | VBool _ => "bool"
  | VInt _ => "int"
  | VStr _ => "str"
  | VList _ => "list"
  | VDict _ => "dict"
  end.

(** The longest time CPython can represent, in whole seconds: [time.sleep]
    converts its argument to a signed 64-bit count of nanoseconds. *)
Definition sleep_limit : Z := 9223372036.

(** [time.sleep(secs)], CPython 3.11: a length whose nanoseconds do not fit
    64 bits is an OverflowError (whatever its sign), a negative length a
    ValueError, a value that is no number a TypeError. (YAML floats are not
    part of [value].) The conversion comes first, the sign test second.

    The operating system has a limit of its own, on the deadline (the
    reading of the monotonic clock plus the length): a length that the
    conversion accepts can still fail there, with OSError, when it is within
    one reading of the clock of [sleep_limit]. That depends on the machine
    and not on the program, and is not modelled: such a sleep goes through
    here. The properties below that need a sleep to go through take a
    length of at most [longest_sleep]. *)
Definition sleep {S} (secs : value) : M S unit :=
  match secs with
  | VInt n =>
      if (n <? - sleep_limit) || (sleep_limit <? n)
      then raise (Exn OverflowError "timestamp too large to convert to C _PyTime_t")
      else if 0 <=? n then emit (Sleep n)
      else raise (Exn ValueError "sleep length must be non-negative")
  | VBool b => emit (Sleep (if b then 1 else 0))
  | _ =>
      raise (Exn TypeError
               ("'" +:+ type_name secs +:+ "' object cannot be interpreted as an integer"))
  end.

(** A length that goes through on every machine whose monotonic clock reads
    less than [sleep_limit - longest_sleep] seconds (some 224 years): 68
    years, the largest number of seconds a signed 32-bit integer holds. *)
Definition longest_sleep : Z := 2147483647.

(** How far a [while not self.stop_event.is_set():] loop got. *)
Inductive status :=
| Running            (* still looping after the observed cycles *)
| Stopped            (* the stop event was set *)
| Crashed (e : exn)  (* an exception left the loop: the thread is dead *)
| Blocked.           (* inside a call that never returns *)

(** An exception has left the loop. *)
Definition crashed (st : status) : bool :=
  match st with Crashed _ => true | _ => false end.

(** [while cond: body], observed for at most [fuel] iterations. *)
Fixpoint while_loop {S} (cond : S -> bool) (body : M S unit) (fuel : nat)
    (s : S) : status * S * list event :=
  match fuel with
  | O => (Running, s, [])
  | Datatypes.S n =>
      if cond s then
        match body s with
        | (Ok _, s1, ev1) =>
            match while_loop cond body n s1 with
            | (st, s2, ev2) => (st, s2, ev1 ++ ev2)
            end
        | (Err e, s1, ev1) => (Crashed e, s1, ev1)
        | (Block, s1, ev1) => (Blocked, s1, ev1)
        end
      else (Stopped, s, [])
  end.

(** The same loop in a thread that shares a part of its state with other
    threads: [others k] is what the other threads have done to the state
    when the loop comes to check its condition with [k] iterations left to
    observe. With [others] doing nothing this is [while_loop]. *)
Fixpoint while_loop_among {S} (others : nat -> S -> S) (cond : S -> bool)
    (body : M S unit) (fuel : nat) (s : S) : status * S * list event :=
  match fuel with
  | O => (Running, s, [])
  | Datatypes.S n =>
      let s := others n s in
      if cond s then
        match body s with
        | (Ok _, s1, ev1) =>
            match while_loop_among others cond body n s1 with
            | (st, s2, ev2) => (st, s2, ev1 ++ ev2)
            end
        | (Err e, s1, ev1) => (Crashed e, s1, ev1)
        | (Block, s1, ev1) => (Blocked, s1, ev1)
        end
      else (Stopped, s, [])
  end.

(** The gauge values an event list writes, in order. *)
Fixpoint metric_writes (evs : list event) : list Z :=
  match evs with
  | [] => []
  | MetricSet v :: rest => v :: metric_writes rest
  | _ :: rest => metric_writes rest
  end.

(** The library connect calls an event list issues, in order. *)
Fixpoint connects (evs : list event) : list conn_params :=
  match evs with
  | [] => []
  | Connect p :: rest => p :: connects rest
  | _ :: rest => connects rest
  end.

(** The [force] arguments of the [get_connection] calls, in order. *)
Fixpoint forces (evs : list event) : list (option bool) :=
  match evs with
  | [] => []
  | GetConnection f :: rest => f :: forces rest
  | _ :: rest => forces rest
  end.

(** The connections cursors were opened on, in order. *)
Fixpoint cursors (evs : list event) : list handle :=
  match evs with
  | [] => []
  | Cursor c :: rest => c :: cursors rest
  | _ :: rest => cursors rest
  end.


(** Every event [m] produces, from any state, satisfies [P]. *)
Definition emits_only {S A} (P : event -> Prop) (m : M S A) : Prop :=
  forall s, Forall P (m s).2.

(** [m] keeps the invariant [I] of the state. *)
Definition steady {S A} (I : S -> Prop) (m : M S A) : Prop :=
  forall s, I s -> I (m s).1.2.

(** [m] keeps [I] and, started where [I] holds, raises nothing. *)
Definition safe {S A} (I : S -> Prop) (m : M S A) : Prop :=
  forall s, I s -> I (m s).1.2 /\ forall e, (m s).1.1 <> Err e.

(** The interval is a number [time.sleep] accepts: a non-negative integer
    of at most [longest_sleep] seconds. *)
Definition valid_interval (interval : value) : Prop :=
  exists n, interval = VInt n /\ 0 <= n <= longest_sleep.

(** A write to a health gauge carries 1 (success) or 0 (failure). *)
Definition binary_gauge (ev : event) : Prop :=
  match ev with
  | MetricSet v => v = 0 \/ v = 1
  | _ => True
  end.

(** *** [bytes.decode("utf-8")]

    Strict UTF-8: overlong forms, surrogates and code points past U+10FFFF
    are errors. A Python [str] is its list of code points. *)
Definition bytes := list byte.
Definition codepoints := list N.

Definition is_cont (b : N) : bool := ((128 <=? b) && (b <=? 191))%N.
Definition cont (b : N) : N := N.land b 63.

Fixpoint utf8_decode (bs : list N) : option codepoints :=
  match bs with
  | [] => Some []
  | b0 :: rest =>
      if (b0 <? 128)%N then cons b0 <$> utf8_decode rest
      else if ((194 <=? b0) && (b0 <=? 223))%N then
        match rest with
        | b1 :: rest1 =>
            if is_cont b1
            then cons (N.shiftl (N.land b0 31) 6 + cont b1)%N <$> utf8_decode rest1
            else None
        | _ => None
        end
      else if ((224 <=? b0) && (b0 <=? 239))%N then
        match rest with
        | b1 :: b2 :: rest2 =>
            if is_cont b1 && is_cont b2
               && negb ((b0 =? 224) && (b1 <? 160))%N
               && negb ((b0 =? 237) && (160 <=? b1))%N
            then cons (N.shiftl (N.land b0 15) 12 + N.shiftl (cont b1) 6 + cont b2)%N
                   <$> utf8_decode rest2
            else None
        | _ => None
        end
      else if ((240 <=? b0) && (b0 <=? 244))%N then
        match rest with
        | b1 :: b2 :: b3 :: rest3 =>
            if is_cont b1 && is_cont b2 && is_cont b3
               && negb ((b0 =? 240) && (b1 <? 144))%N
               && negb ((b0 =? 244) && (144 <=? b1))%N
            then cons (N.shiftl (N.land b0 7) 18 + N.shiftl (cont b1) 12
                       + N.shiftl (cont b2) 6 + cont b3)%N
                   <$> utf8_decode rest3
            else None
        | _ => None
        end
      else None
  end.

(** [b.decode("utf-8")]: the text, or UnicodeDecodeError. *)
Definition decode (b : bytes) : res codepoints :=
  match utf8_decode (map Byte.to_N b) with
  | Some cps => Ok cps
  | None => Err (Exn UnicodeDecodeError "'utf-8' codec can't decode byte")
  end.

(** The code points of an ASCII literal of the source. *)
Definition str (s : string) : codepoints := map N_of_ascii (list_ascii_of_string s).

(** [s.encode()] for an ASCII literal. *)
Definition encode (s : string) : bytes := list_byte_of_string s.

Definition codepoints_eqb (a b : codepoints) : bool :=
  bool_decide (a = b).

(** *** [int(text)]

    CPython 3.11 with the character tables of Unicode 14.0. The text may
    have blanks around it; then comes an optional sign, then decimal digits
    of any script, with single underscores allowed between digits; more than
    4300 digits are refused. *)

(** The digit zero of every script that has decimal digits; the other nine
    digits follow it. *)
Definition decimal_zeros : list N :=
  [
   48; 1632; 1776; 1984; 2406; 2534; 2662; 2790; 2918;
   3046; 3174; 3302; 3430; 3558; 3664; 3792; 3872; 4160;
   4240; 6112; 6160; 6470; 6608; 6784; 6800; 6992; 7088;
   7232; 7248; 42528; 43216; 43264; 43472; 43504; 43600; 44016;
   65296; 66720; 68912; 69734; 69872; 69942; 70096; 70384; 70736;
   70864; 71248; 71360; 71472; 71904; 72016; 72784; 73040; 73120;
   92768; 92864; 93008; 120782; 120792; 120802; 120812; 120822; 123200;
   123632; 125264; 130032
  ]%N.

(** [unicodedata.decimal(c)] *)
Definition decimal (c : N) : option Z :=
  match List.find (fun z => (z <=? c) && (c <=? z + 9))%N decimal_zeros with
  | Some z => Some (Z.of_N (c - z))
  | None => None
  end.

(** The characters [int()] takes for blanks: ASCII white space, and past
    ASCII the characters [str.isspace] holds of. *)
Definition is_blank (c : N) : bool :=
  ((9 <=? c) && (c <=? 13) || (c =? 32) || (c =? 133) || (c =? 160) || (c =? 5760)
   || (8192 <=? c) && (c <=? 8202) || (c =? 8232) || (c =? 8233) || (c =? 8239)
   || (c =? 8287) || (c =? 12288))%N.

Fixpoint skip_blanks (cs : codepoints) : codepoints :=
  match cs with
  | c :: rest => if is_blank c then skip_blanks rest else cs
  | [] => []
  end.

(** The digits after the first: the value, the number of digits read, and
    what follows them. An underscore must stand between two digits. *)
Fixpoint more_digits (acc : Z) (count : nat) (cs : codepoints)
    : option (Z * nat * codepoints) :=
  match cs with
  | c :: rest =>
      match decimal c with
      | Some d => more_digits (10 * acc + d) (S count) rest
      | None =>
          if (c =? 95)%N then
            match rest with
            | c' :: rest' =>
                match decimal c' with
                | Some d => more_digits (10 * acc + d) (S count) rest'
                | None => None
                end
            | [] => None
            end
          else Some (acc, count, cs)
      end
  | [] => Some (acc, count, [])
  end.

Definition int_literal (text : codepoints) : option Z :=
  let cs := skip_blanks text in
  let signed :=
    match cs with
    | 45%N :: rest => (true, rest)
    | 43%N :: rest => (false, rest)
    | _ => (false, cs)
    end in
  match signed.2 with
  | c :: rest =>
      match decimal c with
      | Some d =>
          match more_digits d 1 rest with
          | Some (n, count, tail) =>
              match skip_blanks tail with
              | [] =>
                  if (count <=? 4300)%nat
                  then Some (if signed.1 then - n else n)
                  else None
              | _ :: _ => None
              end
          | None => None
          end
      | None => None
      end
  | [] => None
  end.

(** The loop ended because its stop event was set. *)
Definition stopped (st : status) : bool :=
  match st with Stopped => true | _ => false end.

(** The lengths of the sleeps an event list holds, in order. *)
Fixpoint sleeps (evs : list event) : list Z :=
  match evs with
  | [] => []
  | Sleep n :: rest => n :: sleeps rest
  | _ :: rest => sleeps rest
  end.

(** How long [time.sleep(secs)] sleeps, when CPython accepts [secs]: [None]
    is a length for which [time.sleep] raises on every machine. *)
Definition sleep_length (secs : value) : option Z :=
  match secs with
  | VInt n => if (0 <=? n) && (n <=? sleep_limit) then Some n else None
  | VBool b => Some (if b then 1 else 0)
  | _ => None
  end.

(** [bool(v)] *)
Definition truthy (v : value) : bool :=
  match v with
  | VNone => false
  | VBool b => b
  | VInt z => negb (z =? 0)
  | VStr s => negb (String.eqb s "")
  | VList vs => match vs with [] => false | _ => true end
  | VDict kvs => match kvs with [] => false | _ => true end
  end.

(** Started where [I] holds, [m] keeps [I], produces only events that
    satisfy [P], and returns only values that satisfy [Q]. *)
Definition triple {S A} (I : S -> Prop) (P : event -> Prop) (Q : A -> Prop)
    (m : M S A) : Prop :=
  forall s, I s ->
    I (m s).1.2 /\ Forall P (m s).2 /\ forall a, (m s).1.1 = Ok a -> Q a.

End Py.

Declare Scope py_scope.
Delimit Scope py_scope with py.
Notation "x <- m ;; k" := (Py.bind m (fun x => k))
  (at level 100, m at next level, right associativity) : py_scope.
Notation "m ;; k" := (Py.bind m (fun _ => k))
  (at level 100, right associativity) : py_scope.

(** ** The environment: backend libraries *)

Module Env.
Import Py.

(** An execution unit's state: the backend it talks to and the Python
    object ([self]) its method runs on. *)
Record world (B Self : Type) := World { srv : B; self : Self }.
Arguments World {B Self} srv self.
Arguments srv {B Self} w.
Arguments self {B Self} w.

(** A library call: it runs against the backend state. *)
Definition call {B Self A} (op : B -> res A * B) : M (world B Self) A := fun w =>
  match op (srv w) with
  | (r, b) => (r, World b (self w), [])
  end.

Definition gets {B Self A} (f : Self -> A) : M (world B Self) A := fun w =>
  (Ok (f (self w)), w, []).

Definition update {B Self} (f : Self -> Self) : M (world B Self) unit := fun w =>
  (Ok tt, World (srv w) (f (self w)), []).

(** An invariant of the Python object alone. *)
Definition on_self {B Self} (J : Self -> Prop) (w : world B Self) : Prop := J (self w).

(** [obj.attr] where [obj] may be [None]. *)
Definition attr_of {S} (obj : option handle) (attr : string) : M S handle :=
  match obj with
  | Some c => ret c
  | None =>
      raise (Exn AttributeError
               ("'NoneType' object has no attribute '" +:+ attr +:+ "'"))
  end.

(** The DB-API libraries, mysql.connector and psycopg2. [sql_closed] is the
    connection object's own closed flag (psycopg2's [connection.closed]). *)
Class SqlServer (B : Type) := {
  sql_connect : conn_params -> B -> res handle * B;
  sql_closed : B -> handle -> bool;
  sql_cursor : handle -> B -> res handle * B;
  sql_execute : handle -> string -> B -> res unit * B;
  sql_fetchone : handle -> B -> res (option (list value)) * B
}.

(** redis-py's client. *)
Class RedisServer (B : Type) := {
  redis_connect : conn_params -> B -> res handle * B;
  redis_set : handle -> string -> bytes -> B -> res unit * B;
  redis_get : handle -> string -> B -> res (option bytes) * B;
  redis_incr : handle -> string -> Z -> B -> res Z * B;
  redis_delete : handle -> string -> B -> res Z * B;
  redis_exists : handle -> string -> B -> res Z * B
}.

(** pika's blocking connection. [amqp_start_consuming] delivers the bodies
    it lists to the consumer callback, then returns, raises or (the normal
    case) waits for ever. *)
Class AmqpServer (B : Type) := {
  amqp_connect : conn_params -> B -> res handle * B;
  amqp_is_closed : B -> handle -> bool;
  amqp_channel : handle -> B -> res handle * B;
  amqp_queue_declare : handle -> string -> B -> res unit * B;
  amqp_basic_publish : handle -> string -> string -> bytes -> B -> res unit * B;
  amqp_basic_consume : handle -> string -> B -> res unit * B;
  amqp_start_consuming : handle -> B -> list bytes * res unit * B
}.

(** The [threading] module: [active_count()]. *)
Class Threading (B : Type) := {
  active_count : B -> res Z * B
}.

(** The file system and the YAML library. *)
Record os := OS {
  read_file : string -> res string;
  safe_load : string -> res value
}.

End Env.

(** ** src/mysql.py *)

Module MySQL.
Import Py Env.
Local Open Scope py_scope.

Record MySQLConnection := {
  username : value;
  password : value;
  database : value;
  fqdn : value;
  port : value;
  connection : option handle
}.

(** The attribute assignments of [__new__] on a fresh instance. *)
Definition init (authentication fqdn port : value) : res MySQLConnection :=
  and_then (dict_get authentication "username" VNone) (fun u =>
  and_then (dict_get authentication "password" VNone) (fun p =>
  and_then (dict_get authentication "db" VNone) (fun d =>
  Ok {| username := u; password := p; database := d;
        fqdn := fqdn; port := port; connection := None |}))).

(** The probe object of one service. [mysql_connection] is the one instance
    of the connection class, which the probes of all MySQL services hold. *)
Record mysql_test := {
  mysql_connection : MySQLConnection;
  check_interval : value;
  stop_event : bool;
  result : bool
}.

(** [mysql_test.__init__] around an instance [d] of the connection class. *)
Definition new_test (d : MySQLConnection) (interval : value) : mysql_test :=
  {| mysql_connection := d; check_interval := interval;
     stop_event := false; result := false |}.

Definition set_connection (c : option handle) (t : mysql_test) : mysql_test :=
  let d := mysql_connection t in
  {| mysql_connection :=
       {| username := username d; password := password d;
          database := database d; fqdn := fqdn d; port := port d;
          connection := c |};
     check_interval := check_interval t;
     stop_event := stop_event t;
     result := result t |}.

Definition set_result (r : bool) (t : mysql_test) : mysql_test :=
  {| mysql_connection := mysql_connection t;
     check_interval := check_interval t;
     stop_event := stop_event t;
     result := r |}.

Definition params (d : MySQLConnection) : conn_params :=
  {| cp_host := fqdn d; cp_port := port d; cp_user := username d;
     cp_password := password d; cp_database := database d |}.

(** [stop_threads]: [self.stop_event.set()] *)
Definition stop_threads (t : mysql_test) : mysql_test :=
  {| mysql_connection := mysql_connection t;
     check_interval := check_interval t;
     stop_event := true;
     result := result t |}.

Section Driver.
Context {B : Type} `{SqlServer B}.

Definition state := world B mysql_test.

Definition connect : M state unit :=
  try_except
    (d <- gets mysql_connection;;
     emit (Connect (params d));;
     c <- call (sql_connect (params d));;
     update (set_connection (Some c)))
    (isinstance MySQLError)
    (fun err => logger ERROR ("Error connecting to MySQL: " +:+ exn_msg err)).

Definition get_connection (force : bool) : M state (option handle) :=
  emit (GetConnection (Some force));;
  if force then
    connect;;
    gets (fun t => connection (mysql_connection t))
  else
    c <- gets (fun t => connection (mysql_connection t));;
    (match c with None => connect | Some _ => ret tt end);;
    gets (fun t => connection (mysql_connection t)).

(** [row[0] == 1] on what [fetchone()] returned. *)
Definition first_is_one (row : option (list value)) : res bool :=
  match row with
  | None => Err (Exn TypeError "'NoneType' object is not subscriptable")
  | Some [] => Err (Exn IndexError "tuple index out of range")
  | Some (VInt 1 :: _) => Ok true
  | Some (VBool true :: _) => Ok true
  | Some (_ :: _) => Ok false
  end.

(** The query of one loop iteration, on the connection obtained: from
    [cursor = connection.cursor()] to the assignment of [self.result]. *)
Definition select_one (conn : option handle) : M state unit :=
  c <- attr_of conn "cursor";;
  emit (Cursor c);;
  cursor <- call (sql_cursor c);;
  call (sql_execute cursor "SELECT 1");;
  row <- call (sql_fetchone cursor);;
  one <- of_res (first_is_one row);;
  if one then
    logger INFO "MySQL query successful";;
    update (set_result true)
  else
    logger ERROR "MySQL query failed";;
    update (set_result false).

(** The [try ... except mysql.connector.Error] of one loop iteration. *)
Definition probe : M state unit :=
  try_except
    (r <- gets result;;
     conn <- (if negb r then get_connection true else get_connection false);;
     select_one conn)
    (isinstance MySQLError)
    (fun err =>
       logger ERROR ("MySQL error: " +:+ exn_msg err);;
       update (set_result false)).

(** One iteration of the loop of [query_check]. *)
Definition cycle : M state unit :=
  probe;;
  r <- gets result;;
  emit (MetricSet (if r then 1 else 0));;
  interval <- gets check_interval;;
  sleep interval.

Definition query_check (fuel : nat) (w : state) : status * state * list event :=
  while_loop (fun w => negb (stop_event (self w))) cycle fuel w.

End Driver.
End MySQL.

(** ** src/postgresql.py *)

Module PostgreSQL.
Import Py Env.
Local Open Scope py_scope.

Record PostgreSQLConnection := {
  username : value;
  password : value;
  database : value;
  fqdn : value;
  port : value;
  connection : option handle
}.

(** The attribute assignments of [__new__] on a fresh instance. *)
Definition init (authentication fqdn port : value) : res PostgreSQLConnection :=
  and_then (dict_get authentication "username" VNone) (fun u =>
  and_then (dict_get authentication "password" VNone) (fun p =>
  and_then (dict_get authentication "db" VNone) (fun d =>
  Ok {| username := u; password := p; database := d;
        fqdn := fqdn; port := port; connection := None |}))).

(** The probe object of one service. [postgresql_connection] is the one
    instance of the connection class: the probes of all PostgreSQL services
    hold the same object, and each of their threads may assign its
    [connection]. The loop below is the loop of one probe left alone;
    [Py.while_loop_among] runs it among the others. *)
Record postgresql_test := {
  postgresql_connection : PostgreSQLConnection;
  check_interval : value;
  stop_event : bool;
  result : bool
}.

Definition new_test (d : PostgreSQLConnection) (interval : value) : postgresql_test :=
  {| postgresql_connection := d; check_interval := interval;
     stop_event := false; result := false |}.

Definition set_connection (c : option handle) (t : postgresql_test) : postgresql_test :=
  let d := postgresql_connection t in
  {| postgresql_connection :=
       {| username := username d; password := password d;
          database := database d; fqdn := fqdn d; port := port d;
          connection := c |};
     check_interval := check_interval t;
     stop_event := stop_event t;
     result := result t |}.

Definition set_result (r : bool) (t : postgresql_test) : postgresql_test :=
  {| postgresql_connection := postgresql_connection t;
     check_interval := check_interval t;
     stop_event := stop_event t;
     result := r |}.

Definition params (d : PostgreSQLConnection) : conn_params :=
  {| cp_host := fqdn d; cp_port := port d; cp_user := username d;
     cp_password := password d; cp_database := database d |}.

(** [stop_threads]: [self.stop_event.set()] *)
Definition stop_threads (t : postgresql_test) : postgresql_test :=
  {| postgresql_connection := postgresql_connection t;
     check_interval := check_interval t;
     stop_event := true;
     result := result t |}.

Section Driver.
Context {B : Type} `{SqlServer B}.

Definition state := world B postgresql_test.

Definition connect : M state unit :=
  try_except
    (d <- gets postgresql_connection;;
     emit (Connect (params d));;
     c <- call (sql_connect (params d));;
     update (set_connection (Some c)))
    (isinstance Psycopg2Error)
    (fun err => logger ERROR ("Error connecting to PostgreSQL: " +:+ exn_msg err)).

Definition get_connection : M state (option handle) :=
  emit (GetConnection None);;
  c <- gets (fun t => connection (postgresql_connection t));;
  (match c with None => connect | Some _ => ret tt end);;
  gets (fun t => connection (postgresql_connection t)).

(** [row[0] == 1] on what [fetchone()] returned. *)
Definition first_is_one (row : option (list value)) : res bool :=
  match row with
  | None => Err (Exn TypeError "'NoneType' object is not subscriptable")
  | Some [] => Err (Exn IndexError "tuple index out of range")
  | Some (VInt 1 :: _) => Ok true
  | Some (VBool true :: _) => Ok true
  | Some (_ :: _) => Ok false
  end.

(** The query of one loop iteration, on the connection obtained: from
    [cursor = connection.cursor()] to the assignment of [self.result]. *)
Definition select_one (conn : option handle) : M state unit :=
  c <- attr_of conn "cursor";;
  emit (Cursor c);;
  cursor <- call (sql_cursor c);;
  call (sql_execute cursor "SELECT 1");;
  row <- call (sql_fetchone cursor);;
  one <- of_res (first_is_one row);;
  if one then
    logger INFO "PostgreSQL query successful";;
    update (set_result true)
  else
    logger ERROR "PostgreSQL query failed";;
    update (set_result false).

(** The [try ... except psycopg2.Error] of one loop iteration. *)
Definition probe : M state unit :=
  try_except
    (conn <- get_connection;;
     select_one conn)
    (isinstance Psycopg2Error)
    (fun err =>
       logger ERROR ("PostgreSQL error: " +:+ exn_msg err);;
       update (set_result false)).

(** One iteration of the loop of [query_check]. *)
Definition cycle : M state unit :=
  probe;;
  r <- gets result;;
  emit (MetricSet (if r then 1 else 0));;
  interval <- gets check_interval;;
  sleep interval.

Definition query_check (fuel : nat) (w : state) : status * state * list event :=
  while_loop (fun w => negb (stop_event (self w))) cycle fuel w.

End Driver.
End PostgreSQL.

(** ** src/redis.py *)

Module Redis.
Import Py Env.
Local Open Scope py_scope.

Record RedisConnection := {
  password : value;
  db : Z;
  fqdn : value;
  port : value;
  connection : option handle
}.

(** The decimal text of an integer as the Redis server reads it for INCR: an
    optional sign and one or more ASCII digits. Used by the test double. *)
Fixpoint digits (acc : option Z) (s : string) : option Z :=
  match s with
  | EmptyString => acc
  | String a rest =>
      let n := Z.of_N (N_of_ascii a) in
      if (48 <=? n) && (n <=? 57)
      then digits (Some (10 * default 0 acc + (n - 48))) rest
      else None
  end.

Definition parse_int (s : string) : option Z :=
  match s with
  | String "-" rest => Z.opp <$> digits None rest
  | String "+" rest => digits None rest
  | _ => digits None s
  end.

(** [int(v)] for the values a YAML document holds other than floats, which
    are not part of [value]. A [VStr] holds the UTF-8 encoding of its text.
    (The message of the ValueError is given without its quotation of the
    text.) *)
Definition int (v : value) : res Z :=
  match v with
  | VInt z => Ok z
  | VBool b => Ok (if b then 1 else 0)
  | VStr s =>
      match utf8_decode (map Byte.to_N (list_byte_of_string s)) with
      | Some text =>
          match int_literal text with
          | Some z => Ok z
          | None => Err (Exn ValueError "invalid literal for int() with base 10")
          end
      | None => Err (Exn ValueError "invalid literal for int() with base 10")
      end
  | _ =>
      Err (Exn TypeError
             ("int() argument must be a string, a bytes-like object or a real number, not '"
              +:+ type_name v +:+ "'"))
  end.

(** The attribute assignments of [__new__] on a fresh instance. *)
Definition init (authentication fqdn port : value) : res RedisConnection :=
  and_then (dict_get authentication "password" VNone) (fun p =>
  and_then (dict_get authentication "db" (VInt 0)) (fun d =>
  and_then (int d) (fun n =>
  Ok {| password := p; db := n; fqdn := fqdn; port := port;
        connection := None |}))).

(** The probe object of one service. [redis_connection] is the one instance
    of the connection class: the probes of all Redis services hold the same
    object, and each of their threads may assign its [connection]. The loop
    below is the loop of one probe left alone; [Py.while_loop_among] runs it
    among the others. *)
Record redis_test := {
  redis_connection : RedisConnection;
  check_interval : value;
  stop_event : bool;
  key : string;
  payload : string;
  result : bool     (* [Base.result] until the first assignment *)
}.

Definition new_test (d : RedisConnection) (interval : value) : redis_test :=
  {| redis_connection := d; check_interval := interval;
     stop_event := false; key := "DEVOPS_TEST_KEY";
     payload := "DEVOPS_TEST_VALUE"; result := false |}.

Definition set_connection (c : option handle) (t : redis_test) : redis_test :=
  let d := redis_connection t in
  {| redis_connection :=
       {| password := password d; db := db d; fqdn := fqdn d;
          port := port d; connection := c |};
     check_interval := check_interval t;
     stop_event := stop_event t;
     key := key t;
     payload := payload t;
     result := result t |}.

Definition set_result (r : bool) (t : redis_test) : redis_test :=
  {| redis_connection := redis_connection t;
     check_interval := check_interval t;
     stop_event := stop_event t;
     key := key t;
     payload := payload t;
     result := r |}.

Definition params (d : RedisConnection) : conn_params :=
  {| cp_host := fqdn d; cp_port := port d; cp_user := VNone;
     cp_password := password d; cp_database := VInt (db d) |}.

Definition counter : string := "SRE_TEST_COUNTER".

(** [stop_threads]: [self.stop_event.set()] *)
Definition stop_threads (t : redis_test) : redis_test :=
  {| redis_connection := redis_connection t;
     check_interval := check_interval t;
     stop_event := true;
     key := key t;
     payload := payload t;
     result := result t |}.

Section Driver.
Context {B : Type} `{RedisServer B}.

Definition state := world B redis_test.

Definition connect : M state unit :=
  try_except
    (d <- gets redis_connection;;
     emit (Connect (params d));;
     c <- call (redis_connect (params d));;
     update (set_connection (Some c)))
    is_Exception
    (fun e => logger ERROR ("Error connecting to Redis: " +:+ exn_msg e)).

Definition get_connection : M state (option handle) :=
  emit (GetConnection None);;
  c <- gets (fun t => connection (redis_connection t));;
  (match c with None => connect | Some _ => ret tt end);;
  gets (fun t => connection (redis_connection t)).

(** [value and value.decode("utf-8") == self.payload] *)
Definition value_matches (value : option bytes) (payload : string) : res bool :=
  match value with
  | None => Ok false
  | Some [] => Ok false
  | Some v => and_then (decode v) (fun text => Ok (codepoints_eqb text (str payload)))
  end.

(** [counter_value.decode("utf-8")] for the log line. *)
Definition counter_text (counter_value : option bytes) : res codepoints :=
  match counter_value with
  | None => Err (Exn AttributeError "'NoneType' object has no attribute 'decode'")
  | Some v => decode v
  end.

(** The [try ... except Exception] of one loop iteration. *)
Definition exercise : M state unit :=
  try_except
    (conn <- get_connection;;
     k <- gets key;;
     p <- gets payload;;
     c <- attr_of conn "set";;
     emit (Command c "SET");;
     call (redis_set c k (encode p));;
     logger INFO "Set key";;
     emit (Command c "GET");;
     value <- call (redis_get c k);;
     same <- of_res (value_matches value p);;
     if same then
       logger INFO "Value for key";;
       emit (Command c "INCR");;
       call (redis_incr c counter 1);;
       emit (Command c "GET");;
       counter_value <- call (redis_get c counter);;
       of_res (counter_text counter_value);;
       logger INFO "Incremented counter";;
       emit (Command c "DEL");;
       call (redis_delete c k);;
       emit (Command c "DEL");;
       call (redis_delete c counter);;
       logger INFO "Deleted key and counter";;
       emit (Command c "EXISTS");;
       key_exists <- call (redis_exists c k);;
       logger INFO "Does key exist?";;
       update (set_result (key_exists =? 0))
     else
       logger ERROR "Key not found or value mismatch.";;
       update (set_result false))
    is_Exception
    (fun e =>
       logger ERROR ("Redis operation error: " +:+ exn_msg e);;
       update (set_result false)).

(** One iteration of the loop of [test_redis]. *)
Definition cycle : M state unit :=
  exercise;;
  r <- gets result;;
  emit (MetricSet (if r then 1 else 0));;
  interval <- gets check_interval;;
  sleep interval.

Definition test_redis (fuel : nat) (w : state) : status * state * list event :=
  while_loop (fun w => negb (stop_event (self w))) cycle fuel w.

End Driver.
End Redis.

(** ** src/rabbitmq.py *)

Module RabbitMQ.
Import Py Env.
Local Open Scope py_scope.

Record RabbitMQConnection := {
  username : value;
  password : value;
  fqdn : value;
  port : value;
  connection : option handle
}.

(** The attribute assignments of [__new__] on a fresh instance. *)
Definition init (authentication fqdn port : value) : res RabbitMQConnection :=
  and_then (dict_get authentication "username" VNone) (fun u =>
  and_then (dict_get authentication "password" VNone) (fun p =>
  Ok {| username := u; password := p; fqdn := fqdn; port := port;
        connection := None |})).

Record rabbitmq_test := {
  rabbitmq_connection : RabbitMQConnection;
  queue : string;
  payload : string;
  check_interval : value;
  stop_event : bool
}.

Definition new_test (d : RabbitMQConnection) (interval : value) : rabbitmq_test :=
  {| rabbitmq_connection := d; queue := "SRE_TEST_QUEUE";
     payload := "SRE_TEST_PAYLOAD"; check_interval := interval;
     stop_event := false |}.

Definition set_connection (c : option handle) (t : rabbitmq_test) : rabbitmq_test :=
  let d := rabbitmq_connection t in
  {| rabbitmq_connection :=
       {| username := username d; password := password d; fqdn := fqdn d;
          port := port d; connection := c |};
     queue := queue t;
     payload := payload t;
     check_interval := check_interval t;
     stop_event := stop_event t |}.

Definition params (d : RabbitMQConnection) : conn_params :=
  {| cp_host := fqdn d; cp_port := port d; cp_user := username d;
     cp_password := password d; cp_database := VNone |}.

(** [stop_threads]: [self.stop_event.set()] *)
Definition stop_threads (t : rabbitmq_test) : rabbitmq_test :=
  {| rabbitmq_connection := rabbitmq_connection t;
     queue := queue t;
     payload := payload t;
     check_interval := check_interval t;
     stop_event := true |}.

Section Driver.
Context {B : Type} `{AmqpServer B}.

Definition state := world B rabbitmq_test.

Definition connect : M state unit :=
  try_except
    (d <- gets rabbitmq_connection;;
     emit (Connect (params d));;
     c <- call (amqp_connect (params d));;
     update (set_connection (Some c)))
    is_Exception
    (fun e => logger ERROR ("Error connecting to RabbitMQ: " +:+ exn_msg e)).

(** [not self.connection or self.connection.is_closed] *)
Definition must_connect (w : state) : bool :=
  match connection (rabbitmq_connection (self w)) with
  | None => true
  | Some c => amqp_is_closed (srv w) c
  end.

Definition get_connection : M state (option handle) :=
  emit (GetConnection None);;
  w <- get;;
  (if must_connect w then connect else ret tt);;
  gets (fun t => connection (rabbitmq_connection t)).

(** One iteration of the loop of [send_message_test]. *)
Definition send_cycle : M state unit :=
  try_except
    (conn <- get_connection;;
     c <- attr_of conn "channel";;
     emit (Channel c);;
     channel <- call (amqp_channel c);;
     q <- gets queue;;
     call (amqp_queue_declare channel q);;
     body <- gets payload;;
     call (amqp_basic_publish channel "" q (encode body));;
     logger INFO "Sent Message";;
     emit (MetricSet 1);;
     interval <- gets check_interval;;
     sleep interval)
    is_Exception
    (fun e =>
       logger ERROR ("Error sending message: " +:+ exn_msg e);;
       emit (MetricSet 0);;
       interval <- gets check_interval;;
       sleep interval).

(** The consumer callback, once per delivered message. *)
Definition callback (body : bytes) : list event :=
  [Log INFO "Received message"; MetricSet 1].

(** [channel.start_consuming()] with [callback] registered. *)
Definition start_consuming (channel : handle) : M state unit := fun w =>
  match amqp_start_consuming channel (srv w) with
  | (bodies, r, b) => (r, World b (self w), concat (map callback bodies))
  end.

(** One iteration of the loop of [read_message_test]. *)
Definition read_cycle : M state unit :=
  try_except
    (conn <- get_connection;;
     c <- attr_of conn "channel";;
     emit (Channel c);;
     channel <- call (amqp_channel c);;
     q <- gets queue;;
     call (amqp_queue_declare channel q);;
     call (amqp_basic_consume channel q);;
     start_consuming channel)
    is_Exception
    (fun e =>
       logger ERROR ("Error reading message: " +:+ exn_msg e);;
       emit (MetricSet 0);;
       interval <- gets check_interval;;
       sleep interval).

Definition send_message_test (fuel : nat) (w : state) : status * state * list event :=
  while_loop (fun w => negb (stop_event (self w))) send_cycle fuel w.

Definition read_message_test (fuel : nat) (w : state) : status * state * list event :=
  while_loop (fun w => negb (stop_event (self w))) read_cycle fuel w.

End Driver.
End RabbitMQ.

(** ** src/config.py *)

Module Config.
Import Py Env.
Local Open Scope py_scope.

Section Loader.
Context {S : Type}.

(** The [conf] property. *)
Definition conf (env : os) : M S value :=
  let conf_file := "conf-test.yml" in
  let conf_file := "/config/conf.yml" in
  try_except
    (emit (OpenFile conf_file);;
     f <- of_res (read_file env conf_file);;
     configs <- of_res (safe_load env f);;
     logger INFO "Configuration loaded";;
     ret configs)
    is_Exception
    (fun e =>
       logger CRITICAL ("Failed to load configuration: " +:+ exn_msg e);;
       ret (VDict [])).

(** The [services] property. *)
Definition services (env : os) : M S value :=
  c <- conf env;;
  of_res (dict_get c "services" VNone).

End Loader.
End Config.

(** ** src/logger.py *)

Module Logger.
Import Py.

(** A dict with string keys, in insertion order; [record.__dict__] is one. *)
Definition dict := list (string * value).

(** [d[k] = v]: the key keeps its place if it is there, and is appended
    otherwise. *)
Fixpoint setitem (k : string) (v : value) (d : dict) : dict :=
  match d with
  | [] => [(k, v)]
  | (k', v') :: rest =>
      if String.eqb k k' then (k, v) :: rest else (k', v') :: setitem k v rest
  end.

(** How a call of the formatter ends. *)
Inductive outcome (A : Type) :=
| Done (a : A)
| KeyError (key : string)
| Raised (e : exn).
Arguments Done {A} a.
Arguments KeyError {A} key.
Arguments Raised {A} e.

(** [record.<name>] *)
Definition getattr (record : dict) (name : string) : outcome value :=
  match assoc name record with
  | Some v => Done v
  | None =>
      Raised (Exn AttributeError
                ("'LogRecord' object has no attribute '" +:+ name +:+ "'"))
  end.

Record JsonFormatter := {
  fmt_dict : list (string * string);
  default_time_format : string;
  default_msec_format : string;
  datefmt : value
}.

(** [__init__]; [None] for [fmt_dict] is the default. *)
Definition init (fmt : option (list (string * string))) (time_format msec_format : string)
    : JsonFormatter :=
  {| fmt_dict := match fmt with Some d => d | None => [("message", "message")] end;
     default_time_format := time_format;
     default_msec_format := msec_format;
     datefmt := VNone |}.

(** [usesTime] *)
Definition usesTime (f : JsonFormatter) : bool :=
  existsb (String.eqb "asctime") (map snd (fmt_dict f)).

(** The dict comprehension of [formatMessage], item by item. *)
Fixpoint comprehension (items : list (string * string)) (record acc : dict) : outcome dict :=
  match items with
  | [] => Done acc
  | (fmt_key, fmt_val) :: rest =>
      match assoc fmt_val record with
      | Some v => comprehension rest record (setitem fmt_key v acc)
      | None => KeyError fmt_val
      end
  end.

(** [formatMessage] *)
Definition formatMessage (f : JsonFormatter) (record : dict) : outcome dict :=
  comprehension (fmt_dict f) record [].

(** [format] reads and assigns attributes of the record it is given. *)
Definition F (A : Type) : Type := dict -> outcome A * dict.

Definition unit_ {A} (a : A) : F A := fun record => (Done a, record).

Definition then_ {A C} (m : F A) (k : A -> F C) : F C := fun record =>
  match m record with
  | (Done a, record1) => k a record1
  | (KeyError key, record1) => (KeyError key, record1)
  | (Raised e, record1) => (Raised e, record1)
  end.

(** [record.<name>] *)
Definition attr (name : string) : F value := fun record => (getattr record name, record).

(** [record.<name> = v] *)
Definition setattr (name : string) (v : value) : F unit := fun record =>
  (Done tt, setitem name v record).

(** A method that reads the record. *)
Definition reading {A} (method : dict -> outcome A) : F A := fun record =>
  (method record, record).

Declare Scope fmt_scope.
Delimit Scope fmt_scope with fmt.
Notation "x <- m ;; k" := (then_ m (fun x => k))
  (at level 100, m at next level, right associativity) : fmt_scope.
Notation "m ;; k" := (then_ m (fun _ => k))
  (at level 100, right associativity) : fmt_scope.

Section Format.
(** What [format] takes from [logging] and [json]. *)
Variable getMessage : dict -> outcome string.
Variable formatTime : dict -> value -> string.
Variable formatException : value -> string.
Variable formatStack : value -> string.
Variable dumps : dict -> string.

(** [format] *)
Definition format (f : JsonFormatter) : F string :=
  (message <- reading getMessage;;
   setattr "message" (VStr message);;
   (if usesTime f
    then asctime <- reading (fun record => Done (formatTime record (datefmt f)));;
         setattr "asctime" (VStr asctime)
    else unit_ tt);;
   message_dict <- reading (formatMessage f);;
   exc_info <- attr "exc_info";;
   (if truthy exc_info
    then exc_text <- attr "exc_text";;
         if negb (truthy exc_text)
         then setattr "exc_text" (VStr (formatException exc_info))
         else unit_ tt
    else unit_ tt);;
   exc_text <- attr "exc_text";;
   let message_dict :=
     if truthy exc_text then setitem "exc_info" exc_text message_dict else message_dict in
   stack_info <- attr "stack_info";;
   let message_dict :=
     if truthy stack_info
     then setitem "stack_info" (VStr (formatStack stack_info)) message_dict
     else message_dict in
   unit_ (dumps message_dict))%fmt.

End Format.

(** The formatter the module installs on its handler. *)
Definition json_formatter : JsonFormatter :=
  init (Some [("level", "levelname"); ("message", "message"); ("timestamp", "asctime")])
    "%Y-%m-%dT%H:%M:%S" "%s.%03dZ".

End Logger.

(** ** main.py *)

Module Main.
Import Py Env.
Local Open Scope py_scope.

(** The modules [importlib.import_module] finds under the package [src]. *)
Inductive module :=
| src_base | src_config | src_logger | src_mysql | src_postgresql | src_rabbitmq | src_redis.

(** The [<type>_test] classes, one per driver module. *)
Inductive kind := KMySQL | KPostgreSQL | KRedis | KRabbitMQ.

Definition kind_eqb (a b : kind) : bool :=
  match a, b with
  | KMySQL, KMySQL | KPostgreSQL, KPostgreSQL
  | KRedis, KRedis | KRabbitMQ, KRabbitMQ => true
  | _, _ => false
  end.

(** [importlib.import_module(f'src.{service_type}')] *)
Definition import_module (service_type : value) : res module :=
  match service_type with
  | VStr s =>
      if String.eqb s "base" then Ok src_base
      else if String.eqb s "config" then Ok src_config
      else if String.eqb s "logger" then Ok src_logger
      else if String.eqb s "mysql" then Ok src_mysql
      else if String.eqb s "postgresql" then Ok src_postgresql
      else if String.eqb s "rabbitmq" then Ok src_rabbitmq
      else if String.eqb s "redis" then Ok src_redis
      else Err (Exn ModuleNotFoundError ("No module named 'src." +:+ s +:+ "'"))
  | _ => Err (Exn ModuleNotFoundError "No module named 'src.<type>'")
  end.

(** [getattr(module, f'{service_type}_test')] *)
Definition test_class (m : module) : res kind :=
  match m with
  | src_mysql => Ok KMySQL
  | src_postgresql => Ok KPostgreSQL
  | src_redis => Ok KRedis
  | src_rabbitmq => Ok KRabbitMQ
  | src_base | src_config | src_logger =>
      Err (Exn AttributeError "module has no attribute '<type>_test'")
  end.

(** Instances of the four connection classes. [Partial k] is an instance of
    class [k] whose attribute assignments in [__new__] have not completed. *)
Inductive object :=
| MySQLObj (d : MySQL.MySQLConnection)
| PostgreSQLObj (d : PostgreSQL.PostgreSQLConnection)
| RedisObj (d : Redis.RedisConnection)
| RabbitMQObj (d : RabbitMQ.RabbitMQConnection)
| Partial (k : kind).

Definition class_of (o : object) : kind :=
  match o with
  | MySQLObj _ => KMySQL
  | PostgreSQLObj _ => KPostgreSQL
  | RedisObj _ => KRedis
  | RabbitMQObj _ => KRabbitMQ
  | Partial k => k
  end.

(** The gauge child [PLUS_MONITORING_METRIC.labels(...)] selects. *)
Record labels := Labels {
  l_name : string;
  l_fqdn : value;
  l_port : value;
  l_type : value
}.

(** A probe: the [<type>_test] object a thread runs and the gauge child it
    is given. [driver] is the address of the connection object
    [self.<type>_connection] refers to. *)
Record probe := Probe {
  service : string;
  kind_of : kind;
  driver : nat;
  interval : value;
  metric : labels
}.

Inductive thread :=
| CensusThread             (* monitor_active_thread_count *)
| ProbeThread (p : probe).

(** The process: the objects allocated so far, the class attribute
    [_instance] of each connection class, and the threads started so far. *)
Record process := Process {
  heap : list object;
  instance : kind -> option nat;
  threads : list thread
}.

Definition initial : process :=
  {| heap := []; instance := fun _ => None; threads := [] |}.

(** [cls._instance = super().__new__(cls)] *)
Definition allocate (k : kind) (p : process) : process :=
  {| heap := heap p ++ [Partial k];
     instance := fun k' => if kind_eqb k k' then Some (length (heap p)) else instance p k';
     threads := threads p |}.

(** The attribute assignments on the instance at address [a]. *)
Definition store (a : nat) (o : object) (p : process) : process :=
  {| heap := <[a := o]> (heap p); instance := instance p; threads := threads p |}.

Definition start (t : thread) (p : process) : process :=
  {| heap := heap p; instance := instance p; threads := threads p ++ [t] |}.

Definition init_object (k : kind) (authentication fqdn port : value) : res object :=
  match k with
  | KMySQL => and_then (MySQL.init authentication fqdn port) (fun d => Ok (MySQLObj d))
  | KPostgreSQL =>
      and_then (PostgreSQL.init authentication fqdn port) (fun d => Ok (PostgreSQLObj d))
  | KRedis => and_then (Redis.init authentication fqdn port) (fun d => Ok (RedisObj d))
  | KRabbitMQ =>
      and_then (RabbitMQ.init authentication fqdn port) (fun d => Ok (RabbitMQObj d))
  end.

(** [<Class>Connection(authentication, fqdn, port)]: the [__new__] of the
    four connection classes. *)
Definition construct (k : kind) (authentication fqdn port : value) : M process nat :=
  p <- get;;
  match instance p k with
  | Some a => ret a
  | None =>
      let a := length (heap p) in
      modify (allocate k);;
      o <- of_res (init_object k authentication fqdn port);;
      modify (store a o);;
      ret a
  end.

Definition create_monitoring_thread (service : string) (data : value) : M process thread :=
  service_type <- of_res (dict_get data "type" VNone);;
  fqdn <- of_res (dict_get data "fqdn" VNone);;
  authentication <- of_res (dict_get data "authentication" VNone);;
  port <- of_res (dict_get data "port" VNone);;
  check_interval <- of_res (dict_get data "check_interval" VNone);;
  module <- of_res (import_module service_type);;
  cls <- of_res (test_class module);;
  a <- construct cls authentication fqdn port;;
  let thread :=
    ProbeThread {| service := service; kind_of := cls; driver := a;
                   interval := check_interval;
                   metric := Labels service fqdn port service_type |} in
  emit (ThreadStart service);;
  modify (start thread);;
  ret thread.

(** [services.items()] *)
Definition items (services : value) : res (list (string * value)) :=
  match services with
  | VDict kvs => Ok kvs
  | _ => Err (Exn AttributeError "object has no attribute 'items'")
  end.

(** [for service, data in services.items(): ...] *)
Fixpoint start_services (kvs : list (string * value)) : M process (list thread) :=
  match kvs with
  | [] => ret []
  | (service, data) :: rest =>
      thread <- create_monitoring_thread service data;;
      pool <- start_services rest;;
      ret (thread :: pool)
  end.

(** [trigger_monitoring] up to the point where it waits in [join]; the
    result is [thread_pool]. *)
Definition trigger_monitoring (env : os) : M process (list thread) :=
  services <- Config.services env;;
  emit (ThreadStart "monitor_active_thread_count");;
  modify (start CensusThread);;
  kvs <- of_res (items services);;
  pool <- start_services kvs;;
  ret (CensusThread :: pool).

Section Census.
Context {B : Type} `{Threading B}.

(** One iteration of the loop of [monitor_active_thread_count]; [MetricSet]
    is [metric.set] on the gauge the function is given. *)
Definition census_cycle : M (world B unit) unit :=
  try_except
    (active_thread_count <- call active_count;;
     emit (MetricSet active_thread_count);;
     logger INFO "Set active thread count")
    is_Exception
    (fun e => logger ERROR ("Failed to set active thread count: " +:+ exn_msg e));;
  sleep (VInt 5).

(** [while True: ...] *)
Definition monitor_active_thread_count (fuel : nat) (w : world B unit)
    : status * world B unit * list event :=
  while_loop (fun _ => true) census_cycle fuel w.

End Census.

(** The probes among the started threads, in start order. *)
Fixpoint probes (ts : list thread) : list probe :=
  match ts with
  | [] => []
  | ProbeThread p :: rest => p :: probes rest
  | CensusThread :: rest => probes rest
  end.

End Main.

(** ** Notions used to state the properties of startup *)

Module Startup.
Import Py Env Main.
(** The dispatcher: from the declared type to the class of its probe. *)
Definition resolve (service_type : value) : res kind :=
  and_then (import_module service_type) test_class.

(** [data.get(k)] on a dict. *)
Definition field (kvs : list (string * value)) (k : string) : value :=
  match assoc k kvs with Some v => v | None => VNone end.

Definition probe_of (name : string) (kvs : list (string * value)) (k : kind) (a : nat) : probe :=
  {| service := name; kind_of := k; driver := a;
     interval := field kvs "check_interval";
     metric := Labels name (field kvs "fqdn") (field kvs "port") (field kvs "type") |}.

(** The target a connection object was built for. *)
Definition object_target (o : object) : option (value * value) :=
  match o with
  | MySQLObj d => Some (MySQL.fqdn d, MySQL.port d)
  | PostgreSQLObj d => Some (PostgreSQL.fqdn d, PostgreSQL.port d)
  | RedisObj d => Some (Redis.fqdn d, Redis.port d)
  | RabbitMQObj d => Some (RabbitMQ.fqdn d, RabbitMQ.port d)
  | Partial _ => None
  end.

(** The state [construct] leaves when class [k] had no instance and the
    attribute assignments produced [o]. *)
Definition with_instance (k : kind) (o : object) (p : process) : process :=
  {| heap := heap p ++ [o];
     instance := fun k' => if kind_eqb k k' then Some (length (heap p)) else instance p k';
     threads := threads p |}.

(** Each class's instance is an object of that class, and each started probe
    holds the instance of its class. *)
Record well_formed (p : process) : Prop := {
  wf_class : forall k a, instance p k = Some a ->
    exists o, heap p !! a = Some o /\ class_of o = k;
  wf_probe : forall q, q ∈ probes (threads p) -> instance p (kind_of q) = Some (driver q)
}.
End Startup.

(** ** Test doubles for the backends

    [script] answers the library calls from a list of prepared replies,
    one per call, in order; [store] is a key-value store behind the cache
    client whose DEL may be switched off. *)

Module Mock.
Import Py Env.

Inductive reply :=
| RHandle (h : handle)
| RUnit
| RRow (row : option (list value))
| RBytes (b : option bytes)
| RInt (z : Z)
| RDeliver (bodies : list bytes) (ending : res unit)
| RRaise (e : exn)
| RBlock.

Record script := Script {
  pending : list reply;
  closed : list handle      (* the connections whose closed flag is set *)
}.

(** Take the next reply; a reply of another kind than the call expects
    leaves the call waiting. *)
Definition next {A} (pick : reply -> option A) (s : script) : res A * script :=
  match pending s with
  | [] => (Block, s)
  | RRaise e :: rest => (Err e, Script rest (closed s))
  | RBlock :: rest => (Block, Script rest (closed s))
  | r :: rest =>
      match pick r with
      | Some a => (Ok a, Script rest (closed s))
      | None => (Block, s)
      end
  end.

Definition a_handle (r : reply) : option handle :=
  match r with RHandle h => Some h | _ => None end.
Definition a_unit (r : reply) : option unit :=
  match r with RUnit => Some tt | _ => None end.
Definition a_row (r : reply) : option (option (list value)) :=
  match r with RRow row => Some row | _ => None end.
Definition a_bytes (r : reply) : option (option bytes) :=
  match r with RBytes b => Some b | _ => None end.
Definition an_int (r : reply) : option Z :=
  match r with RInt z => Some z | _ => None end.

Definition is_closed (s : script) (c : handle) : bool :=
  bool_decide (c ∈ closed s).

#[global] Instance script_sql : SqlServer script := {|
  sql_connect _ := next a_handle;
  sql_closed := is_closed;
  sql_cursor _ := next a_handle;
  sql_execute _ _ := next a_unit;
  sql_fetchone _ := next a_row
|}.

#[global] Instance script_redis : RedisServer script := {|
  redis_connect _ := next a_handle;
  redis_set _ _ _ := next a_unit;
  redis_get _ _ := next a_bytes;
  redis_incr _ _ _ := next an_int;
  redis_delete _ _ := next an_int;
  redis_exists _ _ := next an_int
|}.

Definition deliver (s : script) : list bytes * res unit * script :=
  match pending s with
  | RDeliver bodies ending :: rest => (bodies, ending, Script rest (closed s))
  | RRaise e :: rest => ([], Err e, Script rest (closed s))
  | _ => ([], Block, s)
  end.

#[global] Instance script_amqp : AmqpServer script := {|
  amqp_connect _ := next a_handle;
  amqp_is_closed := is_closed;
  amqp_channel _ := next a_handle;
  amqp_queue_declare _ _ := next a_unit;
  amqp_basic_publish _ _ _ _ := next a_unit;
  amqp_basic_consume _ _ := next a_unit;
  amqp_start_consuming _ := deliver
|}.

(** A key-value store. With [deletes := false] DEL returns without
    removing anything. *)
Record store := Store {
  entries : list (string * bytes);
  deletes : bool
}.

Fixpoint lookup_key (k : string) (kvs : list (string * bytes)) : option bytes :=
  match kvs with
  | [] => None
  | (k', v) :: rest => if String.eqb k k' then Some v else lookup_key k rest
  end.

Definition remove_key (k : string) (kvs : list (string * bytes)) : list (string * bytes) :=
  filter (fun kv => negb (String.eqb k kv.1)) kvs.

Definition put_key (k : string) (v : bytes) (kvs : list (string * bytes)) :=
  (k, v) :: remove_key k kvs.

(** INCR on the store: a missing key counts as 0; the new value is kept
    as its decimal text. *)
Definition store_incr (k : string) (amount : Z) (s : store) : res Z * store :=
  let current :=
    match lookup_key k (entries s) with
    | None => Some 0
    | Some v => Redis.parse_int (string_of_list_byte v)
    end in
  match current with
  | Some n =>
      (Ok (n + amount),
       Store (put_key k (list_byte_of_string (pretty (n + amount))) (entries s)) (deletes s))
  | None => (Err (Exn LibraryError "value is not an integer or out of range"), s)
  end.

Definition store_delete (k : string) (s : store) : res Z * store :=
  match lookup_key k (entries s) with
  | Some _ =>
      if deletes s then (Ok 1, Store (remove_key k (entries s)) (deletes s))
      else (Ok 0, s)
  | None => (Ok 0, s)
  end.

#[global] Instance store_redis : RedisServer store := {|
  redis_connect _ s := (Ok 0%nat, s);
  redis_set _ k v s := (Ok tt, Store (put_key k v (entries s)) (deletes s));
  redis_get _ k s := (Ok (lookup_key k (entries s)), s);
  redis_incr _ := store_incr;
  redis_delete _ := store_delete;
  redis_exists _ k s :=
    (Ok (match lookup_key k (entries s) with Some _ => 1 | None => 0 end), s)
|}.

End Mock.

(** ** Configurations and backends used as examples *)

Module Examples.
Import Py Env Main Startup.


(** No configuration file anywhere: [open] raises. *)
Definition no_config : os :=
  {| read_file := fun _ => Err (Exn OSError "No such file or directory");
     safe_load := fun _ => Ok VNone |}.

(** A file system whose /config/conf.yml parses to [v]. *)
Definition config_of (v : value) : os :=
  {| read_file := fun p =>
       if String.eqb p "/config/conf.yml" then Ok "<yaml>"
       else Err (Exn OSError "No such file or directory");
     safe_load := fun _ => Ok v |}.

(** Connection objects, nothing cached yet. *)
Definition mysql_db1 : MySQL.MySQLConnection :=
  {| MySQL.username := VStr "monitor"; MySQL.password := VStr "secret";
     MySQL.database := VStr "health"; MySQL.fqdn := VStr "db1.internal";
     MySQL.port := VInt 3306; MySQL.connection := None |}.

Definition postgresql_db2 : PostgreSQL.PostgreSQLConnection :=
  {| PostgreSQL.username := VStr "monitor"; PostgreSQL.password := VStr "secret";
     PostgreSQL.database := VStr "health"; PostgreSQL.fqdn := VStr "db2.internal";
     PostgreSQL.port := VInt 5432; PostgreSQL.connection := None |}.

Definition redis_cache1 : Redis.RedisConnection :=
  {| Redis.password := VStr "secret"; Redis.db := 0;
     Redis.fqdn := VStr "cache1.internal"; Redis.port := VInt 6379;
     Redis.connection := None |}.

Definition refused (cls : exn_class) : Mock.reply :=
  Mock.RRaise (Exn cls "connection refused").

(** A MySQL probe at its first iteration; the server refuses connections. *)
Definition unreachable_mysql : MySQL.state :=
  World (Mock.Script [refused MySQLError; refused MySQLError] [])
        (MySQL.new_test mysql_db1 (VInt 1)).

(** A PostgreSQL probe at its first iteration; the server refuses connections. *)
Definition unreachable_postgresql : PostgreSQL.state :=
  World (Mock.Script [refused Psycopg2Error; refused Psycopg2Error] [])
        (PostgreSQL.new_test postgresql_db2 (VInt 1)).

(** A MySQL probe whose last iteration failed on connection 7, which is
    still cached; the server now refuses connections. *)
Definition stale_mysql : MySQL.state :=
  World (Mock.Script [refused MySQLError] [])
        (MySQL.set_connection (Some 7%nat) (MySQL.new_test mysql_db1 (VInt 1))).

(** The same probe when the old connection 7 still answers: the server
    refuses the new connection, and the query on connection 7 returns the
    row [(1,)]. *)
Definition stale_answering_mysql : MySQL.state :=
  World (Mock.Script [refused MySQLError; Mock.RHandle 70%nat; Mock.RUnit;
                      Mock.RRow (Some [VInt 1])] [])
        (MySQL.set_connection (Some 7%nat) (MySQL.new_test mysql_db1 (VInt 1))).

(** A PostgreSQL probe whose cached connection 3 has been closed. *)
Definition closed_postgresql : PostgreSQL.state :=
  World (Mock.Script [Mock.RHandle 4%nat] [3%nat])
        (PostgreSQL.set_connection (Some 3%nat)
           (PostgreSQL.new_test postgresql_db2 (VInt 1))).

(** A MySQL probe at its first iteration; the server accepts the connection
    and answers the query with the row [(1,)], twice. *)
Definition healthy_mysql : MySQL.state :=
  World (Mock.Script
           [Mock.RHandle 1%nat; Mock.RHandle 10%nat; Mock.RUnit; Mock.RRow (Some [VInt 1]);
            Mock.RHandle 11%nat; Mock.RUnit; Mock.RRow (Some [VInt 1])] [])
        (MySQL.new_test mysql_db1 (VInt 1)).

(** A RabbitMQ consumer: the broker accepts the connection, delivers two
    messages and then has nothing more to say. *)
Definition quiet_broker : RabbitMQ.state :=
  World (Mock.Script
           [Mock.RHandle 1%nat; Mock.RHandle 2%nat; Mock.RUnit; Mock.RUnit;
            Mock.RDeliver [encode "SRE_TEST_PAYLOAD"; encode "SRE_TEST_PAYLOAD"] Block] [])
        (RabbitMQ.new_test
           {| RabbitMQ.username := VStr "monitor"; RabbitMQ.password := VStr "secret";
              RabbitMQ.fqdn := VStr "mq1.internal"; RabbitMQ.port := VInt 5672;
              RabbitMQ.connection := None |} (VInt 1)).

(** A Redis probe; the backend refuses connections. *)
Definition unreachable_redis : Redis.state :=
  World (Mock.Script [refused LibraryError; refused LibraryError; refused LibraryError] [])
        (Redis.new_test redis_cache1 (VInt 1)).

(** The configuration entry of one service. *)
Definition entry_fields (type fqdn : string) (port : Z) (db : value)
    : list (string * value) :=
  [("type", VStr type); ("fqdn", VStr fqdn);
   ("authentication",
    VDict [("username", VStr "monitor"); ("password", VStr "secret"); ("db", db)]);
   ("port", VInt port); ("check_interval", VInt 1)].

Definition service_entry (type fqdn : string) (port : Z) (db : value) : value :=
  VDict (entry_fields type fqdn port db).

(** Two services of the same type. *)
Definition two_mysql : os :=
  config_of (VDict [("services", VDict
    [("db1", service_entry "mysql" "db1.internal" 3306 (VStr "health"));
     ("db2", service_entry "mysql" "db2.internal" 3307 (VStr "health"))])]).

(** A service of an unknown type between two well-formed ones. *)
Definition unknown_type_between : os :=
  config_of (VDict [("services", VDict
    [("cache1", service_entry "redis" "cache1.internal" 6379 (VInt 0));
     ("legacy", service_entry "mongodb" "legacy.internal" 27017 VNone);
     ("db1", service_entry "mysql" "db1.internal" 3306 (VStr "health"))])]).
(** The probes the two services of [two_mysql] are given. *)
Definition db1_probe : probe :=
  probe_of "db1" (entry_fields "mysql" "db1.internal" 3306 (VStr "health")) KMySQL 0.
Definition db2_probe : probe :=
  probe_of "db2" (entry_fields "mysql" "db2.internal" 3307 (VStr "health")) KMySQL 0.

(** A Redis probe against a key-value store, and against one whose DEL
    removes nothing. *)
Definition working_cache : Redis.state :=
  World (Mock.Store [] true) (Redis.new_test redis_cache1 (VInt 1)).

Definition sticky_cache : Redis.state :=
  World (Mock.Store [] false) (Redis.new_test redis_cache1 (VInt 1)).

End Examples.

(** ** Statements of the spec the code does not satisfy, in the spec's words *)

Module Claims.
Import Py Env Main Startup.

(** "On a connection error [connect()] logs the error and leaves the
    driver's cached connection unset." (for the MySQL variant) *)
Definition failed_connect_leaves_cache_unset {B} `{SqlServer B} (w : MySQL.state) : Prop :=
  forall e b,
    sql_connect (MySQL.params (MySQL.mysql_connection (self w))) (srv w) = (Err e, b) ->
    isinstance MySQLError e = true ->
    (MySQL.connect w).1.1 = Ok tt /\
    MySQL.connection (MySQL.mysql_connection (self (MySQL.connect w).1.2)) = None.

(** "[get_connection] calls [connect()] first exactly when the cache is
    absent or the cached connection is observably closed." (for the
    PostgreSQL variant) *)
Definition reconnects_iff_absent_or_closed {B} `{SqlServer B} (w : PostgreSQL.state) : Prop :=
  connects (PostgreSQL.get_connection w).2 <> [] <->
  (PostgreSQL.connection (PostgreSQL.postgresql_connection (self w)) = None \/
   exists c, PostgreSQL.connection (PostgreSQL.postgresql_connection (self w)) = Some c /\
             sql_closed (srv w) c = true).

(** "The forced call re-establishes the connection." (the MySQL variant, in
    an iteration that follows a failure): the connection the query runs on
    is one that the forced call of this iteration has established. *)
Definition forced_call_reestablishes {B} `{SqlServer B} (w : MySQL.state) : Prop :=
  MySQL.result (self w) = false ->
  forall c, c ∈ cursors (MySQL.cycle w).2 ->
    exists b,
      sql_connect (MySQL.params (MySQL.mysql_connection (self w))) (srv w) = (Ok c, b).

(** "For every two distinct configured services, the driver instances bound
    to their probe loops are distinct objects, each constructed from its own
    service's fqdn, port and credentials." *)
Definition built_for (P : process) (p : probe) : Prop :=
  exists o, heap P !! driver p = Some o /\
            object_target o = Some (l_fqdn (metric p), l_port (metric p)).

Definition one_driver_per_service (P : process) : Prop :=
  forall i j p q, i <> j ->
    probes (threads P) !! i = Some p -> probes (threads P) !! j = Some q ->
    driver p <> driver q /\ built_for P p /\ built_for P q.

(** "For every configured service whose declared type does not resolve to a
    known driver, startup continues: the probe loops of all remaining
    configured services are still started." *)
Definition unresolved_type_is_isolated (env : os) : Prop :=
  forall pre name kvs post e,
    (Config.services env initial).1.1 = Ok (VDict (pre ++ (name, VDict kvs) :: post)) ->
    resolve (field kvs "type") = Err e ->
    forall name' kvs' k,
      (name', VDict kvs') ∈ pre ++ post ->
      resolve (field kvs' "type") = Ok k ->
      name' ∈ map service (probes (threads (trigger_monitoring env initial).1.2)).
End Claims.

(** ** The cache exercise, in the spec's words

    "Set a sentinel key, read it back and verify equality, increment a
    counter key, delete both keys, verify the primary key no longer exists;
    success requires every sub-step to succeed in order." *)

Module CacheSpec.
Import Py Env.

Section Spec.
Context {B : Type} `{RedisServer B}.

(** Starting from [w], a connection is obtained and every sub-step up to the
    existence check succeeds, in order; the check answers [key_exists].
    (The increment is followed by reading the counter back as text, as the
    code does for its log line.) *)
Inductive reaches_exists (w : Redis.state) (key_exists : Z) : Prop :=
| reaches c w1 evs s2 value s3 n s4 counter_value text s5 d1 s6 d2 s7 s8 :
    Redis.get_connection w = (Ok (Some c), w1, evs) ->
    redis_set c (Redis.key (self w)) (encode (Redis.payload (self w))) (srv w1)
      = (Ok tt, s2) ->
    redis_get c (Redis.key (self w)) s2 = (Ok (Some value), s3) ->
    decode value = Ok (str (Redis.payload (self w))) ->
    redis_incr c Redis.counter 1 s3 = (Ok n, s4) ->
    redis_get c Redis.counter s4 = (Ok (Some counter_value), s5) ->
    decode counter_value = Ok text ->
    redis_delete c (Redis.key (self w)) s5 = (Ok d1, s6) ->
    redis_delete c Redis.counter s6 = (Ok d2, s7) ->
    redis_exists c (Redis.key (self w)) s7 = (Ok key_exists, s8) ->
    reaches_exists w key_exists.

(** Every sub-step succeeds: the existence check reports the key absent. *)
Definition all_substeps_succeed (w : Redis.state) : Prop := reaches_exists w 0.

End Spec.
End CacheSpec.

(** ** The reconnect policy of the MySQL variant, in the spec's words

    "Caller-driven [force]: re-validates/reconnects whenever the previous
    probe failed, otherwise reuses." *)

Module ReconnectPolicy.
Import Py Env.

Section Policy.
Context {B : Type} `{SqlServer B}.

(** [w] is a state in which the probe that ended an iteration in [w1] may
    start its next one. The probe's own attributes are those of [w1]. The
    connection object is shared with the probes of the other services of the
    same type, whose threads may have run in between: [connect()] may have
    replaced the cached connection, and nothing ever unsets it. The backend
    may have changed in any way. What one call of [get_connection] reads and
    writes of the connection object is taken as one step: [w] is the state
    in which the call finds the object. *)
Definition resumes (w1 w : @MySQL.state B) : Prop :=
  MySQL.result (self w) = MySQL.result (self w1) /\
  (is_Some (MySQL.connection (MySQL.mysql_connection (self w1))) ->
   is_Some (MySQL.connection (MySQL.mysql_connection (self w)))).

(** The iteration started in [w] reuses the cached connection [c]:
    [get_connection(force=False)] hands [c] back without a library connect
    call and without a write to the connection object, and the query runs
    on [c]. *)
Definition reuses (c : handle) (w : MySQL.state) : Prop :=
  MySQL.connection (MySQL.mysql_connection (self w)) = Some c /\
  (MySQL.get_connection false w).1 = (Ok (Some c), w) /\
  connects (MySQL.cycle w).2 = [] /\
  Forall (eq c) (cursors (MySQL.cycle w).2).

(** The iteration started in [w] forces a reconnect: one library connect
    call with the driver's parameters. When the server accepts, the forced
    call caches the new connection and hands it back, and the query runs on
    it. When the server refuses with the library's error, the forced call
    leaves the cache as it was and hands back what was cached: the query
    runs on the old connection, and with nothing cached the AttributeError
    of [None.cursor()] leaves the loop before the gauge is written. *)
Definition reconnects (w : MySQL.state) : Prop :=
  let d := MySQL.mysql_connection (self w) in
  let forced := MySQL.get_connection true w in
  connects (MySQL.cycle w).2 = [MySQL.params d] /\
  (forall c b,
      sql_connect (MySQL.params d) (srv w) = (Ok c, b) ->
      forced.1.1 = Ok (Some c) /\
      MySQL.connection (MySQL.mysql_connection (self forced.1.2)) = Some c /\
      Forall (eq c) (cursors (MySQL.cycle w).2)) /\
  (forall e b,
      sql_connect (MySQL.params d) (srv w) = (Err e, b) ->
      isinstance MySQLError e = true ->
      forced.1.1 = Ok (MySQL.connection d) /\
      MySQL.connection (MySQL.mysql_connection (self forced.1.2)) = MySQL.connection d /\
      match MySQL.connection d with
      | Some old => Forall (eq old) (cursors (MySQL.cycle w).2)
      | None =>
          exists e',
            (MySQL.cycle w).1.1 = Err e' /\ exn_class_of e' = AttributeError /\
            metric_writes (MySQL.cycle w).2 = []
      end).

End Policy.
End ReconnectPolicy.

(** ** Notions used to state the properties of the probe loops *)

Module LoopSpec.
Import Py Env.
(** The event is no library connect call, and a cursor or a cache command
    it records is on connection [c]. *)
Definition stays_on (c : handle) (ev : event) : Prop :=
  match ev with
  | Connect _ => False
  | Cursor c' => c' = c
  | Command c' _ => c' = c
  | _ => True
  end.

(** The other threads never unset what [cached] reads: where a connection
    is cached before they run, one is cached after. *)
Definition never_unset {S A} (cached : S -> option A) (others : nat -> S -> S) : Prop :=
  forall k s, is_Some (cached s) -> is_Some (cached (others k s)).

(** The census loop's sleeps are all of five seconds. *)
Definition sleeps_five (ev : event) : Prop :=
  match ev with
  | Sleep n => n = 5
  | _ => True
  end.
End LoopSpec.

(** ** What it takes for a database probe to succeed *)

Module QuerySpec.
Import Py Env.

Section Spec.
Context {B : Type} `{SqlServer B}.

(** The MySQL probe, started in [w], obtains a connection, opens a cursor,
    executes the query and fetches a row whose first column equals 1. *)
Inductive mysql_answers_one (w : MySQL.state) : Prop :=
| mysql_answers c w1 evs cursor s2 s3 row s4 :
    MySQL.get_connection (negb (MySQL.result (self w))) w = (Ok (Some c), w1, evs) ->
    sql_cursor c (srv w1) = (Ok cursor, s2) ->
    sql_execute cursor "SELECT 1" s2 = (Ok tt, s3) ->
    sql_fetchone cursor s3 = (Ok (Some row), s4) ->
    MySQL.first_is_one (Some row) = Ok true ->
    mysql_answers_one w.

(** The same for the PostgreSQL probe. *)
Inductive postgresql_answers_one (w : PostgreSQL.state) : Prop :=
| postgresql_answers c w1 evs cursor s2 s3 row s4 :
    PostgreSQL.get_connection w = (Ok (Some c), w1, evs) ->
    sql_cursor c (srv w1) = (Ok cursor, s2) ->
    sql_execute cursor "SELECT 1" s2 = (Ok tt, s3) ->
    sql_fetchone cursor s3 = (Ok (Some row), s4) ->
    PostgreSQL.first_is_one (Some row) = Ok true ->
    postgresql_answers_one w.

End Spec.
(** The event is neither a gauge write nor a sleep. *)
Definition quiet (ev : event) : Prop :=
  match ev with
  | MetricSet _ | Sleep _ => False
  | _ => True
  end.

End QuerySpec.

(** ** What it takes for the broker probes to succeed *)

Module BrokerSpec.
Import Py Env.

Section Spec.
Context {B : Type} `{AmqpServer B}.

(** The publisher, started in [w], obtains a connection, opens a channel on
    it, declares the queue and publishes the payload, each call returning. *)
Inductive publishes (w : RabbitMQ.state) : Prop :=
| publishes_payload c w1 evs channel b2 b3 b4 :
    RabbitMQ.get_connection w = (Ok (Some c), w1, evs) ->
    amqp_channel c (srv w1) = (Ok channel, b2) ->
    amqp_queue_declare channel (RabbitMQ.queue (self w1)) b2 = (Ok tt, b3) ->
    amqp_basic_publish channel "" (RabbitMQ.queue (self w1))
      (encode (RabbitMQ.payload (self w1))) b3 = (Ok tt, b4) ->
    publishes w.

(** The consumer, started in [w], obtains a connection, opens a channel on
    it, declares the queue and registers its callback, each call returning;
    [start_consuming] then delivers [bodies] and ends as [r]. *)
Inductive consumes (w : RabbitMQ.state) (bodies : list bytes) (r : res unit) : Prop :=
| consumes_messages c w1 evs channel b2 b3 b4 b5 :
    RabbitMQ.get_connection w = (Ok (Some c), w1, evs) ->
    amqp_channel c (srv w1) = (Ok channel, b2) ->
    amqp_queue_declare channel (RabbitMQ.queue (self w1)) b2 = (Ok tt, b3) ->
    amqp_basic_consume channel (RabbitMQ.queue (self w1)) b3 = (Ok tt, b4) ->
    amqp_start_consuming channel b4 = (bodies, r, b5) ->
    consumes w bodies r.

(** What [metric.set] and [time.sleep] the consumer's iteration adds after
    the callbacks, by how [start_consuming] ended. *)
Definition after_consuming {A} (r : res unit) (on_error otherwise : A) : A :=
  match r with
  | Err _ => on_error
  | _ => otherwise
  end.

End Spec.
End BrokerSpec.

(** ** More backends and probes to run the loops on *)

Module Scenarios.
Import Py Env Examples.

Definition mq1 : RabbitMQ.RabbitMQConnection :=
  {| RabbitMQ.username := VStr "monitor"; RabbitMQ.password := VStr "secret";
     RabbitMQ.fqdn := VStr "mq1.internal"; RabbitMQ.port := VInt 5672;
     RabbitMQ.connection := None |}.

(** A RabbitMQ publisher; the broker accepts the connection, the channel,
    the queue declaration and the publish. *)
Definition accepting_broker : RabbitMQ.state :=
  World (Mock.Script [Mock.RHandle 1%nat; Mock.RHandle 2%nat; Mock.RUnit; Mock.RUnit] [])
        (RabbitMQ.new_test mq1 (VInt 1)).

(** The same publisher, configured with a negative interval. *)
Definition hasty_publisher : RabbitMQ.state :=
  World (Mock.Script [Mock.RHandle 1%nat; Mock.RHandle 2%nat; Mock.RUnit; Mock.RUnit] [])
        (RabbitMQ.new_test mq1 (VInt (-1))).

(** Another PostgreSQL probe that, each time it runs, has put a connection
    of its own (9) into the shared connection object. *)
Definition busy_neighbour {B} (k : nat) (w : @PostgreSQL.state B) : @PostgreSQL.state B :=
  World (srv w) (PostgreSQL.set_connection (Some 9%nat) (self w)).

End Scenarios.

(** ** Notions used to state what startup has started *)

Module StartupSpec.
Import Py Env Main Startup.

(** The names of the threads an event list starts, in order. *)
Fixpoint thread_starts (evs : list event) : list string :=
  match evs with
  | [] => []
  | ThreadStart name :: rest => name :: thread_starts rest
  | _ :: rest => thread_starts rest
  end.

(** Probe [q] is the one [create_monitoring_thread] builds for the entry
    [kv] of the [services] mapping: the entry is a mapping, its type resolves
    to the class of [q], and name, labels and interval of [q] are the
    entry's own. *)
Definition started_for (kv : string * value) (q : probe) : Prop :=
  exists fields,
    kv.2 = VDict fields /\
    resolve (field fields "type") = Ok (kind_of q) /\
    q = probe_of kv.1 fields (kind_of q) (driver q).

Definition is_dict (v : value) : bool :=
  match v with VDict _ => true | _ => false end.

(** The events of a successful [conf]. *)
Definition loaded : list event :=
  [OpenFile "/config/conf.yml"; Log INFO "Configuration loaded"].

End StartupSpec.

Module EntrySpec.
Import Py Env Main Startup StartupSpec.

(** Why [create_monitoring_thread] raises [e] for the entry [data] in
    process [P], and the process it leaves: [data] has no [get]; or the type
    does not resolve; or the class has no instance yet and the attribute
    assignments of its [__new__] raise, which leaves the class with the
    instance it had just allocated. *)
Inductive not_started (P : process) (data : value) (e : exn) (P' : process) : Prop :=
| no_mapping :
    is_dict data = false ->
    e = Exn AttributeError "object has no attribute 'get'" ->
    P' = P ->
    not_started P data e P'
| type_unresolved fields :
    data = VDict fields ->
    resolve (field fields "type") = Err e ->
    P' = P ->
    not_started P data e P'
| not_constructed fields k :
    data = VDict fields ->
    resolve (field fields "type") = Ok k ->
    instance P k = None ->
    init_object k (field fields "authentication") (field fields "fqdn")
      (field fields "port") = Err e ->
    P' = allocate k P ->
    not_started P data e P'.

End EntrySpec.

(** ** The two steps of [format] *)

Module LoggerSpec.
Import Py Logger.
Local Open Scope fmt_scope.

Section Parts.
Variable formatTime : dict -> value -> string.
Variable formatException : value -> string.
Variable formatStack : value -> string.
Variable dumps : dict -> string.

(** The record as [format] hands it to [formatMessage]: [message] is set,
    and [asctime] if the formatter uses the time. *)
Definition prepared (f : JsonFormatter) (record : dict) (message : string) : dict :=
  let record := setitem "message" (VStr message) record in
  if usesTime f
  then setitem "asctime" (VStr (formatTime record (datefmt f))) record
  else record.

(** What [format] does with the dict [formatMessage] returned. *)
Definition attach_traces (message_dict : dict) : F string :=
  exc_info <- attr "exc_info";;
  (if truthy exc_info
   then exc_text <- attr "exc_text";;
        if negb (truthy exc_text)
        then setattr "exc_text" (VStr (formatException exc_info))
        else unit_ tt
   else unit_ tt);;
  exc_text <- attr "exc_text";;
  let message_dict :=
    if truthy exc_text then setitem "exc_info" exc_text message_dict else message_dict in
  stack_info <- attr "stack_info";;
  let message_dict :=
    if truthy stack_info
    then setitem "stack_info" (VStr (formatStack stack_info)) message_dict
    else message_dict in
  unit_ (dumps message_dict).

(** The traceback text [format] attaches: the cached one, or the one it
    formats when there is exception information and nothing cached. *)
Definition traceback_text (exc_info exc_text : value) : value :=
  if truthy exc_info && negb (truthy exc_text)
  then VStr (formatException exc_info)
  else exc_text.

End Parts.
End LoggerSpec.

(** * Properties *)

Import Py Env Examples.

(** ** [time.sleep] *)

(** What [time.sleep] does is what [sleep_length] says. *)
Lemma sleep_spec {S} (secs : value) :
  match sleep_length secs with
  | Some n => @sleep S secs = emit (Sleep n)
  | None => exists e, @sleep S secs = raise e
  end.
Proof.
  unfold sleep_length, sleep, sleep_limit.
  destruct secs as [|b|n|s|vs|kvs]; simpl; eauto.
  repeat match goal with
         | |- context [Z.ltb ?a ?b] => destruct (Z.ltb_spec a b)
         | |- context [Z.leb ?a ?b] => destruct (Z.leb_spec a b)
         end; simpl; eauto; lia.
Qed.

(** By cases on whether the [time.sleep] in the goal goes through. *)
Ltac sleep_cases :=
  match goal with
  | |- context [@sleep ?S ?v] =>
      let Hs := fresh "Hs" in
      let e := fresh "e" in
      pose proof (@sleep_spec S v) as Hs;
      destruct (sleep_length v) as [?n|] eqn:?Hlength;
      [|destruct Hs as [e Hs]]; rewrite Hs; unfold emit, raise
  end.

Lemma sleep_length_valid n : 0 <= n <= longest_sleep -> sleep_length (VInt n) = Some n.
Proof.
  unfold sleep_length, longest_sleep, sleep_limit. intros Hn.
  repeat match goal with
         | |- context [Z.leb ?a ?b] => destruct (Z.leb_spec a b)
         end; simpl; try reflexivity; lia.
Qed.

Lemma sleep_goes_through {S} n :
  0 <= n <= longest_sleep -> @sleep S (VInt n) = emit (Sleep n).
Proof.
  intros Hn. pose proof (@sleep_spec S (VInt n)) as Hs.
  rewrite (sleep_length_valid n Hn) in Hs. exact Hs.
Qed.
Local Open Scope py_scope.

(** ** Reasoning about the events of a computation *)

Section EmitsOnly.
Context {S : Type} (P : event -> Prop).

Lemma emits_ret {A} (a : A) : emits_only P (ret a : M S A).
Proof. intros s. constructor. Qed.

Lemma emits_raise {A} (e : exn) : emits_only P (raise e : M S A).
Proof. intros s. constructor. Qed.

Lemma emits_of_res {A} (r : res A) : emits_only P (of_res r : M S A).
Proof. intros s. constructor. Qed.

Lemma emits_get : emits_only P (get : M S S).
Proof. intros s. constructor. Qed.

Lemma emits_modify (f : S -> S) : emits_only P (modify f).
Proof. intros s. constructor. Qed.

Lemma emits_emit (ev : event) : P ev -> emits_only P (emit ev : M S unit).
Proof. intros Hev s. repeat constructor. exact Hev. Qed.

Lemma emits_logger lvl msg : P (Log lvl msg) -> emits_only P (logger lvl msg : M S unit).
Proof. apply emits_emit. Qed.

Lemma emits_bind {A C} (m : M S A) (f : A -> M S C) :
  emits_only P m -> (forall a, emits_only P (f a)) -> emits_only P (bind m f).
Proof.
  intros Hm Hf s. unfold bind. specialize (Hm s).
  destruct (m s) as [[[a|e|] s1] ev1]; simpl in *; try assumption.
  specialize (Hf a s1). destruct (f a s1) as [[r s2] ev2]; simpl in *.
  apply Forall_app; split; assumption.
Qed.

Lemma emits_try_except {A} (m : M S A) catches (handler : exn -> M S A) :
  emits_only P m -> (forall e, emits_only P (handler e)) ->
  emits_only P (try_except m catches handler).
Proof.
  intros Hm Hh s. unfold try_except. specialize (Hm s).
  destruct (m s) as [[[a|e|] s1] ev1]; simpl in *; try assumption.
  destruct (catches e); simpl; try assumption.
  specialize (Hh e s1). destruct (handler e s1) as [[r s2] ev2]; simpl in *.
  apply Forall_app; split; assumption.
Qed.

Lemma emits_sleep (secs : value) :
  (forall n, P (Sleep n)) -> emits_only P (sleep secs : M S unit).
Proof.
  intros Hs. pose proof (@sleep_spec S secs) as Hspec.
  destruct (sleep_length secs) as [n|]; [|destruct Hspec as [e Hspec]]; rewrite Hspec.
  - apply emits_emit, Hs.
  - apply emits_raise.
Qed.

Lemma emits_attr_of obj attr : emits_only P (attr_of obj attr : M S handle).
Proof. destruct obj; [apply emits_ret | apply emits_raise]. Qed.

Lemma emits_while_loop cond (body : M S unit) fuel s :
  emits_only P body -> Forall P (while_loop cond body fuel s).2.
Proof.
  intros Hb. revert s. induction fuel as [|n IH]; intros s; simpl.
  - constructor.
  - destruct (cond s); [|constructor].
    specialize (Hb s). destruct (body s) as [[[a|e|] s1] ev1]; simpl in *; try assumption.
    specialize (IH s1). destruct (while_loop cond body n s1) as [[st s2] ev2]; simpl in *.
    apply Forall_app; split; assumption.
Qed.

End EmitsOnly.

Section EmitsOnlyWorld.
Context {B Self : Type} (P : event -> Prop).

Lemma emits_call {A} (op : B -> res A * B) : emits_only P (call op : M (world B Self) A).
Proof. intros w. unfold call. destruct (op (srv w)). constructor. Qed.

Lemma emits_gets {A} (f : Self -> A) : emits_only P (gets f : M (world B Self) A).
Proof. intros w. constructor. Qed.

Lemma emits_update (f : Self -> Self) : emits_only P (update f : M (world B Self) unit).
Proof. intros w. constructor. Qed.

End EmitsOnlyWorld.

Create HintDb emits discriminated.
#[global] Hint Resolve emits_ret emits_raise emits_of_res emits_get emits_modify
  emits_attr_of emits_call emits_gets emits_update : emits.

(** Break a computation into its statements. *)
Ltac emits_step :=
  first
    [ apply emits_bind; [|intros ?]
    | apply emits_try_except; [|intros ?]
    | apply emits_emit
    | apply emits_logger
    | apply emits_sleep; intros ?
    | solve [eauto with emits]
    | match goal with
      | |- emits_only _ (if ?b then _ else _) => destruct b
      | |- emits_only _ (match ?x with _ => _ end) => destruct x
      end ].

Ltac emits := repeat emits_step.

(** Unfold the monad's operations. *)
Ltac unfold_monad :=
  unfold attr_of, sleep, try_except, bind, ret, raise, emit, get, modify, of_res,
    logger, emit, call, gets, update in *.

(** Run a computation by cases on everything it inspects. *)
Ltac by_cases := repeat (case_match; cbn in *; simplify_eq).

(** ** The health gauge only ever holds 0 or 1 *)

Section GaugeValues.

Lemma mysql_cycle_binary {B} `{SqlServer B} : emits_only binary_gauge MySQL.cycle.
Proof.
  unfold MySQL.cycle, MySQL.probe, MySQL.select_one, MySQL.get_connection, MySQL.connect.
  emits; simpl; try case_match; auto.
Qed.

Lemma postgresql_cycle_binary {B} `{SqlServer B} : emits_only binary_gauge PostgreSQL.cycle.
Proof.
  unfold PostgreSQL.cycle, PostgreSQL.probe, PostgreSQL.select_one,
    PostgreSQL.get_connection, PostgreSQL.connect.
  emits; simpl; try case_match; auto.
Qed.

Lemma redis_cycle_binary {B} `{RedisServer B} : emits_only binary_gauge Redis.cycle.
Proof.
  unfold Redis.cycle, Redis.exercise, Redis.get_connection, Redis.connect.
  emits; simpl; try case_match; auto.
Qed.

Lemma rabbitmq_get_connection_binary {B} `{AmqpServer B} :
  emits_only binary_gauge RabbitMQ.get_connection.
Proof.
  unfold RabbitMQ.get_connection, RabbitMQ.connect.
  emits; simpl; try case_match; auto.
Qed.

Lemma rabbitmq_send_cycle_binary {B} `{AmqpServer B} :
  emits_only binary_gauge RabbitMQ.send_cycle.
Proof.
  pose proof rabbitmq_get_connection_binary.
  unfold RabbitMQ.send_cycle.
  emits; simpl; try case_match; auto.
Qed.

Lemma start_consuming_binary {B} `{AmqpServer B} channel :
  emits_only binary_gauge (RabbitMQ.start_consuming channel).
Proof.
  intros w. unfold RabbitMQ.start_consuming.
  destruct (amqp_start_consuming channel (srv w)) as [[bodies r] b]; simpl.
  induction bodies as [|body bodies IH]; simpl.
  - constructor.
  - constructor; [exact I|]. constructor; [right; reflexivity|]. exact IH.
Qed.

Lemma rabbitmq_read_cycle_binary {B} `{AmqpServer B} :
  emits_only binary_gauge RabbitMQ.read_cycle.
Proof.
  pose proof rabbitmq_get_connection_binary.
  pose proof start_consuming_binary.
  unfold RabbitMQ.read_cycle.
  emits; simpl; try case_match; auto.
Qed.

End GaugeValues.

(** The consumer loop of the broker variant on [quiet_broker]: one write of
    1 per delivered message, then the thread waits inside
    [start_consuming]. *)
Example consumer_waits_after_two_messages :
  (RabbitMQ.read_message_test 5 quiet_broker).1.1 = Blocked /\
  metric_writes (RabbitMQ.read_message_test 5 quiet_broker).2 = [1; 1].
Proof. split; reflexivity. Qed.

(** C9. Whatever the backend does and however long a probe loop runs, every
    value it writes to its service's health gauge is 1 or 0. This holds for
    the loop of each of the four variants, and for both loops (publisher and
    consumer) of the broker variant. *)
Theorem health_gauge_writes_are_binary :
  (forall B (server : SqlServer B) fuel (w : MySQL.state),
      Forall binary_gauge (MySQL.query_check fuel w).2) /\
  (forall B (server : SqlServer B) fuel (w : PostgreSQL.state),
      Forall binary_gauge (PostgreSQL.query_check fuel w).2) /\
  (forall B (server : RedisServer B) fuel (w : Redis.state),
      Forall binary_gauge (Redis.test_redis fuel w).2) /\
  (forall B (server : AmqpServer B) fuel (w : RabbitMQ.state),
      Forall binary_gauge (RabbitMQ.send_message_test fuel w).2) /\
  (forall B (server : AmqpServer B) fuel (w : RabbitMQ.state),
      Forall binary_gauge (RabbitMQ.read_message_test fuel w).2).
Proof.
  repeat split; intros B server fuel w; apply emits_while_loop.
  - apply mysql_cycle_binary.
  - apply postgresql_cycle_binary.
  - apply redis_cycle_binary.
  - apply rabbitmq_send_cycle_binary.
  - apply rabbitmq_read_cycle_binary.
Qed.

(** ** Loading the configuration *)


(** What [conf] gives back when the file cannot be read or parsed: the empty
    dict, after one critical log record. *)
Lemma conf_failure {S} (env : os) (s : S) e :
  and_then (read_file env "/config/conf.yml") (safe_load env) = Err e ->
  Config.conf env s =
    (Ok (VDict []), s,
     [OpenFile "/config/conf.yml";
      Log CRITICAL ("Failed to load configuration: " +:+ exn_msg e)]).
Proof.
  intros Hfail.
  unfold Config.conf, try_except, bind, emit, of_res, logger, emit, ret; simpl.
  destruct (read_file env "/config/conf.yml") as [f|e'|]; simpl in *.
  - destruct (safe_load env f) as [v|e'|]; simpl; congruence.
  - congruence.
  - discriminate.
Qed.

(** C4 (the code departs from the claim). When the configuration file is
    missing or does not parse, [conf] logs a critical record and returns the
    empty dict, [services] is then [None], and [trigger_monitoring] raises
    AttributeError from [services.items()]: it does not proceed with an empty
    service set. Only the census thread has been started by then. *)
Theorem missing_config_raises_out_of_startup (env : os) (e : exn) :
  and_then (read_file env "/config/conf.yml") (safe_load env) = Err e ->
  Main.trigger_monitoring env Main.initial =
    (Err (Exn AttributeError "object has no attribute 'items'"),
     Main.start Main.CensusThread Main.initial,
     [OpenFile "/config/conf.yml";
      Log CRITICAL ("Failed to load configuration: " +:+ exn_msg e);
      ThreadStart "monitor_active_thread_count"]).
Proof.
  intros Hfail.
  unfold Main.trigger_monitoring, Config.services, bind.
  rewrite (conf_failure env Main.initial e Hfail).
  reflexivity.
Qed.

Lemma missing_config_raises_out_of_startup_witness :
  Main.trigger_monitoring no_config Main.initial =
    (Err (Exn AttributeError "object has no attribute 'items'"),
     Main.start Main.CensusThread Main.initial,
     [OpenFile "/config/conf.yml";
      Log CRITICAL "Failed to load configuration: No such file or directory";
      ThreadStart "monitor_active_thread_count"]).
Proof.
  apply (missing_config_raises_out_of_startup no_config
           (Exn OSError "No such file or directory")).
  reflexivity.
Defined.

(** ** [connect] and [get_connection] *)

(** C5, as the code has it. In every variant, when the library's connect
    call raises an exception the variant's [except] clause takes (the
    library's own error class for MySQL and PostgreSQL, any exception for
    Redis and RabbitMQ), [connect()] returns normally, logs one error record,
    and leaves the object as it was: the cached connection is unset if it was
    unset, and is still the previously cached connection otherwise. *)
Theorem failed_connect_logs_and_keeps_cache :
  (forall B (server : SqlServer B) (w : MySQL.state) e b,
      sql_connect (MySQL.params (MySQL.mysql_connection (self w))) (srv w) = (Err e, b) ->
      isinstance MySQLError e = true ->
      MySQL.connect w =
        (Ok tt, World b (self w),
         [Connect (MySQL.params (MySQL.mysql_connection (self w)));
          Log ERROR ("Error connecting to MySQL: " +:+ exn_msg e)])) /\
  (forall B (server : SqlServer B) (w : PostgreSQL.state) e b,
      sql_connect (PostgreSQL.params (PostgreSQL.postgresql_connection (self w))) (srv w)
        = (Err e, b) ->
      isinstance Psycopg2Error e = true ->
      PostgreSQL.connect w =
        (Ok tt, World b (self w),
         [Connect (PostgreSQL.params (PostgreSQL.postgresql_connection (self w)));
          Log ERROR ("Error connecting to PostgreSQL: " +:+ exn_msg e)])) /\
  (forall B (server : RedisServer B) (w : Redis.state) e b,
      redis_connect (Redis.params (Redis.redis_connection (self w))) (srv w) = (Err e, b) ->
      Redis.connect w =
        (Ok tt, World b (self w),
         [Connect (Redis.params (Redis.redis_connection (self w)));
          Log ERROR ("Error connecting to Redis: " +:+ exn_msg e)])) /\
  (forall B (server : AmqpServer B) (w : RabbitMQ.state) e b,
      amqp_connect (RabbitMQ.params (RabbitMQ.rabbitmq_connection (self w))) (srv w)
        = (Err e, b) ->
      RabbitMQ.connect w =
        (Ok tt, World b (self w),
         [Connect (RabbitMQ.params (RabbitMQ.rabbitmq_connection (self w)));
          Log ERROR ("Error connecting to RabbitMQ: " +:+ exn_msg e)])).
Proof.
  repeat split; intros B server w e b Hreply.
  - intros Hcls.
    unfold MySQL.connect, try_except, bind, gets, emit, call, update, logger, emit; simpl.
    rewrite Hreply; simpl. rewrite Hcls. reflexivity.
  - intros Hcls.
    unfold PostgreSQL.connect, try_except, bind, gets, emit, call, update, logger, emit; simpl.
    rewrite Hreply; simpl. rewrite Hcls. reflexivity.
  - unfold Redis.connect, try_except, bind, gets, emit, call, update, logger, emit; simpl.
    rewrite Hreply; simpl. reflexivity.
  - unfold RabbitMQ.connect, try_except, bind, gets, emit, call, update, logger, emit; simpl.
    rewrite Hreply; simpl. reflexivity.
Qed.

Lemma failed_connect_logs_and_keeps_cache_witness :
  MySQL.connect unreachable_mysql =
    (Ok tt, World (Mock.Script [refused MySQLError] []) (self unreachable_mysql),
     [Connect (MySQL.params mysql_db1);
      Log ERROR "Error connecting to MySQL: connection refused"]) /\
  MySQL.connection (MySQL.mysql_connection (self unreachable_mysql)) = None.
Proof.
  split; [|reflexivity].
  apply (proj1 failed_connect_logs_and_keeps_cache Mock.script Mock.script_sql
           unreachable_mysql (Exn MySQLError "connection refused")
           (Mock.Script [refused MySQLError] [])); reflexivity.
Defined.

(** C5 does not hold as stated: a forced reconnect that fails leaves the
    connection of the earlier iteration cached, and [get_connection] hands
    that connection back to the caller. *)
Lemma failed_reconnect_keeps_stale_connection :
  ~ Claims.failed_connect_leaves_cache_unset stale_mysql /\
  (MySQL.get_connection true stale_mysql).1.1 = Ok (Some 7%nat).
Proof.
  split; [|reflexivity].
  intros Hclaim.
  destruct (Hclaim (Exn MySQLError "connection refused") (Mock.Script [] []))
    as [_ Hunset]; [reflexivity | reflexivity |].
  vm_compute in Hunset. discriminate.
Qed.

(** C6, as the code has it. The PostgreSQL and Redis variants test only
    whether a connection is cached: a cached connection is returned as it is,
    with no library call and no change of state, also when it has been closed
    and whatever the last probe's outcome; with nothing cached, [connect()]
    is called once. The RabbitMQ variant also reads the cached connection's
    [is_closed]: it returns a cached open connection untouched, and calls
    [connect()] once when nothing is cached or the cached one is closed. *)
Theorem get_connection_reuses_cached_connection :
  (forall B (server : SqlServer B) (w : PostgreSQL.state),
      match PostgreSQL.connection (PostgreSQL.postgresql_connection (self w)) with
      | Some c => PostgreSQL.get_connection w = (Ok (Some c), w, [GetConnection None])
      | None =>
          connects (PostgreSQL.get_connection w).2
          = [PostgreSQL.params (PostgreSQL.postgresql_connection (self w))]
      end) /\
  (forall B (server : RedisServer B) (w : Redis.state),
      match Redis.connection (Redis.redis_connection (self w)) with
      | Some c => Redis.get_connection w = (Ok (Some c), w, [GetConnection None])
      | None =>
          connects (Redis.get_connection w).2
          = [Redis.params (Redis.redis_connection (self w))]
      end) /\
  (forall B (server : AmqpServer B) (w : RabbitMQ.state),
      match RabbitMQ.connection (RabbitMQ.rabbitmq_connection (self w)) with
      | Some c =>
          if amqp_is_closed (srv w) c
          then connects (RabbitMQ.get_connection w).2
               = [RabbitMQ.params (RabbitMQ.rabbitmq_connection (self w))]
          else RabbitMQ.get_connection w = (Ok (Some c), w, [GetConnection None])
      | None =>
          connects (RabbitMQ.get_connection w).2
          = [RabbitMQ.params (RabbitMQ.rabbitmq_connection (self w))]
      end).
Proof.
  repeat split; intros B server [b t].
  - unfold PostgreSQL.get_connection, PostgreSQL.connect, try_except, bind, gets, emit,
      call, update, logger, emit, ret; simpl.
    destruct (PostgreSQL.connection (PostgreSQL.postgresql_connection t)) as [c|] eqn:Hc;
      simpl; [rewrite Hc; reflexivity|].
    destruct (sql_connect _ b) as [[c|e|] b']; simpl; try reflexivity.
    destruct (isinstance Psycopg2Error e); reflexivity.
  - unfold Redis.get_connection, Redis.connect, try_except, bind, gets, emit,
      call, update, logger, emit, ret; simpl.
    destruct (Redis.connection (Redis.redis_connection t)) as [c|] eqn:Hc;
      simpl; [rewrite Hc; reflexivity|].
    destruct (redis_connect _ b) as [[c|e|] b']; reflexivity.
  - unfold RabbitMQ.get_connection, RabbitMQ.must_connect, RabbitMQ.connect, try_except,
      bind, get, gets, emit, call, update, logger, emit, ret; simpl.
    destruct (RabbitMQ.connection (RabbitMQ.rabbitmq_connection t)) as [c|] eqn:Hc; simpl.
    + destruct (amqp_is_closed b c); simpl; [|rewrite Hc; reflexivity].
      destruct (amqp_connect _ b) as [[c'|e|] b']; reflexivity.
    + destruct (amqp_connect _ b) as [[c'|e|] b']; reflexivity.
Qed.

(** C6 does not hold as stated: the PostgreSQL variant hands back a cached
    connection that is closed without calling [connect()]. *)
Lemma closed_postgresql_connection_is_not_replaced :
  ~ Claims.reconnects_iff_absent_or_closed closed_postgresql.
Proof.
  intros [_ Hclaim]. apply Hclaim; [|reflexivity].
  right. exists 3%nat. split; reflexivity.
Qed.

(** ** Errors that leave a probe loop *)

(** C1 (the code departs from the claim). In the MySQL and PostgreSQL
    variants a refused connection ends the probe loop: [connect()] logs the
    library's error and caches nothing, [get_connection] returns [None], and
    [connection.cursor()] raises AttributeError, which the loop's
    [except <library>.Error] clause does not take. The thread dies in that
    iteration, before any value is written to the gauge, however many
    iterations one waits for. *)
Theorem refused_connection_ends_sql_probe_loops :
  (forall B (server : SqlServer B) fuel (w : MySQL.state) e b,
      MySQL.stop_event (self w) = false ->
      MySQL.connection (MySQL.mysql_connection (self w)) = None ->
      sql_connect (MySQL.params (MySQL.mysql_connection (self w))) (srv w) = (Err e, b) ->
      isinstance MySQLError e = true ->
      MySQL.query_check (S fuel) w =
        (Crashed (Exn AttributeError "'NoneType' object has no attribute 'cursor'"),
         World b (self w),
         [GetConnection (Some (negb (MySQL.result (self w))));
          Connect (MySQL.params (MySQL.mysql_connection (self w)));
          Log ERROR ("Error connecting to MySQL: " +:+ exn_msg e)])) /\
  (forall B (server : SqlServer B) fuel (w : PostgreSQL.state) e b,
      PostgreSQL.stop_event (self w) = false ->
      PostgreSQL.connection (PostgreSQL.postgresql_connection (self w)) = None ->
      sql_connect (PostgreSQL.params (PostgreSQL.postgresql_connection (self w))) (srv w)
        = (Err e, b) ->
      isinstance Psycopg2Error e = true ->
      PostgreSQL.query_check (S fuel) w =
        (Crashed (Exn AttributeError "'NoneType' object has no attribute 'cursor'"),
         World b (self w),
         [GetConnection None;
          Connect (PostgreSQL.params (PostgreSQL.postgresql_connection (self w)));
          Log ERROR ("Error connecting to PostgreSQL: " +:+ exn_msg e)])).
Proof.
  split; intros B server fuel [s t] e b Hstop Hnone Hreply Hcls; simpl in *.
  - unfold MySQL.query_check; simpl. rewrite Hstop; simpl.
    unfold MySQL.cycle, MySQL.probe, MySQL.select_one, MySQL.get_connection, MySQL.connect,
      attr_of, try_except, bind, gets, emit, call, update, logger, emit, ret, raise; simpl.
    destruct (MySQL.result t); simpl;
      rewrite ?Hnone; simpl; rewrite Hreply; simpl; rewrite Hcls; simpl;
      rewrite Hnone; reflexivity.
  - unfold PostgreSQL.query_check; simpl. rewrite Hstop; simpl.
    unfold PostgreSQL.cycle, PostgreSQL.probe, PostgreSQL.select_one,
      PostgreSQL.get_connection, PostgreSQL.connect,
      attr_of, try_except, bind, gets, emit, call, update, logger, emit, ret, raise; simpl.
    rewrite Hnone; simpl. rewrite Hreply; simpl. rewrite Hcls; simpl.
    rewrite Hnone. reflexivity.
Qed.

Lemma refused_connection_ends_sql_probe_loops_witness :
  MySQL.query_check 5 unreachable_mysql =
    (Crashed (Exn AttributeError "'NoneType' object has no attribute 'cursor'"),
     World (Mock.Script [refused MySQLError] []) (self unreachable_mysql),
     [GetConnection (Some true);
      Connect (MySQL.params mysql_db1);
      Log ERROR "Error connecting to MySQL: connection refused"]) /\
  PostgreSQL.query_check 5 unreachable_postgresql =
    (Crashed (Exn AttributeError "'NoneType' object has no attribute 'cursor'"),
     World (Mock.Script [refused Psycopg2Error] []) (self unreachable_postgresql),
     [GetConnection None;
      Connect (PostgreSQL.params postgresql_db2);
      Log ERROR "Error connecting to PostgreSQL: connection refused"]).
Proof.
  split.
  - apply (proj1 refused_connection_ends_sql_probe_loops Mock.script Mock.script_sql
             4%nat unreachable_mysql (Exn MySQLError "connection refused")
             (Mock.Script [refused MySQLError] [])); reflexivity.
  - apply (proj2 refused_connection_ends_sql_probe_loops Mock.script Mock.script_sql
             4%nat unreachable_postgresql (Exn Psycopg2Error "connection refused")
             (Mock.Script [refused Psycopg2Error] [])); reflexivity.
Defined.

(** ** No exception leaves a loop that catches [Exception] *)

Section Safe.
Context {S : Type} (I : S -> Prop).

Lemma safe_steady {A} (m : M S A) : safe I m -> steady I m.
Proof. intros Hm s Hs. apply Hm, Hs. Qed.

Lemma safe_ret {A} (a : A) : safe I (ret a : M S A).
Proof. intros s Hs. split; [exact Hs | discriminate]. Qed.

Lemma safe_emit ev : safe I (emit ev : M S unit).
Proof. intros s Hs. split; [exact Hs | discriminate]. Qed.

Lemma safe_logger lvl msg : safe I (logger lvl msg : M S unit).
Proof. apply safe_emit. Qed.

Lemma safe_get : safe I (get : M S S).
Proof. intros s Hs. split; [exact Hs | discriminate]. Qed.

Lemma steady_raise {A} e : steady I (raise e : M S A).
Proof. intros s Hs. exact Hs. Qed.

Lemma steady_of_res {A} (r : res A) : steady I (of_res r : M S A).
Proof. intros s Hs. exact Hs. Qed.

Lemma steady_sleep secs : steady I (sleep secs : M S unit).
Proof. intros s Hs. unfold sleep. repeat case_match; exact Hs. Qed.

Lemma steady_attr_of obj attr : steady I (attr_of obj attr : M S handle).
Proof. intros s Hs. destruct obj; exact Hs. Qed.

Lemma safe_bind {A C} (m : M S A) (f : A -> M S C) :
  safe I m -> (forall a, safe I (f a)) -> safe I (bind m f).
Proof.
  intros Hm Hf s Hs. unfold bind. destruct (Hm s Hs) as [Hs1 Hok].
  destruct (m s) as [[[a|e|] s1] ev1]; simpl in *.
  - destruct (Hf a s1 Hs1) as [Hs2 Hok2].
    destruct (f a s1) as [[r s2] ev2]; simpl in *. split; assumption.
  - destruct (Hok e eq_refl).
  - split; [assumption | discriminate].
Qed.

Lemma steady_bind {A C} (m : M S A) (f : A -> M S C) :
  steady I m -> (forall a, steady I (f a)) -> steady I (bind m f).
Proof.
  intros Hm Hf s Hs. unfold bind. pose proof (Hm s Hs) as Hs1.
  destruct (m s) as [[[a|e|] s1] ev1]; simpl in *; try assumption.
  pose proof (Hf a s1 Hs1) as Hs2.
  destruct (f a s1) as [[r s2] ev2]; simpl in *. assumption.
Qed.

(** [except Exception] leaves nothing to raise but what its handler raises. *)
Lemma safe_try_except_all {A} (m : M S A) (handler : exn -> M S A) :
  steady I m -> (forall e, safe I (handler e)) ->
  safe I (try_except m is_Exception handler).
Proof.
  intros Hm Hh s Hs. unfold try_except, is_Exception. pose proof (Hm s Hs) as Hs1.
  destruct (m s) as [[[a|e|] s1] ev1]; simpl in *.
  - split; [assumption | discriminate].
  - destruct (Hh e s1 Hs1) as [Hs2 Hok2].
    destruct (handler e s1) as [[r s2] ev2]; simpl in *. split; assumption.
  - split; [assumption | discriminate].
Qed.

Lemma steady_try_except {A} (m : M S A) catches (handler : exn -> M S A) :
  steady I m -> (forall e, steady I (handler e)) ->
  steady I (try_except m catches handler).
Proof.
  intros Hm Hh s Hs. unfold try_except. pose proof (Hm s Hs) as Hs1.
  destruct (m s) as [[[a|e|] s1] ev1]; simpl in *; try assumption.
  destruct (catches e); simpl; try assumption.
  pose proof (Hh e s1 Hs1) as Hs2.
  destruct (handler e s1) as [[r s2] ev2]; simpl in *. assumption.
Qed.

(** A loop whose body is safe never crashes. *)
Lemma safe_while_loop cond (body : M S unit) fuel s :
  safe I body -> I s ->
  crashed (while_loop cond body fuel s).1.1 = false.
Proof.
  intros Hb. revert s. induction fuel as [|n IH]; intros s Hs; simpl.
  - reflexivity.
  - destruct (cond s); [|reflexivity].
    destruct (Hb s Hs) as [Hs1 Hok].
    destruct (body s) as [[[a|e'|] s1] ev1]; simpl in *.
    + specialize (IH s1 Hs1).
      destruct (while_loop cond body n s1) as [[st s2] ev2]; simpl in *. exact IH.
    + destruct (Hok e' eq_refl).
    + reflexivity.
Qed.

End Safe.

Section SafeWorld.
Context {B Self : Type} (J : Self -> Prop).

Lemma steady_call {A} (op : B -> res A * B) : steady (on_self J) (call op : M (world B Self) A).
Proof. intros w Hw. unfold call. destruct (op (srv w)); exact Hw. Qed.

Lemma safe_gets {A} (f : Self -> A) : safe (on_self J) (gets f : M (world B Self) A).
Proof. intros w Hw. split; [exact Hw | discriminate]. Qed.

Lemma safe_update (f : Self -> Self) :
  (forall t, J t -> J (f t)) -> safe (on_self J) (update f : M (world B Self) unit).
Proof. intros Hf w Hw. split; [apply Hf, Hw | discriminate]. Qed.

(** [time.sleep(self.check_interval)] with a valid interval. *)
Lemma safe_sleep_interval (interval : Self -> value) :
  (forall t, J t -> valid_interval (interval t)) ->
  safe (on_self J) (bind (gets interval) sleep : M (world B Self) unit).
Proof.
  intros Hi w Hw. destruct (Hi (self w) Hw) as (n & Hn & Hpos).
  unfold bind, gets. rewrite Hn. rewrite (sleep_goes_through n) by exact Hpos.
  split; [exact Hw | discriminate].
Qed.

End SafeWorld.

Create HintDb safe discriminated.
#[global] Hint Resolve safe_ret safe_emit safe_logger safe_get safe_gets
  steady_raise steady_of_res steady_attr_of steady_sleep steady_call : safe.

Ltac steady_step :=
  first
    [ apply steady_bind; [|intros ?]
    | apply steady_try_except; [|intros ?]
    | solve [eauto with safe]
    | apply safe_steady; solve [eauto with safe]
    | apply safe_steady, safe_update; intros ? ?; assumption
    | apply safe_steady, safe_sleep_interval; intros ? ?; assumption
    | match goal with
      | |- steady _ (if ?b then _ else _) => destruct b
      | |- steady _ (match ?x with _ => _ end) => destruct x
      end ].

Ltac safe_step :=
  first
    [ apply safe_sleep_interval; intros ? ?; assumption
    | apply safe_bind; [|intros ?]
    | apply safe_try_except_all; [|intros ?]
    | solve [eauto with safe]
    | apply safe_update; intros ? ?; assumption
    | match goal with
      | |- safe _ (if ?b then _ else _) => destruct b
      | |- safe _ (match ?x with _ => _ end) => destruct x
      end ].

Lemma redis_cycle_safe {B} `{RedisServer B} :
  safe (on_self (fun t => valid_interval (Redis.check_interval t))) Redis.cycle.
Proof.
  unfold Redis.cycle, Redis.exercise, Redis.get_connection, Redis.connect.
  repeat safe_step; repeat steady_step.
Qed.

Lemma rabbitmq_get_connection_steady {B} `{AmqpServer B} :
  steady (on_self (fun t => valid_interval (RabbitMQ.check_interval t)))
    RabbitMQ.get_connection.
Proof.
  unfold RabbitMQ.get_connection, RabbitMQ.connect.
  repeat steady_step.
Qed.

Lemma rabbitmq_send_cycle_safe {B} `{AmqpServer B} :
  safe (on_self (fun t => valid_interval (RabbitMQ.check_interval t))) RabbitMQ.send_cycle.
Proof.
  pose proof rabbitmq_get_connection_steady.
  unfold RabbitMQ.send_cycle.
  repeat safe_step; repeat steady_step.
Qed.

Lemma start_consuming_steady {B} `{AmqpServer B} channel :
  steady (on_self (fun t => valid_interval (RabbitMQ.check_interval t)))
    (RabbitMQ.start_consuming channel).
Proof.
  intros w Hw. unfold RabbitMQ.start_consuming.
  destruct (amqp_start_consuming channel (srv w)) as [[bodies r] b]. exact Hw.
Qed.

Lemma rabbitmq_read_cycle_safe {B} `{AmqpServer B} :
  safe (on_self (fun t => valid_interval (RabbitMQ.check_interval t))) RabbitMQ.read_cycle.
Proof.
  pose proof rabbitmq_get_connection_steady.
  pose proof start_consuming_steady.
  unfold RabbitMQ.read_cycle.
  repeat safe_step; repeat steady_step.
Qed.

(** The loops that catch [Exception] do what C1 asks: in the Redis variant
    and in both loops of the RabbitMQ variant, with a check interval that
    [time.sleep] accepts, no exception leaves the loop, whatever the backend
    does and however long the loop runs. *)
Theorem catch_all_loops_survive_backend_errors :
  (forall B (server : RedisServer B) fuel (w : Redis.state),
      valid_interval (Redis.check_interval (self w)) ->
      crashed (Redis.test_redis fuel w).1.1 = false) /\
  (forall B (server : AmqpServer B) fuel (w : RabbitMQ.state),
      valid_interval (RabbitMQ.check_interval (self w)) ->
      crashed (RabbitMQ.send_message_test fuel w).1.1 = false) /\
  (forall B (server : AmqpServer B) fuel (w : RabbitMQ.state),
      valid_interval (RabbitMQ.check_interval (self w)) ->
      crashed (RabbitMQ.read_message_test fuel w).1.1 = false).
Proof.
  split; [|split]; intros B server fuel w Hw.
  - apply (safe_while_loop _ _ _ _ _ redis_cycle_safe Hw).
  - apply (safe_while_loop _ _ _ _ _ rabbitmq_send_cycle_safe Hw).
  - apply (safe_while_loop _ _ _ _ _ rabbitmq_read_cycle_safe Hw).
Qed.

Lemma catch_all_loops_survive_backend_errors_witness :
  crashed (Redis.test_redis 3 unreachable_redis).1.1 = false.
Proof.
  apply (proj1 catch_all_loops_survive_backend_errors Mock.script Mock.script_redis
           3%nat unreachable_redis).
  exists 1. split; [reflexivity | unfold longest_sleep; lia].
Defined.

(** ** The reconnect policy of the MySQL variant *)

Import ReconnectPolicy.

Section MySQLPolicy.
Context {B : Type} `{SqlServer B}.

(** What one [try ... except] of [query_check] does, by the state it starts
    in: it calls [get_connection] once, with [force] set exactly when
    [self.result] is false; it writes nothing to the gauge; it can end with
    [self.result] true only with a connection cached; after a success it
    neither connects nor replaces the cached connection; after a failure it
    issues one library connect call, and caches and uses what that returns. *)
Lemma mysql_probe_facts (w : MySQL.state) :
  let d := MySQL.mysql_connection (self w) in
  match MySQL.probe w with
  | (r, wp, evp) =>
      forces evp = [Some (negb (MySQL.result (self w)))] /\
      metric_writes evp = [] /\
      (r = Ok tt -> MySQL.result (self wp) = true ->
       is_Some (MySQL.connection (MySQL.mysql_connection (self wp)))) /\
      MySQL.check_interval (self wp) = MySQL.check_interval (self w) /\
      match MySQL.result (self w), MySQL.connection d with
      | true, Some c =>
          connects evp = [] /\ Forall (eq c) (cursors evp) /\
          MySQL.connection (MySQL.mysql_connection (self wp)) = Some c
      | true, None => True
      | false, _ =>
          connects evp = [MySQL.params d] /\
          forall c b, sql_connect (MySQL.params d) (srv w) = (Ok c, b) ->
            Forall (eq c) (cursors evp) /\
            MySQL.connection (MySQL.mysql_connection (self wp)) = Some c
      end
  end.
Proof.
  destruct w as [b [d i st r]].
  unfold MySQL.probe, MySQL.select_one, MySQL.get_connection, MySQL.connect.
  unfold_monad. cbn.
  by_cases.
  all: repeat split; intros; simplify_eq; eauto.
Qed.

(** An iteration is its [try ... except], then one gauge write of
    [self.result], then the sleep; the last two change no state. *)
Lemma mysql_cycle_after_probe (w : MySQL.state) :
  match MySQL.probe w with
  | (Ok _, wp, evp) =>
      exists r tail,
        MySQL.cycle w =
          (r, wp, evp ++ MetricSet (if MySQL.result (self wp) then 1 else 0) :: tail) /\
        (tail = [] \/ exists n, tail = [Sleep n])
  | (Err e, wp, evp) => MySQL.cycle w = (Err e, wp, evp)
  | (Block, wp, evp) => MySQL.cycle w = (Block, wp, evp)
  end.
Proof.
  unfold MySQL.cycle.
  destruct (MySQL.probe w) as [[[[]|e|] [b t]] evp] eqn:Hp;
    unfold bind at 1; rewrite Hp; try reflexivity.
  unfold bind, gets, emit. cbn -[sleep].
  sleep_cases; cbn; eauto 6.
Qed.

End MySQLPolicy.

Lemma forces_app a b : forces (a ++ b) = forces a ++ forces b.
Proof. induction a as [|[] a IH]; simpl; congruence. Qed.

Lemma connects_app a b : connects (a ++ b) = connects a ++ connects b.
Proof. induction a as [|[] a IH]; simpl; congruence. Qed.

Lemma cursors_app a b : cursors (a ++ b) = cursors a ++ cursors b.
Proof. induction a as [|[] a IH]; simpl; congruence. Qed.

Lemma metric_writes_app a b : metric_writes (a ++ b) = metric_writes a ++ metric_writes b.
Proof. induction a as [|[] a IH]; simpl; congruence. Qed.

(** The events of an iteration, read through the four projections. *)
Lemma mysql_cycle_events {B} `{SqlServer B} (w : MySQL.state) :
  forces (MySQL.cycle w).2 = forces (MySQL.probe w).2 /\
  connects (MySQL.cycle w).2 = connects (MySQL.probe w).2 /\
  cursors (MySQL.cycle w).2 = cursors (MySQL.probe w).2 /\
  MySQL.mysql_connection (self (MySQL.cycle w).1.2)
  = MySQL.mysql_connection (self (MySQL.probe w).1.2).
Proof.
  pose proof (mysql_cycle_after_probe w) as Hc.
  destruct (MySQL.probe w) as [[[[]|e|] wp] evp]; simpl.
  - destruct Hc as (r & tail & -> & [->|[n ->]]); simpl;
      rewrite forces_app, connects_app, cursors_app; simpl;
      rewrite !app_nil_r; auto.
  - rewrite Hc; auto.
  - rewrite Hc; auto.
Qed.

Section ForcedCall.
Context {B : Type} `{SqlServer B}.

(** What the two calls of [get_connection] do. *)
Lemma mysql_get_connection_calls (w : MySQL.state) :
  let d := MySQL.mysql_connection (self w) in
  let forced := MySQL.get_connection true w in
  (forall c, MySQL.connection d = Some c ->
             (MySQL.get_connection false w).1 = (Ok (Some c), w)) /\
  (forall c b,
      sql_connect (MySQL.params d) (srv w) = (Ok c, b) ->
      forced.1.1 = Ok (Some c) /\
      MySQL.connection (MySQL.mysql_connection (self forced.1.2)) = Some c) /\
  (forall e b,
      sql_connect (MySQL.params d) (srv w) = (Err e, b) ->
      isinstance MySQLError e = true ->
      forced.1.1 = Ok (MySQL.connection d) /\
      MySQL.connection (MySQL.mysql_connection (self forced.1.2)) = MySQL.connection d).
Proof.
  destruct w as [b [d i st r]]. cbv zeta.
  unfold MySQL.get_connection, MySQL.connect. unfold_monad. cbn.
  split; [|split].
  - intros c Hc. cbn. rewrite Hc. cbn. rewrite Hc. reflexivity.
  - intros c b' Hok. cbn. rewrite Hok. cbn. auto.
  - intros e b' Herr Hlib. cbn. rewrite Herr. cbn. rewrite Hlib. cbn. auto.
Qed.

(** The query of an iteration whose forced connect call is refused. *)
Lemma mysql_probe_after_refusal (w : MySQL.state) e b :
  MySQL.result (self w) = false ->
  sql_connect (MySQL.params (MySQL.mysql_connection (self w))) (srv w) = (Err e, b) ->
  isinstance MySQLError e = true ->
  match MySQL.connection (MySQL.mysql_connection (self w)) with
  | Some old => Forall (eq old) (cursors (MySQL.probe w).2)
  | None =>
      exists e', (MySQL.probe w).1.1 = Err e' /\ exn_class_of e' = AttributeError
  end.
Proof.
  destruct w as [b0 [d i st r]]. simpl. intros -> Hrefused Hlib.
  unfold MySQL.probe, MySQL.select_one, MySQL.get_connection, MySQL.connect.
  unfold_monad. cbn. rewrite Hrefused. cbn. rewrite Hlib. cbn.
  destruct (MySQL.connection d) as [old|]; cbn.
  - by_cases; repeat constructor.
  - eexists. split; reflexivity.
Qed.

End ForcedCall.

(** C8, as the code has it. In the MySQL variant, take a completed iteration
    and the iteration of the same probe that follows it. The completed
    iteration wrote its outcome [o] to the gauge. The next iteration calls
    [get_connection] once, with [force] true exactly when [o] was failure.
    After a success no connect call is issued and nothing is written to the
    connection object: the query runs on the cached connection. After a
    failure the forced call issues one library connect call with the
    driver's parameters. It re-establishes the connection only when the
    server accepts: the new connection is cached and the query runs on it.
    When the server refuses, the forced call returns the connection that was
    cached before, the query runs on that old connection (and may succeed on
    it), and with nothing cached the iteration ends the loop with
    AttributeError. *)
Theorem mysql_force_follows_previous_outcome {B} `{SqlServer B}
    (w0 w1 w : MySQL.state) (ev0 : list event) :
  MySQL.cycle w0 = (Ok tt, w1, ev0) ->
  resumes w1 w ->
  exists o : bool,
    metric_writes ev0 = [if o then 1 else 0] /\
    forces (MySQL.cycle w).2 = [Some (negb o)] /\
    if o then exists c, reuses c w else reconnects w.
Proof.
  intros Hprev [Hsame Hstill].
  exists (MySQL.result (self w1)).
  (* the completed iteration *)
  pose proof (mysql_cycle_after_probe w0) as Hc0.
  pose proof (mysql_probe_facts w0) as Hp0.
  destruct (MySQL.probe w0) as [[[[]|e|] wp] evp]; try congruence.
  destruct Hc0 as (r & tail & Hc0 & Htail). rewrite Hc0 in Hprev.
  injection Hprev as -> -> <-.
  destruct Hp0 as (_ & Hnowrite & Hcached & _).
  split.
  { rewrite metric_writes_app, Hnowrite. simpl.
    destruct Htail as [->|[n ->]]; reflexivity. }
  (* the iteration that follows *)
  destruct (mysql_get_connection_calls w) as (Hreuse & Haccepted & Hrefused).
  pose proof (mysql_probe_after_refusal w) as Hstale.
  pose proof (mysql_cycle_after_probe w) as Hcycle.
  unfold reuses, reconnects. cbv zeta.
  destruct (mysql_cycle_events w) as (-> & -> & -> & _).
  pose proof (mysql_probe_facts w) as Hp1.
  destruct (MySQL.probe w) as [[r1 wp1] evp1] eqn:Hprobe; simpl in *.
  destruct Hp1 as (Hforce & Hquiet & _ & _ & Hpolicy).
  rewrite Hsame in Hforce, Hpolicy, Hstale.
  split; [exact Hforce|].
  destruct (MySQL.result (self w1)) eqn:Hres.
  - destruct (Hstill (Hcached eq_refl eq_refl)) as [c Hc]. rewrite Hc in Hpolicy.
    exists c. split; [exact Hc|]. split; [exact (Hreuse c Hc)|]. tauto.
  - destruct Hpolicy as (Hconnects & Hnew).
    split; [exact Hconnects|]. split.
    + intros c b Hok. destruct (Haccepted c b Hok) as (Hret & Hcache).
      destruct (Hnew c b Hok) as (Hcursors & _). auto.
    + intros e b Herr Hlib. destruct (Hrefused e b Herr Hlib) as (Hret & Hcache).
      split; [exact Hret|]. split; [exact Hcache|].
      specialize (Hstale e b eq_refl Herr Hlib).
      destruct (MySQL.connection (MySQL.mysql_connection (self w))) as [old|];
        [exact Hstale|].
      destruct Hstale as (e' & Hraised & Hclass). subst r1.
      exists e'. rewrite Hcycle. simpl. auto.
Qed.

Lemma mysql_force_follows_previous_outcome_witness :
  exists o : bool,
    metric_writes (MySQL.cycle healthy_mysql).2 = [if o then 1 else 0] /\
    forces (MySQL.cycle (MySQL.cycle healthy_mysql).1.2).2 = [Some (negb o)] /\
    if o then exists c, reuses c (MySQL.cycle healthy_mysql).1.2
    else reconnects (MySQL.cycle healthy_mysql).1.2.
Proof.
  apply (mysql_force_follows_previous_outcome healthy_mysql
           (MySQL.cycle healthy_mysql).1.2 (MySQL.cycle healthy_mysql).1.2
           (MySQL.cycle healthy_mysql).2).
  - reflexivity.
  - split; [reflexivity | intros Hc; exact Hc].
Defined.

(** C8 does not hold as stated: a forced call that the server refuses does
    not re-establish the connection. It hands back the connection of the
    earlier iterations, here connection 7; the query runs on it, and as it
    answers, the iteration reports success. *)
Lemma refused_forced_call_keeps_old_connection :
  ~ Claims.forced_call_reestablishes stale_answering_mysql /\
  forces (MySQL.cycle stale_answering_mysql).2 = [Some true] /\
  cursors (MySQL.cycle stale_answering_mysql).2 = [7%nat] /\
  metric_writes (MySQL.cycle stale_answering_mysql).2 = [1].
Proof.
  split; [|repeat split; reflexivity].
  intros Hclaim.
  destruct (Hclaim eq_refl 7%nat) as [b Hb].
  - apply list_elem_of_here.
  - discriminate Hb.
Qed.

(** ** The cache exercise *)

Import CacheSpec.

Section CacheExercise.
Context {B : Type} `{RedisServer B}.

Lemma str_nonempty p : p <> "" -> str p <> [].
Proof. destruct p; [congruence | discriminate]. Qed.

Lemma value_matches_true value p :
  p <> "" ->
  Redis.value_matches value p = Ok true <->
  exists v, value = Some v /\ decode v = Ok (str p).
Proof.
  intros Hp. unfold Redis.value_matches. split.
  - destruct value as [[|b0 bs]|]; try discriminate.
    destruct (decode (b0 :: bs)) as [text| |] eqn:Hd; simpl; try discriminate.
    unfold codepoints_eqb. intros [= Heq%bool_decide_eq_true]. subst. eauto.
  - intros (v & -> & Hd). destruct v as [|b0 bs].
    + exfalso. vm_compute in Hd. injection Hd as Hd. symmetry in Hd.
      revert Hd. apply str_nonempty, Hp.
    + rewrite Hd. simpl. unfold codepoints_eqb. rewrite bool_decide_eq_true_2; auto.
Qed.

Lemma counter_text_ok counter_value text :
  Redis.counter_text counter_value = Ok text <->
  exists v, counter_value = Some v /\ decode v = Ok text.
Proof.
  unfold Redis.counter_text. split.
  - destruct counter_value; [eauto | discriminate].
  - intros (v & -> & Hd). exact Hd.
Qed.

Lemma redis_get_connection_keeps (w : Redis.state) :
  match Redis.get_connection w with
  | (r, w1, evs) =>
      Redis.key (self w1) = Redis.key (self w) /\
      Redis.payload (self w1) = Redis.payload (self w) /\
      Redis.check_interval (self w1) = Redis.check_interval (self w) /\
      metric_writes evs = [] /\
      match r with Err _ => False | _ => True end
  end.
Proof.
  destruct w as [b t].
  unfold Redis.get_connection, Redis.connect. unfold_monad. cbn.
  by_cases; auto.
Qed.

Lemma redis_exercise_success (w : Redis.state) n :
  Redis.payload (self w) <> "" ->
  reaches_exists w n ->
  exists we evs,
    Redis.exercise w = (Ok tt, we, evs) /\
    Redis.result (self we) = (n =? 0) /\
    Redis.check_interval (self we) = Redis.check_interval (self w) /\
    metric_writes evs = [].
Proof.
  intros Hp [c w1 evs s2 value s3 m s4 cv text s5 d1 s6 d2 s7 s8
               Hg Hset Hget Hdec Hincr Hcget Hcdec Hdel1 Hdel2 Hex].
  pose proof (redis_get_connection_keeps w) as Hk. rewrite Hg in Hk.
  destruct Hk as (Hkey & Hpay & Hint & Hmw & _).
  assert (Hvm : Redis.value_matches (Some value) (Redis.payload (self w)) = Ok true)
    by (apply value_matches_true; eauto).
  assert (Hct : Redis.counter_text (Some cv) = Ok text)
    by (apply counter_text_ok; eauto).
  destruct w1 as [b1 t1]; simpl in *.
  unfold Redis.exercise, try_except. unfold bind at 1. rewrite Hg.
  unfold_monad. cbn. rewrite Hkey, Hpay, Hset. cbn. rewrite Hget. cbn.
  rewrite Hvm. cbn. rewrite Hincr. cbn. rewrite Hcget. cbn. rewrite Hct. cbn.
  rewrite Hdel1. cbn. rewrite Hdel2. cbn. rewrite Hex. cbn.
  eexists _, _. split; [reflexivity|]. cbn.
  rewrite !metric_writes_app, Hmw. auto.
Qed.

Lemma redis_exercise_outcome (w : Redis.state) :
  Redis.payload (self w) <> "" ->
  match Redis.exercise w with
  | (Ok _, we, evs) =>
      (Redis.result (self we) = true -> all_substeps_succeed w) /\
      Redis.check_interval (self we) = Redis.check_interval (self w) /\
      metric_writes evs = []
  | (Err _, _, _) => False
  | (Block, _, evs) => metric_writes evs = []
  end.
Proof.
  intros Hp.
  pose proof (redis_get_connection_keeps w) as Hk.
  unfold Redis.exercise, try_except. unfold bind at 1.
  destruct (Redis.get_connection w) as [[[conn|e|] [b1 t1]] evg] eqn:Hg;
    destruct Hk as (Hkey & Hpay & Hint & Hmw & Hne); try contradiction;
    simpl in *; [|assumption].
  unfold attr_of, bind, ret, raise, emit, of_res, logger, emit, call, gets, update.
  cbn. rewrite Hkey, Hpay.
  repeat (case_match; cbn; simplify_eq).
  all: rewrite ?metric_writes_app, ?Hmw; repeat split; try done.
  intros Hz%Z.eqb_eq. subst.
  match goal with
  | Hv : Redis.value_matches _ _ = Ok true, Hc : Redis.counter_text _ = Ok _ |- _ =>
      apply value_matches_true in Hv as (v & -> & Hv); [|assumption];
      apply counter_text_ok in Hc as (cv & -> & Hc)
  end.
  cbn [srv self] in *.
  repeat match goal with u : unit |- _ => destruct u end.
  econstructor; eauto.
Qed.

Lemma redis_cycle_after_exercise (w : Redis.state) :
  match Redis.exercise w with
  | (Ok _, we, evs) =>
      metric_writes (Redis.cycle w).2
      = metric_writes evs ++ [if Redis.result (self we) then 1 else 0]
  | (Err e, we, evs) => Redis.cycle w = (Err e, we, evs)
  | (Block, we, evs) => Redis.cycle w = (Block, we, evs)
  end.
Proof.
  unfold Redis.cycle.
  destruct (Redis.exercise w) as [[[[]|e|] [b t]] evs] eqn:He;
    unfold bind at 1; rewrite He; try reflexivity.
  unfold bind, gets, emit. cbn -[sleep].
  sleep_cases; cbn; rewrite metric_writes_app; cbn; rewrite ?app_nil_r; reflexivity.
Qed.

(** C7. One iteration of the cache variant writes 1 to the gauge if and
    only if a connection is obtained and every sub-step succeeds in order:
    set the sentinel key, read it back equal to the payload, increment the
    counter (and read it back), delete both keys, and the existence check
    answers 0. When all the earlier sub-steps succeed and the check still
    finds the key (a delete that removed nothing), the iteration writes 0.
    No exception leaves the exercise: whenever it returns, the iteration
    writes 1 or 0; it writes nothing only while a library call never
    returns. *)
Theorem cache_exercise_succeeds_iff_every_substep_does (w : Redis.state) :
  Redis.payload (self w) <> "" ->
  (metric_writes (Redis.cycle w).2 = [1] <-> all_substeps_succeed w) /\
  (forall key_exists, reaches_exists w key_exists -> key_exists <> 0 ->
     metric_writes (Redis.cycle w).2 = [0]) /\
  match (Redis.exercise w).1.1 with
  | Ok _ => metric_writes (Redis.cycle w).2 = [1] \/ metric_writes (Redis.cycle w).2 = [0]
  | Err _ => False
  | Block => metric_writes (Redis.cycle w).2 = []
  end.
Proof.
  intros Hp.
  pose proof (redis_cycle_after_exercise w) as Hc.
  pose proof (redis_exercise_outcome w Hp) as Ho.
  assert (Hfwd : forall n, reaches_exists w n ->
            metric_writes (Redis.cycle w).2 = [if n =? 0 then 1 else 0]).
  { intros n Hn. destruct (redis_exercise_success w n Hp Hn) as (we & evs & He & Hr & _ & Hmw).
    rewrite He in Hc. rewrite Hc, Hmw, Hr. reflexivity. }
  repeat split.
  - intros Hone. destruct (Redis.exercise w) as [[[[]|e|] we] evs]; simpl in *.
    + destruct Ho as (Hall & _ & Hmw). rewrite Hc, Hmw in Hone. simpl in Hone.
      apply Hall. destruct (Redis.result (self we)); [reflexivity|discriminate].
    + contradiction.
    + rewrite Hc in Hone. simpl in Hone. rewrite Ho in Hone. discriminate.
  - intros Hall. apply (Hfwd 0 Hall).
  - intros n Hn Hnz. rewrite (Hfwd n Hn). destruct (Z.eqb_spec n 0); [contradiction|reflexivity].
  - destruct (Redis.exercise w) as [[[[]|e|] we] evs]; simpl in *.
    + destruct Ho as (_ & _ & Hmw). rewrite Hc, Hmw. simpl.
      destruct (Redis.result (self we)); auto.
    + contradiction.
    + rewrite Hc. simpl. exact Ho.
Qed.
End CacheExercise.

Lemma working_cache_reaches : all_substeps_succeed working_cache.
Proof. econstructor; vm_compute; reflexivity. Qed.

Lemma sticky_cache_reaches : reaches_exists sticky_cache 1.
Proof. econstructor; vm_compute; reflexivity. Qed.

Lemma cache_exercise_succeeds_iff_every_substep_does_witness :
  metric_writes (Redis.cycle working_cache).2 = [1] /\
  metric_writes (Redis.cycle sticky_cache).2 = [0].
Proof.
  split.
  - apply (proj1 (cache_exercise_succeeds_iff_every_substep_does working_cache
                    ltac:(discriminate))).
    apply working_cache_reaches.
  - apply (proj1 (proj2 (cache_exercise_succeeds_iff_every_substep_does sticky_cache
                           ltac:(discriminate))) 1).
    + apply sticky_cache_reaches.
    + discriminate.
Defined.

(** ** Startup: dispatch and the connection singletons *)

Import Main Startup Claims.

Lemma kind_eqb_eq a b : kind_eqb a b = true <-> a = b.
Proof. destruct a, b; simpl; split; congruence. Qed.

Lemma init_object_class k au f po o : init_object k au f po = Ok o -> class_of o = k.
Proof.
  unfold init_object, and_then.
  destruct k; repeat case_match; intros; simplify_eq; reflexivity.
Qed.

Lemma allocate_store k o P :
  store (length (heap P)) o (allocate k P) = with_instance k o P.
Proof.
  unfold store, allocate, with_instance; simpl. f_equal.
  rewrite insert_app_r_alt by lia. rewrite Nat.sub_diag. reflexivity.
Qed.

Lemma construct_cases k au f po P :
  construct k au f po P =
    match instance P k with
    | Some a => (Ok a, P, [])
    | None =>
        match init_object k au f po with
        | Ok o => (Ok (length (heap P)), with_instance k o P, [])
        | Err e => (Err e, allocate k P, [])
        | Block => (Block, allocate k P, [])
        end
    end.
Proof.
  unfold construct. unfold_monad. cbn.
  destruct (instance P k) as [a|]; [reflexivity|]. cbn.
  destruct (init_object k au f po) as [o|e|]; try reflexivity.
  cbn. rewrite allocate_store. reflexivity.
Qed.

Lemma create_monitoring_thread_cases name data P :
  create_monitoring_thread name data P =
    match data with
    | VDict kvs =>
        match resolve (field kvs "type") with
        | Ok k =>
            match construct k (field kvs "authentication") (field kvs "fqdn")
                    (field kvs "port") P with
            | (Ok a, P', _) =>
                (Ok (ProbeThread (probe_of name kvs k a)),
                 start (ProbeThread (probe_of name kvs k a)) P',
                 [ThreadStart name])
            | (Err e, P', _) => (Err e, P', [])
            | (Block, P', _) => (Block, P', [])
            end
        | Err e => (Err e, P, [])
        | Block => (Block, P, [])
        end
    | _ => (Err (Exn AttributeError "object has no attribute 'get'"), P, [])
    end.
Proof.
  destruct data as [| | | | |kvs]; try reflexivity.
  unfold create_monitoring_thread, resolve, and_then, field.
  unfold bind, of_res, emit, modify, ret. cbn [dict_get].
  destruct (import_module _) as [m|e|]; try reflexivity.
  destruct (test_class m) as [k|e|]; try reflexivity.
  rewrite construct_cases.
  destruct (instance P k) as [a|]; [reflexivity|].
  destruct (init_object k _ _ _) as [o|e|]; reflexivity.
Qed.

Lemma probes_app ts us : probes (ts ++ us) = probes ts ++ probes us.
Proof. induction ts as [|[] ts IH]; simpl; congruence. Qed.

Lemma well_formed_initial : well_formed (start CensusThread initial).
Proof. split; simpl; [discriminate | intros q Hq; inversion Hq]. Qed.

Lemma well_formed_allocate k P :
  instance P k = None -> well_formed P -> well_formed (allocate k P).
Proof.
  intros Hnone [Hclass Hprobe]. split; simpl.
  - intros k' a. destruct (kind_eqb k k') eqn:Hk.
    + apply kind_eqb_eq in Hk as <-. intros [= <-].
      exists (Partial k). split; [|reflexivity].
      rewrite lookup_app_r by lia. rewrite Nat.sub_diag. reflexivity.
    + intros Ha. destruct (Hclass k' a Ha) as (o & Ho & Hc).
      exists o. split; [|exact Hc]. apply lookup_app_l_Some, Ho.
  - intros q Hq. destruct (kind_eqb k (kind_of q)) eqn:Hk.
    + apply kind_eqb_eq in Hk as ->. rewrite (Hprobe q Hq) in Hnone. discriminate.
    + apply Hprobe, Hq.
Qed.

Lemma well_formed_with_instance k o P :
  instance P k = None -> class_of o = k -> well_formed P ->
  well_formed (with_instance k o P).
Proof.
  intros Hnone Ho [Hclass Hprobe]. split; simpl.
  - intros k' a. destruct (kind_eqb k k') eqn:Hk.
    + apply kind_eqb_eq in Hk as <-. intros [= <-].
      exists o. split; [|exact Ho].
      rewrite lookup_app_r by lia. rewrite Nat.sub_diag. reflexivity.
    + intros Ha. destruct (Hclass k' a Ha) as (o' & Ho' & Hc).
      exists o'. split; [|exact Hc]. apply lookup_app_l_Some, Ho'.
  - intros q Hq. destruct (kind_eqb k (kind_of q)) eqn:Hk.
    + apply kind_eqb_eq in Hk as ->. rewrite (Hprobe q Hq) in Hnone. discriminate.
    + apply Hprobe, Hq.
Qed.

Lemma well_formed_start p P :
  instance P (kind_of p) = Some (driver p) -> well_formed P ->
  well_formed (start (ProbeThread p) P).
Proof.
  intros Hp [Hclass Hprobe]. split; simpl.
  - exact Hclass.
  - intros q. rewrite probes_app. simpl. intros [Hq|Hq%list_elem_of_singleton]%elem_of_app.
    + apply Hprobe, Hq.
    + subst. exact Hp.
Qed.

Lemma well_formed_construct k au f po P :
  well_formed P ->
  match construct k au f po P with
  | (r, P', _) =>
      well_formed P' /\ threads P' = threads P /\
      forall a, r = Ok a -> instance P' k = Some a
  end.
Proof.
  intros Hwf. rewrite construct_cases.
  destruct (instance P k) as [a|] eqn:Hk.
  - split; [exact Hwf|]. split; [reflexivity | congruence].
  - destruct (init_object k au f po) as [o|e|] eqn:Ho.
    + split; [apply well_formed_with_instance; eauto using init_object_class|].
      split; [reflexivity|].
      intros a [= <-]. simpl.
      destruct (kind_eqb k k) eqn:Hkk; [reflexivity|].
      assert (kind_eqb k k = true) by (apply kind_eqb_eq; reflexivity). congruence.
    + split; [apply well_formed_allocate; assumption|].
      split; [reflexivity | discriminate].
    + split; [apply well_formed_allocate; assumption|].
      split; [reflexivity | discriminate].
Qed.

(** What starting one service does to the process. *)
Lemma create_monitoring_thread_effect name data P :
  well_formed P ->
  match create_monitoring_thread name data P with
  | (Ok t, P', _) =>
      well_formed P' /\
      exists p, t = ProbeThread p /\ service p = name /\ threads P' = threads P ++ [t]
  | (_, P', _) => well_formed P' /\ threads P' = threads P
  end.
Proof.
  intros Hwf. rewrite create_monitoring_thread_cases.
  destruct data as [| | | | |kvs]; try (split; [exact Hwf | reflexivity]).
  destruct (resolve _) as [k|e|]; try (split; [exact Hwf | reflexivity]).
  pose proof (well_formed_construct k (field kvs "authentication") (field kvs "fqdn")
                (field kvs "port") P Hwf) as Hc.
  destruct (construct k _ _ _ P) as [[[a|e|] P'] ev]; destruct Hc as (Hwf' & Hth & Hinst);
    try (split; assumption).
  split.
  - apply well_formed_start; [|exact Hwf']. simpl. apply Hinst. reflexivity.
  - eexists. split; [reflexivity|]. split; [reflexivity|]. simpl. rewrite Hth. reflexivity.
Qed.

Lemma start_services_effect kvs P :
  well_formed P ->
  match start_services kvs P with
  | (r, P', _) =>
      well_formed P' /\
      forall pool, r = Ok pool ->
        threads P' = threads P ++ pool /\ map service (probes pool) = map fst kvs
  end.
Proof.
  revert P. induction kvs as [|[name data] kvs IH]; intros P Hwf; simpl.
  - split; [exact Hwf|]. intros pool [= <-]. rewrite app_nil_r. auto.
  - unfold bind at 1.
    pose proof (create_monitoring_thread_effect name data P Hwf) as Hc.
    destruct (create_monitoring_thread name data P) as [[[t|e|] P1] ev1].
    + destruct Hc as (Hwf1 & p & -> & Hname & Hth).
      unfold bind at 1. specialize (IH P1 Hwf1).
      destruct (start_services kvs P1) as [[[pool|e|] P2] ev2]; simpl;
        destruct IH as (Hwf2 & Hpool); (split; [exact Hwf2|]); try discriminate.
      intros pool' [= <-]. destruct (Hpool pool eq_refl) as (Hth2 & Hnames).
      split.
      * rewrite Hth2, Hth, <- app_assoc. reflexivity.
      * simpl. rewrite Hname, Hnames. reflexivity.
    + destruct Hc. split; [assumption | discriminate].
    + destruct Hc. split; [assumption | discriminate].
Qed.

Lemma services_keeps_state {S} env (s : S) : (Config.services env s).1.2 = s.
Proof.
  unfold Config.services, Config.conf. unfold_monad. cbn.
  by_cases; reflexivity.
Qed.

Lemma trigger_monitoring_cases env :
  Main.trigger_monitoring env initial =
    match Config.services env initial with
    | (Ok services, _, ev0) =>
        match items services with
        | Ok kvs =>
            match start_services kvs (start CensusThread initial) with
            | (Ok pool, P, ev1) =>
                (Ok (CensusThread :: pool), P,
                 ev0 ++ ThreadStart "monitor_active_thread_count" :: ev1)
            | (Err e, P, ev1) =>
                (Err e, P, ev0 ++ ThreadStart "monitor_active_thread_count" :: ev1)
            | (Block, P, ev1) =>
                (Block, P, ev0 ++ ThreadStart "monitor_active_thread_count" :: ev1)
            end
        | Err e =>
            (Err e, start CensusThread initial,
             ev0 ++ [ThreadStart "monitor_active_thread_count"])
        | Block =>
            (Block, start CensusThread initial,
             ev0 ++ [ThreadStart "monitor_active_thread_count"])
        end
    | (Err e, _, ev0) => (Err e, initial, ev0)
    | (Block, _, ev0) => (Block, initial, ev0)
    end.
Proof.
  unfold trigger_monitoring. unfold bind at 1.
  pose proof (services_keeps_state env initial) as Hs.
  destruct (Config.services env initial) as [[[sv|e|] s] ev0]; simpl in Hs; subst;
    try reflexivity.
  unfold bind, emit, modify, of_res, ret. cbn.
  destruct (items sv) as [kvs|e|]; cbn; try reflexivity.
  destruct (start_services kvs _) as [[[pool|e|] P] ev1]; cbn;
    rewrite ?app_nil_r; reflexivity.
Qed.

Lemma trigger_monitoring_well_formed env :
  well_formed (Main.trigger_monitoring env initial).1.2.
Proof.
  rewrite trigger_monitoring_cases.
  destruct (Config.services env initial) as [[[sv|e|] s] ev0]; simpl;
    try (split; simpl; [discriminate | intros q Hq; inversion Hq]).
  destruct (items sv) as [kvs|e|]; simpl; try apply well_formed_initial.
  pose proof (start_services_effect kvs _ well_formed_initial) as Hs.
  destruct (start_services kvs _) as [[[pool|e|] P] ev1]; simpl; apply Hs.
Qed.

Lemma start_services_stops pre name data post P pool P1 ev1 e :
  start_services pre P = (Ok pool, P1, ev1) ->
  create_monitoring_thread name data P1 = (Err e, P1, []) ->
  start_services (pre ++ (name, data) :: post) P = (Err e, P1, ev1).
Proof.
  revert P pool ev1. induction pre as [|[n d] pre IH]; intros P pool ev1 Hpre Hbad; simpl in *.
  - injection Hpre as <- <- <-. unfold bind at 1. rewrite Hbad. reflexivity.
  - unfold bind at 1 in Hpre. unfold bind at 1.
    destruct (create_monitoring_thread n d P) as [[[t|e'|] P0] ev0]; try discriminate.
    unfold bind at 1 in Hpre. unfold bind at 1.
    destruct (start_services pre P0) as [[[pool0|e'|] P2] ev2] eqn:Hrest; try discriminate.
    simpl in Hpre. injection Hpre as <- <- <-.
    rewrite (IH P0 pool0 ev2 Hrest Hbad). rewrite app_nil_r. reflexivity.
Qed.

Lemma resolve_error ty e :
  resolve ty = Err e ->
  exn_class_of e = ModuleNotFoundError \/ exn_class_of e = AttributeError.
Proof.
  unfold resolve, and_then, import_module, test_class.
  repeat case_match; intros; simplify_eq; auto.
Qed.

(** C3, as the code has it. When the first service that cannot be started
    is one whose declared type does not resolve to a probe class, the
    exception of the failed import or attribute lookup (ModuleNotFoundError
    or AttributeError; there is no ConfigurationError) leaves
    [trigger_monitoring]. The census thread and the probes of the services
    configured before it have been started; the offending service and every
    service configured after it are not started. *)
Theorem unresolved_type_stops_startup env pre name kvs post e ev0 pool P1 ev1 :
  Config.services env initial
    = (Ok (VDict (pre ++ (name, VDict kvs) :: post)), initial, ev0) ->
  resolve (field kvs "type") = Err e ->
  start_services pre (start CensusThread initial) = (Ok pool, P1, ev1) ->
  trigger_monitoring env initial
    = (Err e, P1, ev0 ++ ThreadStart "monitor_active_thread_count" :: ev1) /\
  (exn_class_of e = ModuleNotFoundError \/ exn_class_of e = AttributeError) /\
  threads P1 = CensusThread :: pool /\
  map service (probes (threads P1)) = map fst pre.
Proof.
  intros Hcfg Hres Hpre.
  assert (Hbad : create_monitoring_thread name (VDict kvs) P1 = (Err e, P1, [])).
  { rewrite create_monitoring_thread_cases, Hres. reflexivity. }
  split.
  { rewrite trigger_monitoring_cases, Hcfg. simpl.
    rewrite (start_services_stops pre name (VDict kvs) post _ pool P1 ev1 e Hpre Hbad).
    reflexivity. }
  split; [exact (resolve_error _ _ Hres)|].
  pose proof (start_services_effect pre _ well_formed_initial) as Heff.
  rewrite Hpre in Heff. destruct Heff as (_ & Heff).
  destruct (Heff pool eq_refl) as (Hth & Hnames).
  split; [exact Hth|]. rewrite Hth. simpl. exact Hnames.
Qed.

Lemma unresolved_type_stops_startup_witness :
  let pre := [("cache1", service_entry "redis" "cache1.internal" 6379 (VInt 0))] in
  let e := Exn ModuleNotFoundError "No module named 'src.mongodb'" in
  let pool :=
    [ProbeThread (probe_of "cache1" (entry_fields "redis" "cache1.internal" 6379 (VInt 0))
                    KRedis 0)] in
  let P1 := (start_services pre (start CensusThread initial)).1.2 in
  trigger_monitoring unknown_type_between initial
    = (Err e, P1,
       (Config.services unknown_type_between initial).2
       ++ ThreadStart "monitor_active_thread_count" :: [ThreadStart "cache1"]) /\
  (exn_class_of e = ModuleNotFoundError \/ exn_class_of e = AttributeError) /\
  threads P1 = CensusThread :: pool /\
  map service (probes (threads P1)) = map fst pre.
Proof.
  apply (unresolved_type_stops_startup unknown_type_between
           [("cache1", service_entry "redis" "cache1.internal" 6379 (VInt 0))]
           "legacy" (entry_fields "mongodb" "legacy.internal" 27017 VNone)
           [("db1", service_entry "mysql" "db1.internal" 3306 (VStr "health"))]);
    reflexivity.
Defined.

(** C3 does not hold as stated: a well-formed service configured after one
    of an unknown type is never started. *)
Lemma later_service_is_not_started : ~ unresolved_type_is_isolated unknown_type_between.
Proof.
  intros Hclaim.
  specialize (Hclaim
    [("cache1", service_entry "redis" "cache1.internal" 6379 (VInt 0))]
    "legacy" (entry_fields "mongodb" "legacy.internal" 27017 VNone)
    [("db1", service_entry "mysql" "db1.internal" 3306 (VStr "health"))]
    (Exn ModuleNotFoundError "No module named 'src.mongodb'")
    eq_refl eq_refl
    "db1" (entry_fields "mysql" "db1.internal" 3306 (VStr "health")) KMySQL).
  assert (Hrun :
    map service (probes (threads (trigger_monitoring unknown_type_between initial).1.2))
    = ["cache1"]) by reflexivity.
  rewrite Hrun in Hclaim.
  apply list_elem_of_singleton in Hclaim; [discriminate| |reflexivity].
  apply elem_of_app. right. apply list_elem_of_singleton. reflexivity.
Qed.

(** C2, as the code has it. Each connection class keeps one instance for
    the whole process. After startup, two probes are bound to the same
    connection object exactly when their services have the same type. A
    service whose class already has an instance is bound to that instance,
    and nothing is constructed from its own fqdn, port and credentials; a
    service whose class has none yet is bound to a new object built from its
    own fqdn, port and credentials. *)
Theorem one_driver_instance_per_class :
  (forall env p q,
      p ∈ probes (threads (trigger_monitoring env initial).1.2) ->
      q ∈ probes (threads (trigger_monitoring env initial).1.2) ->
      (driver p = driver q <-> kind_of p = kind_of q)) /\
  (forall name kvs P k a,
      resolve (field kvs "type") = Ok k ->
      instance P k = Some a ->
      create_monitoring_thread name (VDict kvs) P
      = (Ok (ProbeThread (probe_of name kvs k a)),
         start (ProbeThread (probe_of name kvs k a)) P,
         [ThreadStart name])) /\
  (forall name kvs P k o,
      resolve (field kvs "type") = Ok k ->
      instance P k = None ->
      init_object k (field kvs "authentication") (field kvs "fqdn") (field kvs "port")
        = Ok o ->
      create_monitoring_thread name (VDict kvs) P
      = (Ok (ProbeThread (probe_of name kvs k (length (heap P)))),
         start (ProbeThread (probe_of name kvs k (length (heap P)))) (with_instance k o P),
         [ThreadStart name])).
Proof.
  split; [|split].
  - intros env p q Hp Hq.
    destruct (trigger_monitoring_well_formed env) as [Hclass Hprobe].
    pose proof (Hprobe p Hp) as Hip. pose proof (Hprobe q Hq) as Hiq.
    split.
    + intros Hd.
      destruct (Hclass _ _ Hip) as (o & Ho & <-).
      destruct (Hclass _ _ Hiq) as (o' & Ho' & <-).
      rewrite Hd in Ho. congruence.
    + intros Hk. rewrite Hk in Hip. congruence.
  - intros name kvs P k a Hres Hinst.
    rewrite create_monitoring_thread_cases, Hres, construct_cases, Hinst. reflexivity.
  - intros name kvs P k o Hres Hinst Hinit.
    rewrite create_monitoring_thread_cases, Hres, construct_cases, Hinst, Hinit. reflexivity.
Qed.

Lemma one_driver_instance_per_class_witness :
  driver db1_probe = driver db2_probe <-> kind_of db1_probe = kind_of db2_probe.
Proof.
  apply (proj1 one_driver_instance_per_class two_mysql).
  - apply list_elem_of_here.
  - apply list_elem_of_further, list_elem_of_here.
Defined.

(** C2 does not hold as stated: two MySQL services are bound to one
    connection object, the one built for the first of them. *)
Lemma same_type_services_share_one_driver :
  ~ one_driver_per_service (trigger_monitoring two_mysql initial).1.2 /\
  probes (threads (trigger_monitoring two_mysql initial).1.2) = [db1_probe; db2_probe] /\
  object_target <$> heap (trigger_monitoring two_mysql initial).1.2 !! driver db2_probe
  = Some (Some (VStr "db1.internal", VInt 3306)).
Proof.
  split; [|split; reflexivity].
  intros Hclaim.
  destruct (Hclaim 0%nat 1%nat db1_probe db2_probe) as (Hneq & _); try reflexivity.
  - discriminate.
  - apply Hneq. reflexivity.
Qed.

(** * The loops, startup and the formatter in more detail *)

Import LoopSpec QuerySpec BrokerSpec Scenarios StartupSpec EntrySpec.

(** ** Invariants and events together *)

Section Triple.
Context {S : Type} (I : S -> Prop) (P : event -> Prop).

Lemma triple_bind {A C} (Q : A -> Prop) (Q' : C -> Prop) (m : M S A) (f : A -> M S C) :
  triple I P Q m -> (forall a, Q a -> triple I P Q' (f a)) -> triple I P Q' (bind m f).
Proof.
  intros Hm Hf s Hs. unfold bind. destruct (Hm s Hs) as (Hs1 & Hev1 & Hq).
  destruct (m s) as [[[a|e|] s1] ev1]; simpl in *.
  - destruct (Hf a (Hq a eq_refl) s1 Hs1) as (Hs2 & Hev2 & Hq2).
    destruct (f a s1) as [[r s2] ev2]; simpl in *.
    split; [assumption|]. split; [apply Forall_app; split; assumption | assumption].
  - split; [assumption|]. split; [assumption | discriminate].
  - split; [assumption|]. split; [assumption | discriminate].
Qed.

Lemma triple_try_except {A} (Q : A -> Prop) (m : M S A) catches (handler : exn -> M S A) :
  triple I P Q m -> (forall e, triple I P Q (handler e)) ->
  triple I P Q (try_except m catches handler).
Proof.
  intros Hm Hh s Hs. unfold try_except. destruct (Hm s Hs) as (Hs1 & Hev1 & Hq).
  destruct (m s) as [[[a|e|] s1] ev1]; simpl in *.
  - split; [assumption|]. split; assumption.
  - destruct (catches e); simpl.
    + destruct (Hh e s1 Hs1) as (Hs2 & Hev2 & Hq2).
      destruct (handler e s1) as [[r s2] ev2]; simpl in *.
      split; [assumption|]. split; [apply Forall_app; split; assumption | assumption].
    + split; [assumption|]. split; [assumption | discriminate].
  - split; [assumption|]. split; [assumption | discriminate].
Qed.

(** What holds of every state and what holds of every event, put together. *)
Lemma triple_of {A} (m : M S A) :
  steady I m -> emits_only P m -> triple I P (fun _ => True) m.
Proof. intros Hs He s Hi. split; [apply Hs, Hi|]. split; [apply He | auto]. Qed.

Lemma triple_while_loop {Q : unit -> Prop} cond (body : M S unit) fuel s :
  triple I P Q body -> I s ->
  I (while_loop cond body fuel s).1.2 /\ Forall P (while_loop cond body fuel s).2.
Proof.
  intros Hb. revert s. induction fuel as [|n IH]; intros s Hs; simpl.
  - split; [assumption | constructor].
  - destruct (cond s); [|split; [assumption | constructor]].
    destruct (Hb s Hs) as (Hs1 & Hev1 & _).
    destruct (body s) as [[[a|e|] s1] ev1]; simpl in *; try (split; assumption).
    destruct (IH s1 Hs1) as (Hs2 & Hev2).
    destruct (while_loop cond body n s1) as [[st s2] ev2]; simpl in *.
    split; [assumption | apply Forall_app; split; assumption].
Qed.

(** A loop whose condition holds wherever the invariant does never ends
    because of its condition. *)
Lemma steady_while_loop_not_stopped cond (body : M S unit) fuel s :
  steady I body -> (forall s, I s -> cond s = true) -> I s ->
  stopped (while_loop cond body fuel s).1.1 = false.
Proof.
  intros Hb Hcond. revert s. induction fuel as [|n IH]; intros s Hs; simpl.
  - reflexivity.
  - rewrite (Hcond s Hs). pose proof (Hb s Hs) as Hs1.
    destruct (body s) as [[[a|e|] s1] ev1]; simpl in *; try reflexivity.
    specialize (IH s1 Hs1).
    destruct (while_loop cond body n s1) as [[st s2] ev2]; simpl in *. exact IH.
Qed.

End Triple.

(** [ret a] in front changes nothing. *)
Lemma emits_bind_ret {S A C} P (a : A) (f : A -> M S C) :
  emits_only P (f a) -> emits_only P (bind (ret a) f).
Proof.
  intros Hf s. unfold bind, ret. specialize (Hf s).
  destruct (f a s) as [[r s2] ev2]; simpl in *. exact Hf.
Qed.

Lemma steady_bind_ret {S A C} (I : S -> Prop) (a : A) (f : A -> M S C) :
  steady I (f a) -> steady I (bind (ret a) f).
Proof.
  intros Hf s Hs. unfold bind, ret. specialize (Hf s Hs).
  destruct (f a s) as [[r s2] ev2]; simpl in *. exact Hf.
Qed.

Lemma stays_on_connects c evs : Forall (stays_on c) evs -> connects evs = [].
Proof.
  induction 1 as [|ev evs Hev _ IH]; [reflexivity|].
  destruct ev; simpl in *; try assumption. contradiction.
Qed.

Lemma stays_on_cursors c evs : Forall (stays_on c) evs -> Forall (eq c) (cursors evs).
Proof.
  induction 1 as [|ev evs Hev _ IH]; [constructor|].
  destruct ev; simpl in *; try assumption. constructor; [congruence | assumption].
Qed.

(** ** Once cached, never replaced *)

Section NoReconnect.

Lemma postgresql_cycle_stays {B} `{SqlServer B} c :
  triple (on_self (fun t => PostgreSQL.connection (PostgreSQL.postgresql_connection t) = Some c))
    (stays_on c) (fun _ => True) PostgreSQL.cycle.
Proof.
  set (J := fun t => PostgreSQL.connection (PostgreSQL.postgresql_connection t) = Some c).
  unfold PostgreSQL.cycle.
  apply (triple_bind _ _ (fun _ => True)); [|intros _ _; apply triple_of].
  - unfold PostgreSQL.probe.
    apply triple_try_except; [|intros e; apply triple_of].
    + apply (triple_bind _ _ (fun conn => conn = Some c)).
      * intros [b t] Ht. unfold on_self, J in Ht. simpl in Ht.
        unfold PostgreSQL.get_connection. unfold_monad. cbn. rewrite Ht. cbn.
        split; [exact Ht|]. split; [repeat constructor | congruence].
      * intros conn ->. unfold PostgreSQL.select_one. cbn [attr_of].
        apply triple_of.
        -- apply steady_bind_ret. repeat steady_step.
        -- apply emits_bind_ret. emits; simpl; auto.
    + repeat steady_step.
    + emits; simpl; auto.
  - repeat steady_step.
  - emits; simpl; auto.
Qed.


Lemma redis_cycle_stays {B} `{RedisServer B} c :
  triple (on_self (fun t => Redis.connection (Redis.redis_connection t) = Some c))
    (stays_on c) (fun _ => True) Redis.cycle.
Proof.
  unfold Redis.cycle.
  apply (triple_bind _ _ (fun _ => True)); [|intros _ _; apply triple_of].
  - unfold Redis.exercise.
    apply triple_try_except; [|intros e; apply triple_of].
    + apply (triple_bind _ _ (fun conn => conn = Some c)).
      * intros [b t] Ht. unfold on_self in Ht. simpl in Ht.
        unfold Redis.get_connection. unfold_monad. cbn. rewrite Ht. cbn.
        split; [exact Ht|]. split; [repeat constructor | congruence].
      * intros conn ->. cbn [attr_of].
        apply triple_of.
        -- do 2 (apply steady_bind; [apply safe_steady, safe_gets|intros ?]).
           apply steady_bind_ret. repeat steady_step.
        -- do 2 (apply emits_bind; [solve [eauto with emits]|intros ?]).
           apply emits_bind_ret. emits; simpl; auto.
    + repeat steady_step.
    + emits; simpl; auto.
  - repeat steady_step.
  - emits; simpl; auto.
Qed.

End NoReconnect.

(** The loop among other threads, when the others keep the invariant. *)
Lemma triple_while_loop_among {S} (I : S -> Prop) (P : event -> Prop)
    {Q : unit -> Prop} others cond (body : M S unit) fuel s :
  triple I P Q body -> (forall k s, I s -> I (others k s)) -> I s ->
  I (while_loop_among others cond body fuel s).1.2 /\
  Forall P (while_loop_among others cond body fuel s).2.
Proof.
  intros Hb Hothers. revert s. induction fuel as [|n IH]; intros s Hs; simpl.
  - split; [assumption | constructor].
  - pose proof (Hothers n s Hs) as Hs'.
    destruct (cond (others n s)); [|split; [assumption | constructor]].
    destruct (Hb _ Hs') as (Hs1 & Hev1 & _).
    destruct (body (others n s)) as [[[a|e|] s1] ev1]; simpl in *; try (split; assumption).
    destruct (IH s1 Hs1) as (Hs2 & Hev2).
    destruct (while_loop_among others cond body n s1) as [[st s2] ev2]; simpl in *.
    split; [assumption | apply Forall_app; split; assumption].
Qed.

Lemma while_loop_alone {S} cond (body : M S unit) fuel s :
  while_loop_among (fun _ s => s) cond body fuel s = while_loop cond body fuel s.
Proof.
  revert s. induction fuel as [|n IH]; intros s; simpl; [reflexivity|].
  destruct (cond s); [|reflexivity].
  destruct (body s) as [[[a|e|] s1] ev1]; try reflexivity.
  rewrite IH. reflexivity.
Qed.

(** From "the cached connection is [c]" to "a connection is cached". *)
Lemma triple_cached {S} (cached : S -> option handle) (body : M S unit) :
  (forall c, triple (fun s => cached s = Some c) (stays_on c) (fun _ => True) body) ->
  triple (fun s => is_Some (cached s)) (fun ev => exists c, stays_on c ev) (fun _ => True) body.
Proof.
  intros Hb s [c Hc]. destruct (Hb c s Hc) as (Hkeep & Hev & _).
  split; [exists c; exact Hkeep|]. split; [|auto].
  eapply Forall_impl; [exact Hev|]. intros ev Hstay. exists c. exact Hstay.
Qed.

Lemma no_connect_among evs : Forall (fun ev => exists c, stays_on c ev) evs -> connects evs = [].
Proof.
  induction 1 as [|ev evs [c Hev] _ IH]; [reflexivity|].
  destruct ev; simpl in *; try assumption. contradiction.
Qed.

(** In the PostgreSQL and Redis variants there is no reconnecting. An
    iteration that finds a connection cached issues no library connect call
    and runs its query (its cache commands) on the connection it found. And
    once a connection is cached in the connection object, the probe loop
    never issues a library connect call again, whatever the backend answers,
    however long the loop runs, and whatever the probes of the other
    services of the same type do to the object they share with it between
    its iterations: they can replace the cached connection and cannot unset
    it. (What one call of [get_connection] reads of the object is taken as
    one step.) *)
Theorem cached_connection_is_never_reconnected :
  (forall B (server : SqlServer B) (w : PostgreSQL.state) c,
      PostgreSQL.connection (PostgreSQL.postgresql_connection (self w)) = Some c ->
      Forall (stays_on c) (PostgreSQL.cycle w).2) /\
  (forall B (server : SqlServer B) others fuel (w : PostgreSQL.state),
      never_unset
        (fun w => PostgreSQL.connection (PostgreSQL.postgresql_connection (self w))) others ->
      is_Some (PostgreSQL.connection (PostgreSQL.postgresql_connection (self w))) ->
      let run :=
        while_loop_among others (fun w => negb (PostgreSQL.stop_event (self w)))
          PostgreSQL.cycle fuel w in
      connects run.2 = [] /\
      is_Some (PostgreSQL.connection (PostgreSQL.postgresql_connection (self run.1.2)))) /\
  (forall B (server : RedisServer B) (w : Redis.state) c,
      Redis.connection (Redis.redis_connection (self w)) = Some c ->
      Forall (stays_on c) (Redis.cycle w).2) /\
  (forall B (server : RedisServer B) others fuel (w : Redis.state),
      never_unset (fun w => Redis.connection (Redis.redis_connection (self w))) others ->
      is_Some (Redis.connection (Redis.redis_connection (self w))) ->
      let run :=
        while_loop_among others (fun w => negb (Redis.stop_event (self w)))
          Redis.cycle fuel w in
      connects run.2 = [] /\
      is_Some (Redis.connection (Redis.redis_connection (self run.1.2)))).
Proof.
  split; [|split; [|split]].
  - intros B server w c Hc. exact (proj1 (proj2 (postgresql_cycle_stays c w Hc))).
  - intros B server others fuel w Hothers Hw. cbv zeta.
    destruct (triple_while_loop_among
                (fun w => is_Some (PostgreSQL.connection
                                      (PostgreSQL.postgresql_connection (self w))))
                _ others (fun w => negb (PostgreSQL.stop_event (self w)))
                PostgreSQL.cycle fuel w
                (triple_cached _ _ (fun c => postgresql_cycle_stays c)) Hothers Hw)
      as (Hkeep & Hev).
    split; [exact (no_connect_among _ Hev) | exact Hkeep].
  - intros B server w c Hc. exact (proj1 (proj2 (redis_cycle_stays c w Hc))).
  - intros B server others fuel w Hothers Hw. cbv zeta.
    destruct (triple_while_loop_among
                (fun w => is_Some (Redis.connection (Redis.redis_connection (self w))))
                _ others (fun w => negb (Redis.stop_event (self w)))
                Redis.cycle fuel w
                (triple_cached _ _ (fun c => redis_cycle_stays c)) Hothers Hw)
      as (Hkeep & Hev).
    split; [exact (no_connect_among _ Hev) | exact Hkeep].
Qed.

Lemma cached_connection_is_never_reconnected_witness :
  let run :=
    while_loop_among busy_neighbour (fun w => negb (PostgreSQL.stop_event (self w)))
      PostgreSQL.cycle 4 closed_postgresql in
  connects run.2 = [] /\
  is_Some (PostgreSQL.connection (PostgreSQL.postgresql_connection (self run.1.2))).
Proof.
  apply (proj1 (proj2 cached_connection_is_never_reconnected) Mock.script Mock.script_sql
           busy_neighbour 4%nat closed_postgresql).
  - intros k w _. eexists. reflexivity.
  - eexists. reflexivity.
Defined.

(** ** The stop event *)

Section StopEvent.

Lemma mysql_cycle_keeps_running {B} `{SqlServer B} :
  steady (on_self (fun t => MySQL.stop_event t = false)) MySQL.cycle.
Proof.
  unfold MySQL.cycle, MySQL.probe, MySQL.select_one, MySQL.get_connection, MySQL.connect.
  repeat steady_step.
Qed.

Lemma postgresql_cycle_keeps_running {B} `{SqlServer B} :
  steady (on_self (fun t => PostgreSQL.stop_event t = false)) PostgreSQL.cycle.
Proof.
  unfold PostgreSQL.cycle, PostgreSQL.probe, PostgreSQL.select_one,
    PostgreSQL.get_connection, PostgreSQL.connect.
  repeat steady_step.
Qed.

Lemma redis_cycle_keeps_running {B} `{RedisServer B} :
  steady (on_self (fun t => Redis.stop_event t = false)) Redis.cycle.
Proof.
  unfold Redis.cycle, Redis.exercise, Redis.get_connection, Redis.connect.
  repeat steady_step.
Qed.

Lemma rabbitmq_get_connection_keeps_running {B} `{AmqpServer B} :
  steady (on_self (fun t => RabbitMQ.stop_event t = false)) RabbitMQ.get_connection.
Proof.
  unfold RabbitMQ.get_connection, RabbitMQ.connect.
  repeat steady_step.
Qed.

Lemma rabbitmq_send_cycle_keeps_running {B} `{AmqpServer B} :
  steady (on_self (fun t => RabbitMQ.stop_event t = false)) RabbitMQ.send_cycle.
Proof.
  pose proof rabbitmq_get_connection_keeps_running.
  unfold RabbitMQ.send_cycle.
  repeat steady_step.
Qed.

Lemma start_consuming_keeps_running {B} `{AmqpServer B} channel :
  steady (on_self (fun t => RabbitMQ.stop_event t = false))
    (RabbitMQ.start_consuming channel).
Proof.
  intros w Hw. unfold RabbitMQ.start_consuming.
  destruct (amqp_start_consuming channel (srv w)) as [[bodies r] b]. exact Hw.
Qed.

Lemma rabbitmq_read_cycle_keeps_running {B} `{AmqpServer B} :
  steady (on_self (fun t => RabbitMQ.stop_event t = false)) RabbitMQ.read_cycle.
Proof.
  pose proof rabbitmq_get_connection_keeps_running.
  pose proof start_consuming_keeps_running.
  unfold RabbitMQ.read_cycle.
  repeat steady_step.
Qed.

End StopEvent.

(** A probe loop ends as stopped only through its stop event. After
    [stop_threads], the loop does nothing more: at its next check of the
    event it ends without a library call, a gauge write or a sleep. Started
    with the event clear, no loop of any variant ever sets it: the loop never
    ends as stopped, however long it runs. *)
Theorem stop_event_is_the_only_way_to_stop :
  (forall B (server : SqlServer B) fuel (w : MySQL.state),
      MySQL.query_check (S fuel) (World (srv w) (MySQL.stop_threads (self w)))
      = (Stopped, World (srv w) (MySQL.stop_threads (self w)), []) /\
      (MySQL.stop_event (self w) = false ->
       stopped (MySQL.query_check fuel w).1.1 = false)) /\
  (forall B (server : SqlServer B) fuel (w : PostgreSQL.state),
      PostgreSQL.query_check (S fuel) (World (srv w) (PostgreSQL.stop_threads (self w)))
      = (Stopped, World (srv w) (PostgreSQL.stop_threads (self w)), []) /\
      (PostgreSQL.stop_event (self w) = false ->
       stopped (PostgreSQL.query_check fuel w).1.1 = false)) /\
  (forall B (server : RedisServer B) fuel (w : Redis.state),
      Redis.test_redis (S fuel) (World (srv w) (Redis.stop_threads (self w)))
      = (Stopped, World (srv w) (Redis.stop_threads (self w)), []) /\
      (Redis.stop_event (self w) = false ->
       stopped (Redis.test_redis fuel w).1.1 = false)) /\
  (forall B (server : AmqpServer B) fuel (w : RabbitMQ.state),
      RabbitMQ.send_message_test (S fuel) (World (srv w) (RabbitMQ.stop_threads (self w)))
      = (Stopped, World (srv w) (RabbitMQ.stop_threads (self w)), []) /\
      RabbitMQ.read_message_test (S fuel) (World (srv w) (RabbitMQ.stop_threads (self w)))
      = (Stopped, World (srv w) (RabbitMQ.stop_threads (self w)), []) /\
      (RabbitMQ.stop_event (self w) = false ->
       stopped (RabbitMQ.send_message_test fuel w).1.1 = false /\
       stopped (RabbitMQ.read_message_test fuel w).1.1 = false)).
Proof.
  split; [|split; [|split]]; intros B server fuel w.
  - split; [reflexivity|]. intros Hw.
    apply (steady_while_loop_not_stopped _ _ _ _ _ mysql_cycle_keeps_running); [|exact Hw].
    intros s Hs. unfold on_self in Hs. rewrite Hs. reflexivity.
  - split; [reflexivity|]. intros Hw.
    apply (steady_while_loop_not_stopped _ _ _ _ _ postgresql_cycle_keeps_running);
      [|exact Hw].
    intros s Hs. unfold on_self in Hs. rewrite Hs. reflexivity.
  - split; [reflexivity|]. intros Hw.
    apply (steady_while_loop_not_stopped _ _ _ _ _ redis_cycle_keeps_running); [|exact Hw].
    intros s Hs. unfold on_self in Hs. rewrite Hs. reflexivity.
  - split; [reflexivity|]. split; [reflexivity|]. intros Hw. split.
    + apply (steady_while_loop_not_stopped _ _ _ _ _ rabbitmq_send_cycle_keeps_running);
        [|exact Hw].
      intros s Hs. unfold on_self in Hs. rewrite Hs. reflexivity.
    + apply (steady_while_loop_not_stopped _ _ _ _ _ rabbitmq_read_cycle_keeps_running);
        [|exact Hw].
      intros s Hs. unfold on_self in Hs. rewrite Hs. reflexivity.
Qed.

Lemma stop_event_is_the_only_way_to_stop_witness :
  stopped (MySQL.query_check 5 healthy_mysql).1.1 = false.
Proof.
  apply (proj2 (proj1 stop_event_is_the_only_way_to_stop Mock.script Mock.script_sql
                  5%nat healthy_mysql)).
  reflexivity.
Defined.

(** ** The census loop *)

Lemma census_cycle_safe {B} `{Threading B} :
  safe (fun _ : world B unit => True) Main.census_cycle.
Proof.
  unfold Main.census_cycle.
  apply safe_bind.
  - apply safe_try_except_all; [intros s _; exact I|].
    intros e. repeat safe_step.
  - intros _ s _. split; [exact I | discriminate].
Qed.

Lemma census_cycle_sleeps_five {B} `{Threading B} :
  emits_only sleeps_five Main.census_cycle.
Proof.
  unfold Main.census_cycle. emits; simpl; auto.
Qed.

(** The census loop [monitor_active_thread_count]. One iteration writes the
    active thread count to its gauge when [threading.active_count()] returns
    it, logs an error when that raises, and in both cases sleeps five
    seconds. No exception leaves the loop and nothing stops it: however long
    one waits it is still running (or inside a library call), and every
    sleep it has made is of five seconds. *)
Theorem census_loop_runs_for_ever :
  forall B (threading : Threading B) fuel (w : world B unit),
    Main.census_cycle w
    = match active_count (srv w) with
      | (Ok n, b) =>
          (Ok tt, World b (self w),
           [MetricSet n; Log INFO "Set active thread count"; Sleep 5])
      | (Err e, b) =>
          (Ok tt, World b (self w),
           [Log ERROR ("Failed to set active thread count: " +:+ exn_msg e); Sleep 5])
      | (Block, b) => (Block, World b (self w), [])
      end /\
    crashed (Main.monitor_active_thread_count fuel w).1.1 = false /\
    stopped (Main.monitor_active_thread_count fuel w).1.1 = false /\
    Forall sleeps_five (Main.monitor_active_thread_count fuel w).2.
Proof.
  intros B threading fuel w. split; [|split; [|split]].
  - unfold Main.census_cycle. unfold_monad. cbn.
    destruct (active_count (srv w)) as [[n|e|] b]; reflexivity.
  - apply (safe_while_loop (fun _ => True) _ _ _ _ census_cycle_safe). exact I.
  - apply (steady_while_loop_not_stopped (fun _ => True)); auto.
    intros s _. exact I.
  - apply emits_while_loop, census_cycle_sleeps_five.
Qed.

(** ** The shape of an iteration: the exercise, one gauge write, one sleep *)

(** What follows the exercise in the loops of the MySQL, PostgreSQL and Redis
    variants, for any exercise [body]. *)
Lemma outcome_then_sleep {B Self} (body : M (world B Self) unit)
    (result : Self -> bool) (check_interval : Self -> value) (w : world B Self) :
  let cycle :=
    (body;;
     r <- gets result;;
     emit (MetricSet (if r then 1 else 0));;
     interval <- gets check_interval;;
     sleep interval) in
  match body w with
  | (Ok _, wp, evp) =>
      let v := if result (self wp) then 1 else 0 in
      match sleep_length (check_interval (self wp)) with
      | Some n => cycle w = (Ok tt, wp, evp ++ [MetricSet v; Sleep n])
      | None => exists e, cycle w = (Err e, wp, evp ++ [MetricSet v])
      end
  | (Err e, wp, evp) => cycle w = (Err e, wp, evp)
  | (Block, wp, evp) => cycle w = (Block, wp, evp)
  end.
Proof.
  cbv zeta.
  destruct (body w) as [[[[]|e|] [b t]] evp] eqn:Hb;
    unfold bind; rewrite !Hb; try reflexivity.
  unfold gets, emit. cbn -[sleep sleep_length].
  sleep_cases; cbn; eauto.
Qed.

(** An exception that leaves [try ... except] is one the clause does not
    take, when the handler itself raises nothing. *)
Lemma try_except_escapes {S A} (m : M S A) catches (handler : exn -> M S A) s e :
  (forall e', safe (fun _ => True) (handler e')) ->
  (try_except m catches handler s).1.1 = Err e -> catches e = false.
Proof.
  intros Hh. unfold try_except.
  destruct (m s) as [[[a|e'|] s1] ev1]; simpl; try discriminate.
  destruct (catches e') eqn:Hc.
  - destruct (Hh e' s1 I) as [_ Hok].
    destruct (handler e' s1) as [[r s2] ev2]; simpl in *.
    intros ->. destruct (Hok e eq_refl).
  - simpl. intros [= ->]. exact Hc.
Qed.


Lemma quiet_metric_writes evs : Forall quiet evs -> metric_writes evs = [].
Proof.
  induction 1 as [|ev evs Hev _ IH]; [reflexivity|].
  destruct ev; simpl in *; try assumption; contradiction.
Qed.

Lemma quiet_sleeps evs : Forall quiet evs -> sleeps evs = [].
Proof.
  induction 1 as [|ev evs Hev _ IH]; [reflexivity|].
  destruct ev; simpl in *; try assumption; contradiction.
Qed.

Lemma mysql_probe_quiet {B} `{SqlServer B} : emits_only quiet MySQL.probe.
Proof.
  unfold MySQL.probe, MySQL.select_one, MySQL.get_connection, MySQL.connect.
  emits; simpl; auto.
Qed.

Lemma postgresql_probe_quiet {B} `{SqlServer B} : emits_only quiet PostgreSQL.probe.
Proof.
  unfold PostgreSQL.probe, PostgreSQL.select_one, PostgreSQL.get_connection,
    PostgreSQL.connect.
  emits; simpl; auto.
Qed.

Lemma redis_exercise_quiet {B} `{RedisServer B} : emits_only quiet Redis.exercise.
Proof.
  unfold Redis.exercise, Redis.get_connection, Redis.connect.
  emits; simpl; auto.
Qed.

Section DatabaseExercise.
Context {B : Type} `{SqlServer B}.

Lemma mysql_probe_success (w : MySQL.state) :
  mysql_answers_one w ->
  exists wp evs, MySQL.probe w = (Ok tt, wp, evs) /\ MySQL.result (self wp) = true.
Proof.
  intros [c [b1 t1] evs cursor s2 s3 row s4 Hg Hcur Hexe Hfetch Hone].
  unfold MySQL.probe, try_except. unfold bind at 1. unfold gets at 1. cbn [fst snd].
  replace (if negb (MySQL.result (self w)) then MySQL.get_connection true
           else MySQL.get_connection false)
    with (MySQL.get_connection (negb (MySQL.result (self w))))
    by (destruct (MySQL.result (self w)); reflexivity).
  unfold bind at 1. rewrite Hg.
  unfold MySQL.select_one.
  unfold attr_of, bind, ret, raise, emit, of_res, logger, emit, call, gets, update.
  cbn in *. rewrite Hcur. cbn. rewrite Hexe. cbn. rewrite Hfetch. cbn. rewrite Hone. cbn.
  eexists _, _. split; reflexivity.
Qed.

Lemma mysql_probe_success_only (w : MySQL.state) :
  match MySQL.probe w with
  | (Ok _, wp, _) => MySQL.result (self wp) = true -> mysql_answers_one w
  | _ => True
  end.
Proof.
  unfold MySQL.probe, try_except. unfold bind at 1. unfold gets at 1. cbn [fst snd].
  replace (if negb (MySQL.result (self w)) then MySQL.get_connection true
           else MySQL.get_connection false)
    with (MySQL.get_connection (negb (MySQL.result (self w))))
    by (destruct (MySQL.result (self w)); reflexivity).
  unfold bind at 1.
  destruct (MySQL.get_connection (negb (MySQL.result (self w))) w)
    as [[[conn|e|] [b1 t1]] evg] eqn:Hg.
  - unfold MySQL.select_one.
    unfold attr_of, bind, ret, raise, emit, of_res, logger, emit, call, gets, update.
    cbn.
    repeat (case_match; cbn; simplify_eq).
    all: try exact I.
    all: try (intros; discriminate).
    intros _. cbn [srv self] in *.
    repeat match goal with u : unit |- _ => destruct u end.
    match goal with
    | Hone : MySQL.first_is_one ?r = Ok true |- _ =>
        destruct r as [row|]; [|discriminate Hone]
    end.
    econstructor; eauto.
  - cbn. destruct (isinstance MySQLError e); cbn; [|exact I].
    intros; discriminate.
  - exact I.
Qed.
Lemma postgresql_probe_success (w : PostgreSQL.state) :
  postgresql_answers_one w ->
  exists wp evs, PostgreSQL.probe w = (Ok tt, wp, evs) /\ PostgreSQL.result (self wp) = true.
Proof.
  intros [c [b1 t1] evs cursor s2 s3 row s4 Hg Hcur Hexe Hfetch Hone].
  unfold PostgreSQL.probe, try_except.
  unfold bind at 1. rewrite Hg.
  unfold PostgreSQL.select_one.
  unfold attr_of, bind, ret, raise, emit, of_res, logger, emit, call, gets, update.
  cbn in *. rewrite Hcur. cbn. rewrite Hexe. cbn. rewrite Hfetch. cbn. rewrite Hone. cbn.
  eexists _, _. split; reflexivity.
Qed.

Lemma postgresql_probe_success_only (w : PostgreSQL.state) :
  match PostgreSQL.probe w with
  | (Ok _, wp, _) => PostgreSQL.result (self wp) = true -> postgresql_answers_one w
  | _ => True
  end.
Proof.
  unfold PostgreSQL.probe, try_except.
  unfold bind at 1.
  destruct (PostgreSQL.get_connection w)
    as [[[conn|e|] [b1 t1]] evg] eqn:Hg.
  - unfold PostgreSQL.select_one.
    unfold attr_of, bind, ret, raise, emit, of_res, logger, emit, call, gets, update.
    cbn.
    repeat (case_match; cbn; simplify_eq).
    all: try exact I.
    all: try (intros; discriminate).
    intros _. cbn [srv self] in *.
    repeat match goal with u : unit |- _ => destruct u end.
    match goal with
    | Hone : PostgreSQL.first_is_one ?r = Ok true |- _ =>
        destruct r as [row|]; [|discriminate Hone]
    end.
    econstructor; eauto.
  - cbn. destruct (isinstance Psycopg2Error e); cbn; [|exact I].
    intros; discriminate.
  - exact I.
Qed.

Lemma mysql_cycle_writes (w : MySQL.state) :
  match MySQL.probe w with
  | (Ok _, wp, _) =>
      metric_writes (MySQL.cycle w).2 = [if MySQL.result (self wp) then 1 else 0]
  | (_, _, _) => MySQL.cycle w = MySQL.probe w
  end.
Proof.
  pose proof (outcome_then_sleep MySQL.probe MySQL.result MySQL.check_interval w) as Hc.
  pose proof (mysql_probe_quiet w) as Hq.
  cbv zeta in Hc. change (MySQL.probe;; _) with MySQL.cycle in Hc.
  destruct (MySQL.probe w) as [[[[]|e|] wp] evp]; simpl in *; try exact Hc.
  apply quiet_metric_writes in Hq.
  destruct (sleep_length _) as [n|]; [|destruct Hc as [e Hc]];
    rewrite Hc; simpl; rewrite metric_writes_app, Hq; reflexivity.
Qed.

Lemma postgresql_cycle_writes (w : PostgreSQL.state) :
  match PostgreSQL.probe w with
  | (Ok _, wp, _) =>
      metric_writes (PostgreSQL.cycle w).2 = [if PostgreSQL.result (self wp) then 1 else 0]
  | (_, _, _) => PostgreSQL.cycle w = PostgreSQL.probe w
  end.
Proof.
  pose proof (outcome_then_sleep PostgreSQL.probe PostgreSQL.result
                PostgreSQL.check_interval w) as Hc.
  pose proof (postgresql_probe_quiet w) as Hq.
  cbv zeta in Hc. change (PostgreSQL.probe;; _) with PostgreSQL.cycle in Hc.
  destruct (PostgreSQL.probe w) as [[[[]|e|] wp] evp]; simpl in *; try exact Hc.
  apply quiet_metric_writes in Hq.
  destruct (sleep_length _) as [n|]; [|destruct Hc as [e Hc]];
    rewrite Hc; simpl; rewrite metric_writes_app, Hq; reflexivity.
Qed.

End DatabaseExercise.

(** One iteration of a database variant writes 1 to the gauge if and only if
    a connection is obtained, a cursor is opened on it, the query executes
    and the row fetched has 1 in its first column. An iteration whose
    [try ... except] returns writes 1 or 0. An exception leaves the iteration
    only if it is not of the library's error class, and then, as when a
    library call never returns, nothing is written to the gauge. *)
Theorem database_exercise_succeeds_iff_query_answers_one :
  (forall B (server : SqlServer B) (w : MySQL.state),
      (metric_writes (MySQL.cycle w).2 = [1] <-> mysql_answers_one w) /\
      metric_writes (MySQL.probe w).2 = [] /\
      match (MySQL.probe w).1.1 with
      | Ok _ =>
          metric_writes (MySQL.cycle w).2 = [1] \/ metric_writes (MySQL.cycle w).2 = [0]
      | Err e => isinstance MySQLError e = false /\ MySQL.cycle w = MySQL.probe w
      | Block => MySQL.cycle w = MySQL.probe w
      end) /\
  (forall B (server : SqlServer B) (w : PostgreSQL.state),
      (metric_writes (PostgreSQL.cycle w).2 = [1] <-> postgresql_answers_one w) /\
      metric_writes (PostgreSQL.probe w).2 = [] /\
      match (PostgreSQL.probe w).1.1 with
      | Ok _ =>
          metric_writes (PostgreSQL.cycle w).2 = [1]
          \/ metric_writes (PostgreSQL.cycle w).2 = [0]
      | Err e => isinstance Psycopg2Error e = false /\ PostgreSQL.cycle w = PostgreSQL.probe w
      | Block => PostgreSQL.cycle w = PostgreSQL.probe w
      end).
Proof.
  split; intros B server w.
  - pose proof (mysql_cycle_writes w) as Hc.
    pose proof (mysql_probe_success_only w) as Honly.
    pose proof (mysql_probe_success w) as Hsucc.
    pose proof (quiet_metric_writes _ (mysql_probe_quiet w)) as Hq.
    assert (Hesc : forall e, (MySQL.probe w).1.1 = Err e -> isinstance MySQLError e = false).
    { intros e. unfold MySQL.probe. apply try_except_escapes.
      intros e'. apply safe_bind; [solve [eauto with safe]|intros ?].
      intros s _. split; [exact I | discriminate]. }
    split; [|split; [exact Hq|]].
    + split.
      * intros Hone. destruct (MySQL.probe w) as [[[[]|e|] wp] evp]; simpl in *.
        -- apply Honly. rewrite Hc in Hone.
           destruct (MySQL.result (self wp)); [reflexivity | discriminate].
        -- rewrite Hc in Hone. simpl in Hone. congruence.
        -- rewrite Hc in Hone. simpl in Hone. congruence.
      * intros Ha. destruct (Hsucc Ha) as (wp & evs & Hp & Hr).
        rewrite Hp in Hc. rewrite Hc, Hr. reflexivity.
    + destruct (MySQL.probe w) as [[[[]|e|] wp] evp]; simpl in *.
      * rewrite Hc. destruct (MySQL.result (self wp)); auto.
      * split; [apply Hesc; reflexivity | exact Hc].
      * exact Hc.
  - pose proof (postgresql_cycle_writes w) as Hc.
    pose proof (postgresql_probe_success_only w) as Honly.
    pose proof (postgresql_probe_success w) as Hsucc.
    pose proof (quiet_metric_writes _ (postgresql_probe_quiet w)) as Hq.
    assert (Hesc : forall e,
               (PostgreSQL.probe w).1.1 = Err e -> isinstance Psycopg2Error e = false).
    { intros e. unfold PostgreSQL.probe. apply try_except_escapes.
      intros e'. apply safe_bind; [solve [eauto with safe]|intros ?].
      intros s _. split; [exact I | discriminate]. }
    split; [|split; [exact Hq|]].
    + split.
      * intros Hone. destruct (PostgreSQL.probe w) as [[[[]|e|] wp] evp]; simpl in *.
        -- apply Honly. rewrite Hc in Hone.
           destruct (PostgreSQL.result (self wp)); [reflexivity | discriminate].
        -- rewrite Hc in Hone. simpl in Hone. congruence.
        -- rewrite Hc in Hone. simpl in Hone. congruence.
      * intros Ha. destruct (Hsucc Ha) as (wp & evs & Hp & Hr).
        rewrite Hp in Hc. rewrite Hc, Hr. reflexivity.
    + destruct (PostgreSQL.probe w) as [[[[]|e|] wp] evp]; simpl in *.
      * rewrite Hc. destruct (PostgreSQL.result (self wp)); auto.
      * split; [apply Hesc; reflexivity | exact Hc].
      * exact Hc.
Qed.

Lemma database_exercise_succeeds_iff_query_answers_one_witness :
  metric_writes (MySQL.cycle healthy_mysql).2 = [1].
Proof.
  apply (proj2 (proj1 (proj1 database_exercise_succeeds_iff_query_answers_one
                         Mock.script Mock.script_sql healthy_mysql))).
  eapply mysql_answers; reflexivity.
Defined.

Lemma sleeps_app evs1 evs2 : sleeps (evs1 ++ evs2) = sleeps evs1 ++ sleeps evs2.
Proof.
  induction evs1 as [|ev evs1 IH]; [reflexivity|].
  destruct ev; simpl; rewrite ?IH; reflexivity.
Qed.

(** An iteration that completes: the events of the exercise, then one gauge
    write, then one sleep, whose length is the interval of the state the
    iteration started in when the exercise leaves the interval alone. *)
Lemma completed_cycle {B Self} (body : M (world B Self) unit)
    (result : Self -> bool) (check_interval : Self -> value) (w w' : world B Self) evs :
  (forall v, steady (on_self (fun t => check_interval t = v)) body) ->
  emits_only quiet body ->
  (body;;
   r <- gets result;;
   emit (MetricSet (if r then 1 else 0));;
   interval <- gets check_interval;;
   sleep interval) w = (Ok tt, w', evs) ->
  exists n,
    sleep_length (check_interval (self w)) = Some n /\
    evs = (body w).2 ++ [MetricSet (if result (self w') then 1 else 0); Sleep n] /\
    metric_writes evs = [if result (self w') then 1 else 0] /\
    sleeps evs = [n].
Proof.
  intros Hsteady Hquiet Hcycle.
  pose proof (outcome_then_sleep body result check_interval w) as Hc.
  pose proof (Hsteady _ w eq_refl) as Hkeep. specialize (Hquiet w).
  cbv zeta in Hc. rewrite Hcycle in Hc. unfold on_self in Hkeep.
  destruct (body w) as [[[[]|e|] wp] evp]; simpl in *; try discriminate.
  rewrite Hkeep in Hc.
  destruct (sleep_length (check_interval (self w))) as [n|];
    [|destruct Hc as [e Hc]; discriminate].
  injection Hc as -> ->. exists n.
  split; [reflexivity|]. split; [reflexivity|].
  rewrite metric_writes_app, sleeps_app, (quiet_metric_writes _ Hquiet),
    (quiet_sleeps _ Hquiet).
  split; reflexivity.
Qed.

Section Cadence.

Lemma mysql_probe_keeps_interval {B} `{SqlServer B} v :
  steady (on_self (fun t => MySQL.check_interval t = v)) MySQL.probe.
Proof.
  unfold MySQL.probe, MySQL.select_one, MySQL.get_connection, MySQL.connect.
  repeat steady_step.
Qed.

Lemma postgresql_probe_keeps_interval {B} `{SqlServer B} v :
  steady (on_self (fun t => PostgreSQL.check_interval t = v)) PostgreSQL.probe.
Proof.
  unfold PostgreSQL.probe, PostgreSQL.select_one, PostgreSQL.get_connection,
    PostgreSQL.connect.
  repeat steady_step.
Qed.

Lemma redis_exercise_keeps_interval {B} `{RedisServer B} v :
  steady (on_self (fun t => Redis.check_interval t = v)) Redis.exercise.
Proof.
  unfold Redis.exercise, Redis.get_connection, Redis.connect.
  repeat steady_step.
Qed.

End Cadence.

(** An iteration of the MySQL, PostgreSQL or Redis loop that completes did
    exactly this: the exercise, which neither writes the gauge nor sleeps;
    then one gauge write, 1 if [self.result] is true after the exercise and 0
    otherwise; then one sleep of [check_interval] seconds, the interval the
    iteration started with. In particular an interval that [time.sleep] does
    not accept lets no iteration complete. *)
Theorem completed_iteration_writes_once_then_sleeps :
  (forall B (server : SqlServer B) (w w' : MySQL.state) evs,
      MySQL.cycle w = (Ok tt, w', evs) ->
      exists n,
        sleep_length (MySQL.check_interval (self w)) = Some n /\
        evs = (MySQL.probe w).2
              ++ [MetricSet (if MySQL.result (self w') then 1 else 0); Sleep n] /\
        metric_writes evs = [if MySQL.result (self w') then 1 else 0] /\
        sleeps evs = [n]) /\
  (forall B (server : SqlServer B) (w w' : PostgreSQL.state) evs,
      PostgreSQL.cycle w = (Ok tt, w', evs) ->
      exists n,
        sleep_length (PostgreSQL.check_interval (self w)) = Some n /\
        evs = (PostgreSQL.probe w).2
              ++ [MetricSet (if PostgreSQL.result (self w') then 1 else 0); Sleep n] /\
        metric_writes evs = [if PostgreSQL.result (self w') then 1 else 0] /\
        sleeps evs = [n]) /\
  (forall B (server : RedisServer B) (w w' : Redis.state) evs,
      Redis.cycle w = (Ok tt, w', evs) ->
      exists n,
        sleep_length (Redis.check_interval (self w)) = Some n /\
        evs = (Redis.exercise w).2
              ++ [MetricSet (if Redis.result (self w') then 1 else 0); Sleep n] /\
        metric_writes evs = [if Redis.result (self w') then 1 else 0] /\
        sleeps evs = [n]).
Proof.
  split; [|split]; intros B server w w' evs Hcycle.
  - apply (completed_cycle MySQL.probe MySQL.result MySQL.check_interval);
      [apply mysql_probe_keeps_interval | apply mysql_probe_quiet | exact Hcycle].
  - apply (completed_cycle PostgreSQL.probe PostgreSQL.result PostgreSQL.check_interval);
      [apply postgresql_probe_keeps_interval | apply postgresql_probe_quiet | exact Hcycle].
  - apply (completed_cycle Redis.exercise Redis.result Redis.check_interval);
      [apply redis_exercise_keeps_interval | apply redis_exercise_quiet | exact Hcycle].
Qed.

Lemma completed_iteration_writes_once_then_sleeps_witness :
  exists n,
    sleep_length (MySQL.check_interval (self healthy_mysql)) = Some n /\
    (MySQL.cycle healthy_mysql).2
    = (MySQL.probe healthy_mysql).2
      ++ [MetricSet (if MySQL.result (self (MySQL.cycle healthy_mysql).1.2) then 1 else 0);
          Sleep n] /\
    metric_writes (MySQL.cycle healthy_mysql).2
    = [if MySQL.result (self (MySQL.cycle healthy_mysql).1.2) then 1 else 0] /\
    sleeps (MySQL.cycle healthy_mysql).2 = [n].
Proof.
  apply (proj1 completed_iteration_writes_once_then_sleeps Mock.script Mock.script_sql
           healthy_mysql).
  reflexivity.
Defined.

Lemma emits_only_any {S A} (m : M S A) : emits_only (fun _ => True) m.
Proof. intros s. apply Forall_forall. auto. Qed.

Lemma rabbitmq_get_connection_quiet {B} `{AmqpServer B} :
  emits_only quiet RabbitMQ.get_connection.
Proof.
  unfold RabbitMQ.get_connection, RabbitMQ.connect.
  emits; simpl; auto.
Qed.

Lemma rabbitmq_get_connection_keeps_interval {B} `{AmqpServer B} v :
  steady (on_self (fun t => RabbitMQ.check_interval t = v)) RabbitMQ.get_connection.
Proof.
  unfold RabbitMQ.get_connection, RabbitMQ.connect.
  repeat steady_step.
Qed.

(** A sleep of a length that [time.sleep] takes. *)
Ltac through n Hpos := rewrite ?(sleep_goes_through n Hpos); unfold emit.

(** No run of the publisher's [try] block that failed counts as published. *)
Ltac refute_publishes Hg :=
  let Hg' := fresh "Hg'" in
  intros [? [? ?] ? ? ? ? ? Hg' ? ? ?];
  rewrite Hg in Hg'; simplify_eq;
  cbn [srv self RabbitMQ.queue RabbitMQ.payload] in *; congruence.

Section Publisher.
Context {B : Type} `{AmqpServer B}.

(** The publisher's iteration, by what its [try] block does. *)
Lemma send_cycle_cases (w : RabbitMQ.state) n :
  RabbitMQ.check_interval (self w) = VInt n -> 0 <= n <= longest_sleep ->
  match RabbitMQ.send_cycle w with
  | (Ok _, _, evs) =>
      sleeps evs = [n] /\
      (metric_writes evs = [1] /\ publishes w \/ metric_writes evs = [0] /\ ~ publishes w)
  | (Err _, _, _) => False
  | (Block, _, evs) => sleeps evs = [] /\ metric_writes evs = [] /\ ~ publishes w
  end.
Proof.
  intros Hn Hpos. cbv zeta.
  pose proof (rabbitmq_get_connection_quiet w) as Hq.
  pose proof (rabbitmq_get_connection_keeps_interval (VInt n) w Hn) as Hk.
  unfold on_self in Hk.
  unfold RabbitMQ.send_cycle, try_except. unfold bind at 1.
  destruct (RabbitMQ.get_connection w) as [[[conn|e|] [b1 t1]] evg] eqn:Hg;
    simpl in Hq, Hk.
  - pose proof (quiet_metric_writes _ Hq) as Hm. pose proof (quiet_sleeps _ Hq) as Hs.
    destruct t1 as [d q p interval stop]. cbn in Hk. subst interval.
    unfold attr_of, bind, ret, raise, emit, of_res, logger, emit, call, gets, update.
    destruct conn as [c|]; cbn -[encode sleep].
    + destruct (amqp_channel c b1) as [[channel|e|] b2] eqn:Hch; cbn -[encode sleep].
      * destruct (amqp_queue_declare channel q b2) as [[[]|e|] b3] eqn:Hdecl; cbn -[encode sleep].
        -- destruct (amqp_basic_publish channel "" q (encode p) b3)
             as [[[]|e|] b4] eqn:Hpub; cbn -[encode sleep]; through n Hpos; cbn -[encode sleep].
           ++ rewrite ?metric_writes_app, ?sleeps_app, ?Hm, ?Hs; cbn -[encode sleep].
              split; [reflexivity|]. left. split; [reflexivity|].
              econstructor; eauto.
           ++ rewrite ?metric_writes_app, ?sleeps_app, ?Hm, ?Hs; cbn -[encode sleep].
              split; [reflexivity|]. right. split; [reflexivity|].
              refute_publishes Hg.
           ++ rewrite ?metric_writes_app, ?sleeps_app, ?Hm, ?Hs; cbn -[encode sleep].
              split; [reflexivity|]. split; [reflexivity|].
              refute_publishes Hg.
        -- through n Hpos; cbn -[encode sleep].
           rewrite ?metric_writes_app, ?sleeps_app, ?Hm, ?Hs; cbn -[encode sleep].
           split; [reflexivity|]. right. split; [reflexivity|].
           refute_publishes Hg.
        -- rewrite ?metric_writes_app, ?sleeps_app, ?Hm, ?Hs; cbn -[encode sleep].
           split; [reflexivity|]. split; [reflexivity|].
           refute_publishes Hg.
      * through n Hpos; cbn -[encode sleep]. rewrite ?metric_writes_app, ?sleeps_app, ?Hm, ?Hs;
          cbn -[encode sleep].
        split; [reflexivity|]. right. split; [reflexivity|].
        refute_publishes Hg.
      * rewrite ?metric_writes_app, ?sleeps_app, ?Hm, ?Hs; cbn -[encode sleep].
        split; [reflexivity|]. split; [reflexivity|].
        refute_publishes Hg.
    + through n Hpos; cbn -[encode sleep]. rewrite ?metric_writes_app, ?sleeps_app, ?Hm, ?Hs;
        cbn -[encode sleep].
      split; [reflexivity|]. right. split; [reflexivity|].
      refute_publishes Hg.
  - cbn. pose proof (quiet_metric_writes _ Hq) as Hm. pose proof (quiet_sleeps _ Hq) as Hs.
    unfold bind, ret, raise, emit, logger, emit, gets. cbn -[sleep]. rewrite Hk.
    through n Hpos. cbn -[encode sleep].
    rewrite ?metric_writes_app, ?sleeps_app, ?Hm, ?Hs; cbn -[encode sleep].
    split; [reflexivity|]. right. split; [reflexivity|].
    refute_publishes Hg.
  - cbn. split; [apply quiet_sleeps, Hq|]. split; [apply quiet_metric_writes, Hq|].
    refute_publishes Hg.
Qed.

End Publisher.

(** The publisher writes the gauge once per attempt: with an interval that
    [time.sleep] accepts, an iteration of [send_message_test] in which the
    connection, the channel, the queue declaration and the publish all go
    through writes 1 once and sleeps once; any other iteration that comes to
    an end writes 0 once and sleeps once; an iteration stuck in a library
    call writes nothing. No exception leaves the iteration. *)
Theorem publisher_writes_once_per_attempt :
  forall B (server : AmqpServer B) (w : RabbitMQ.state) n,
    RabbitMQ.check_interval (self w) = VInt n -> 0 <= n <= longest_sleep ->
    let evs := (RabbitMQ.send_cycle w).2 in
    (publishes w ->
     (RabbitMQ.send_cycle w).1.1 = Ok tt /\ metric_writes evs = [1] /\ sleeps evs = [n]) /\
    (~ publishes w ->
     (RabbitMQ.send_cycle w).1.1 = Ok tt /\ metric_writes evs = [0] /\ sleeps evs = [n]
     \/ (RabbitMQ.send_cycle w).1.1 = Block /\ metric_writes evs = [] /\ sleeps evs = []) /\
    (metric_writes evs = [1] -> publishes w).
Proof.
  intros B server w n Hn Hpos. cbv zeta.
  pose proof (send_cycle_cases w n Hn Hpos) as Hc.
  destruct (RabbitMQ.send_cycle w) as [[[[]|e|] w'] evs]; simpl in *.
  - destruct Hc as (Hs & [[Hm Hp]|[Hm Hp]]).
    + split; [auto|]. split; [intros Hnp; destruct (Hnp Hp) | auto].
    + split; [intros Hp'; destruct (Hp Hp')|]. split; [auto|].
      rewrite Hm. discriminate.
  - destruct Hc.
  - destruct Hc as (Hs & Hm & Hp).
    split; [intros Hp'; destruct (Hp Hp')|]. split; [auto|].
    rewrite Hm. discriminate.
Qed.

Lemma publisher_writes_once_per_attempt_witness :
  (RabbitMQ.send_cycle accepting_broker).1.1 = Ok tt /\
  metric_writes (RabbitMQ.send_cycle accepting_broker).2 = [1] /\
  sleeps (RabbitMQ.send_cycle accepting_broker).2 = [1].
Proof.
  apply (proj1 (publisher_writes_once_per_attempt Mock.script Mock.script_amqp
                  accepting_broker 1 eq_refl ltac:(unfold longest_sleep; lia))).
  eapply publishes_payload; reflexivity.
Defined.

Ltac refute_consumes Hg :=
  let Hg' := fresh "Hg'" in
  intros ? ? [? [? ?] ? ? ? ? ? ? Hg' ? ? ? ?];
  rewrite Hg in Hg'; simplify_eq;
  cbn [srv self RabbitMQ.queue RabbitMQ.payload] in *; congruence.

Lemma callbacks_write_ones (bodies : list bytes) :
  metric_writes (concat (map RabbitMQ.callback bodies)) = repeat 1 (length bodies) /\
  sleeps (concat (map RabbitMQ.callback bodies)) = [].
Proof.
  induction bodies as [|body bodies [IHm IHs]]; [split; reflexivity|].
  simpl. rewrite IHm, IHs. split; reflexivity.
Qed.

Section Consumer.
Context {B : Type} `{AmqpServer B}.

(** The consumer's iteration, by what its [try] block does. *)
Lemma read_cycle_cases (w : RabbitMQ.state) n :
  RabbitMQ.check_interval (self w) = VInt n -> 0 <= n <= longest_sleep ->
  match RabbitMQ.read_cycle w with
  | (Ok _, _, evs) =>
      (exists bodies r,
          consumes w bodies r /\ r <> Block /\
          metric_writes evs = repeat 1 (length bodies) ++ after_consuming r [0] [] /\
          sleeps evs = after_consuming r [n] [])
      \/ ((forall bodies r, ~ consumes w bodies r) /\
          metric_writes evs = [0] /\ sleeps evs = [n])
  | (Err _, _, _) => False
  | (Block, _, evs) =>
      (exists bodies,
          consumes w bodies Block /\
          metric_writes evs = repeat 1 (length bodies) /\ sleeps evs = [])
      \/ ((forall bodies r, ~ consumes w bodies r) /\
          metric_writes evs = [] /\ sleeps evs = [])
  end.
Proof.
  intros Hn Hpos.
  pose proof (rabbitmq_get_connection_quiet w) as Hq.
  pose proof (rabbitmq_get_connection_keeps_interval (VInt n) w Hn) as Hk.
  unfold on_self in Hk.
  unfold RabbitMQ.read_cycle, try_except. unfold bind at 1.
  destruct (RabbitMQ.get_connection w) as [[[conn|e|] [b1 t1]] evg] eqn:Hg;
    simpl in Hq, Hk.
  - pose proof (quiet_metric_writes _ Hq) as Hm. pose proof (quiet_sleeps _ Hq) as Hs.
    destruct t1 as [d q p interval stop]. cbn in Hk. subst interval.
    unfold RabbitMQ.start_consuming.
    unfold attr_of, bind, ret, raise, emit, of_res, logger, emit, call, gets, update.
    destruct conn as [c|]; cbn -[sleep].
    + destruct (amqp_channel c b1) as [[channel|e|] b2] eqn:Hch; cbn -[sleep].
      * destruct (amqp_queue_declare channel q b2) as [[[]|e|] b3] eqn:Hdecl; cbn -[sleep].
        -- destruct (amqp_basic_consume channel q b3) as [[[]|e|] b4] eqn:Hcons; cbn -[sleep].
           ++ destruct (amqp_start_consuming channel b4) as [[bodies r] b5] eqn:Hstart.
              destruct (callbacks_write_ones bodies) as [Hones Hnone].
              destruct r as [[]|e|]; cbn -[RabbitMQ.callback sleep]; through n Hpos;
                cbn -[RabbitMQ.callback sleep].
              ** left. exists bodies, (Ok tt).
                 split; [econstructor; eauto|]. split; [discriminate|].
                 repeat (progress (rewrite ?metric_writes_app, ?sleeps_app, ?Hm, ?Hs,
                                     ?Hones, ?Hnone; cbn -[RabbitMQ.callback sleep])).
                 rewrite ?app_nil_r. split; reflexivity.
              ** left. exists bodies, (Err e).
                 split; [econstructor; eauto|]. split; [discriminate|].
                 repeat (progress (rewrite ?metric_writes_app, ?sleeps_app, ?Hm, ?Hs,
                                     ?Hones, ?Hnone; cbn -[RabbitMQ.callback sleep])).
                 rewrite ?app_nil_r. split; reflexivity.
              ** left. exists bodies.
                 split; [econstructor; eauto|].
                 repeat (progress (rewrite ?metric_writes_app, ?sleeps_app, ?Hm, ?Hs,
                                     ?Hones, ?Hnone; cbn -[RabbitMQ.callback sleep])).
                 rewrite ?app_nil_r. split; reflexivity.
           ++ through n Hpos; cbn -[sleep]. rewrite ?metric_writes_app, ?sleeps_app, ?Hm, ?Hs;
                cbn -[sleep].
              right. split; [refute_consumes Hg|]. split; reflexivity.
           ++ rewrite ?metric_writes_app, ?sleeps_app, ?Hm, ?Hs; cbn -[sleep].
              right. split; [refute_consumes Hg|]. split; reflexivity.
        -- through n Hpos; cbn -[sleep]. rewrite ?metric_writes_app, ?sleeps_app, ?Hm, ?Hs;
             cbn -[sleep].
           right. split; [refute_consumes Hg|]. split; reflexivity.
        -- rewrite ?metric_writes_app, ?sleeps_app, ?Hm, ?Hs; cbn -[sleep].
           right. split; [refute_consumes Hg|]. split; reflexivity.
      * through n Hpos; cbn -[sleep]. rewrite ?metric_writes_app, ?sleeps_app, ?Hm, ?Hs;
          cbn -[sleep].
        right. split; [refute_consumes Hg|]. split; reflexivity.
      * rewrite ?metric_writes_app, ?sleeps_app, ?Hm, ?Hs; cbn -[sleep].
        right. split; [refute_consumes Hg|]. split; reflexivity.
    + through n Hpos; cbn -[sleep]. rewrite ?metric_writes_app, ?sleeps_app, ?Hm, ?Hs; cbn -[sleep].
      right. split; [refute_consumes Hg|]. split; reflexivity.
  - cbn -[sleep]. pose proof (quiet_metric_writes _ Hq) as Hm. pose proof (quiet_sleeps _ Hq) as Hs.
    unfold bind, ret, raise, emit, logger, emit, gets. cbn -[sleep]. rewrite Hk.
    through n Hpos. cbn -[sleep].
    rewrite ?metric_writes_app, ?sleeps_app, ?Hm, ?Hs; cbn -[sleep].
    right. split; [refute_consumes Hg|]. split; reflexivity.
  - cbn -[sleep]. right. split; [refute_consumes Hg|].
    split; [apply quiet_metric_writes, Hq | apply quiet_sleeps, Hq].
Qed.

End Consumer.

Lemma consumes_functional {B} `{AmqpServer B} (w : RabbitMQ.state) bodies r bodies' r' :
  consumes w bodies r -> consumes w bodies' r' -> bodies = bodies' /\ r = r'.
Proof.
  intros [c w1 evs ch b2 b3 b4 b5 Hg Hch Hdecl Hcons Hstart]
         [c' w1' evs' ch' b2' b3' b4' b5' Hg' Hch' Hdecl' Hcons' Hstart'].
  rewrite Hg in Hg'. simplify_eq.
  rewrite Hch in Hch'. simplify_eq.
  rewrite Hdecl in Hdecl'. simplify_eq.
  rewrite Hcons in Hcons'. simplify_eq.
  rewrite Hstart in Hstart'. simplify_eq. split; reflexivity.
Qed.

(** The consumer writes 1 once per delivered message and never sleeps while it
    consumes: with an interval that [time.sleep] accepts, an iteration of
    [read_message_test] that gets as far as [start_consuming] writes 1 as many
    times as messages are delivered; it then writes 0 once and sleeps once if
    [start_consuming] raised, and nothing more otherwise. An iteration that
    does not get that far writes 0 once and sleeps once, or is stuck in a
    library call and writes nothing. *)
Theorem consumer_writes_one_per_message :
  forall B (server : AmqpServer B) (w : RabbitMQ.state) n,
    RabbitMQ.check_interval (self w) = VInt n -> 0 <= n <= longest_sleep ->
    let evs := (RabbitMQ.read_cycle w).2 in
    (forall bodies r,
        consumes w bodies r ->
        metric_writes evs = repeat 1 (length bodies) ++ after_consuming r [0] [] /\
        sleeps evs = after_consuming r [n] []) /\
    ((forall bodies r, ~ consumes w bodies r) ->
     (RabbitMQ.read_cycle w).1.1 = Ok tt /\ metric_writes evs = [0] /\ sleeps evs = [n]
     \/ (RabbitMQ.read_cycle w).1.1 = Block /\ metric_writes evs = [] /\ sleeps evs = []).
Proof.
  intros B server w n Hn Hpos. cbv zeta.
  pose proof (read_cycle_cases w n Hn Hpos) as Hc.
  destruct (RabbitMQ.read_cycle w) as [[[[]|e|] w'] evs]; simpl in *.
  - destruct Hc as [(bodies' & r' & Hcons' & Hr & Hm & Hs)|(Hnone & Hm & Hs)].
    + split.
      * intros bodies r Hcons.
        destruct (consumes_functional w _ _ _ _ Hcons Hcons') as [-> ->]. auto.
      * intros Hnone. destruct (Hnone _ _ Hcons').
    + split; [intros bodies r Hcons; destruct (Hnone _ _ Hcons) | auto].
  - destruct Hc.
  - destruct Hc as [(bodies' & Hcons' & Hm & Hs)|(Hnone & Hm & Hs)].
    + split.
      * intros bodies r Hcons.
        destruct (consumes_functional w _ _ _ _ Hcons Hcons') as [-> ->].
        simpl. rewrite app_nil_r. auto.
      * intros Hnone. destruct (Hnone _ _ Hcons').
    + split; [intros bodies r Hcons; destruct (Hnone _ _ Hcons) | auto].
Qed.

Lemma consumer_writes_one_per_message_witness :
  metric_writes (RabbitMQ.read_cycle quiet_broker).2
  = repeat 1 (length [encode "SRE_TEST_PAYLOAD"; encode "SRE_TEST_PAYLOAD"])
    ++ after_consuming Block [0] [] /\
  sleeps (RabbitMQ.read_cycle quiet_broker).2 = after_consuming Block [1] [].
Proof.
  apply (proj1 (consumer_writes_one_per_message Mock.script Mock.script_amqp
                  quiet_broker 1 eq_refl ltac:(unfold longest_sleep; lia))).
  eapply consumes_messages; reflexivity.
Defined.

(** ** An interval that [time.sleep] rejects *)

Section Rejected.
Context {B Self : Type} (check_interval : Self -> value) (v : value).
Hypothesis rejected : sleep_length v = None.

Let I : world B Self -> Prop := on_self (fun t => check_interval t = v).

(** [time.sleep(self.check_interval)] raises. *)
Lemma sleep_rejected :
  triple I (fun _ => True) (fun _ : unit => False)
    (interval <- gets check_interval;; sleep interval).
Proof.
  intros [b t] Ht. unfold I, on_self in Ht. simpl in Ht.
  unfold bind, gets. cbn -[sleep]. rewrite Ht.
  pose proof (@sleep_spec (world B Self) v) as Hs.
  rewrite rejected in Hs. destruct Hs as [e ->].
  unfold raise. cbn. split; [exact Ht|]. split; [constructor | discriminate].
Qed.

(** What runs before the sleep does not matter. *)
Lemma then_rejected {A C} (m : M (world B Self) A) (f : A -> M (world B Self) C) :
  steady I m ->
  (forall a, triple I (fun _ => True) (fun _ => False) (f a)) ->
  triple I (fun _ => True) (fun _ => False) (bind m f).
Proof.
  intros Hm Hf. apply (triple_bind _ _ (fun _ => True)).
  - apply triple_of; [exact Hm | apply emits_only_any].
  - intros a _. apply Hf.
Qed.

(** A loop whose body never returns runs its body once at most. *)
Lemma while_loop_never_returning cond (body : M (world B Self) unit) fuel w :
  triple I (fun _ => True) (fun _ => False) body -> I w ->
  while_loop cond body (S fuel) w = while_loop cond body 1 w /\
  stopped (while_loop cond body 1 w).1.1 = negb (cond w) /\
  (cond w = true ->
   (while_loop cond body 1 w).1.1 = Blocked \/
   crashed (while_loop cond body 1 w).1.1 = true).
Proof.
  intros Hb Hw. destruct (Hb w Hw) as (_ & _ & Hnever). simpl.
  destruct (cond w); [|auto].
  destruct (body w) as [[[a|e|] w1] ev1]; simpl in *.
  - destruct (Hnever a eq_refl).
  - auto.
  - auto.
Qed.

End Rejected.

Section RejectedInterval.

Lemma mysql_cycle_rejected {B} `{SqlServer B} v :
  sleep_length v = None ->
  triple (on_self (fun t => MySQL.check_interval t = v)) (fun _ => True) (fun _ => False)
    MySQL.cycle.
Proof.
  intros Hv. unfold MySQL.cycle.
  apply then_rejected; [apply mysql_probe_keeps_interval | intros _].
  apply then_rejected; [repeat steady_step | intros r].
  apply then_rejected; [repeat steady_step | intros _].
  apply (sleep_rejected _ _ Hv).
Qed.

Lemma postgresql_cycle_rejected {B} `{SqlServer B} v :
  sleep_length v = None ->
  triple (on_self (fun t => PostgreSQL.check_interval t = v)) (fun _ => True)
    (fun _ => False) PostgreSQL.cycle.
Proof.
  intros Hv. unfold PostgreSQL.cycle.
  apply then_rejected; [apply postgresql_probe_keeps_interval | intros _].
  apply then_rejected; [repeat steady_step | intros r].
  apply then_rejected; [repeat steady_step | intros _].
  apply (sleep_rejected _ _ Hv).
Qed.

Lemma redis_cycle_rejected {B} `{RedisServer B} v :
  sleep_length v = None ->
  triple (on_self (fun t => Redis.check_interval t = v)) (fun _ => True) (fun _ => False)
    Redis.cycle.
Proof.
  intros Hv. unfold Redis.cycle.
  apply then_rejected; [apply redis_exercise_keeps_interval | intros _].
  apply then_rejected; [repeat steady_step | intros r].
  apply then_rejected; [repeat steady_step | intros _].
  apply (sleep_rejected _ _ Hv).
Qed.

Lemma rabbitmq_send_cycle_rejected {B} `{AmqpServer B} v :
  sleep_length v = None ->
  triple (on_self (fun t => RabbitMQ.check_interval t = v)) (fun _ => True)
    (fun _ => False) RabbitMQ.send_cycle.
Proof.
  intros Hv. unfold RabbitMQ.send_cycle.
  apply triple_try_except; [|intros e].
  - apply then_rejected; [apply rabbitmq_get_connection_keeps_interval | intros conn].
    do 9 (apply then_rejected; [repeat steady_step | intros ?]).
    apply (sleep_rejected _ _ Hv).
  - do 2 (apply then_rejected; [repeat steady_step | intros ?]).
    apply (sleep_rejected _ _ Hv).
Qed.

(** A publish that went through, reported with an interval that
    [time.sleep] rejects. *)
Lemma send_cycle_rejected_after_publish {B} `{AmqpServer B} (w : RabbitMQ.state) :
  sleep_length (RabbitMQ.check_interval (self w)) = None ->
  publishes w ->
  metric_writes (RabbitMQ.send_cycle w).2 = [1; 0].
Proof.
  intros Hv [c [b1 t1] evs channel b2 b3 b4 Hg Hch Hdecl Hpub].
  pose proof (rabbitmq_get_connection_quiet w) as Hq.
  pose proof (rabbitmq_get_connection_keeps_interval _ w eq_refl) as Hk.
  unfold on_self in Hk. rewrite Hg in Hq, Hk. simpl in Hq, Hk.
  apply quiet_metric_writes in Hq.
  rewrite <- Hk in Hv. clear Hk.
  destruct t1 as [d q p interval stop]. cbn -[encode] in Hv, Hch, Hdecl, Hpub.
  unfold RabbitMQ.send_cycle, try_except. unfold bind at 1. rewrite Hg.
  unfold attr_of, bind, ret, raise, emit, of_res, logger, emit, call, gets, update.
  cbn -[encode sleep]. rewrite Hch. cbn -[encode sleep]. rewrite Hdecl.
  cbn -[encode sleep]. rewrite Hpub. cbn -[encode sleep].
  match goal with
  | |- context [@sleep ?S interval] => pose proof (@sleep_spec S interval) as Hs
  end.
  rewrite Hv in Hs. destruct Hs as [e Hs].
  repeat (rewrite ?Hs, ?metric_writes_app, ?Hq; unfold raise; cbn -[encode sleep]).
  reflexivity.
Qed.

End RejectedInterval.

(** With an interval that [time.sleep] rejects (a negative number, a string,
    a missing value), no loop that sleeps gets past its first iteration: the
    thread dies of the exception, or is stuck in a library call. This holds
    for the MySQL, PostgreSQL and Redis loops and for the publisher, whose
    [except Exception] clause sleeps too; a publish that went through is then
    reported as 1 and, at once, as 0. *)
Theorem rejected_interval_ends_the_loop :
  (forall B (server : SqlServer B) fuel (w : MySQL.state),
      sleep_length (MySQL.check_interval (self w)) = None ->
      MySQL.stop_event (self w) = false ->
      MySQL.query_check (S fuel) w = MySQL.query_check 1 w /\
      ((MySQL.query_check 1 w).1.1 = Blocked \/
       crashed (MySQL.query_check 1 w).1.1 = true)) /\
  (forall B (server : SqlServer B) fuel (w : PostgreSQL.state),
      sleep_length (PostgreSQL.check_interval (self w)) = None ->
      PostgreSQL.stop_event (self w) = false ->
      PostgreSQL.query_check (S fuel) w = PostgreSQL.query_check 1 w /\
      ((PostgreSQL.query_check 1 w).1.1 = Blocked \/
       crashed (PostgreSQL.query_check 1 w).1.1 = true)) /\
  (forall B (server : RedisServer B) fuel (w : Redis.state),
      sleep_length (Redis.check_interval (self w)) = None ->
      Redis.stop_event (self w) = false ->
      Redis.test_redis (S fuel) w = Redis.test_redis 1 w /\
      ((Redis.test_redis 1 w).1.1 = Blocked \/
       crashed (Redis.test_redis 1 w).1.1 = true)) /\
  (forall B (server : AmqpServer B) fuel (w : RabbitMQ.state),
      sleep_length (RabbitMQ.check_interval (self w)) = None ->
      RabbitMQ.stop_event (self w) = false ->
      RabbitMQ.send_message_test (S fuel) w = RabbitMQ.send_message_test 1 w /\
      ((RabbitMQ.send_message_test 1 w).1.1 = Blocked \/
       crashed (RabbitMQ.send_message_test 1 w).1.1 = true) /\
      (publishes w -> metric_writes (RabbitMQ.send_message_test 1 w).2 = [1; 0])).
Proof.
  split; [|split; [|split]]; intros B server fuel w Hv Hstop.
  - destruct (while_loop_never_returning MySQL.check_interval _
                (fun w => negb (MySQL.stop_event (self w))) MySQL.cycle fuel w
                (mysql_cycle_rejected _ Hv) eq_refl) as (Hone & _ & Hend).
    split; [exact Hone|]. apply Hend. rewrite Hstop. reflexivity.
  - destruct (while_loop_never_returning PostgreSQL.check_interval _
                (fun w => negb (PostgreSQL.stop_event (self w))) PostgreSQL.cycle fuel w
                (postgresql_cycle_rejected _ Hv) eq_refl) as (Hone & _ & Hend).
    split; [exact Hone|]. apply Hend. rewrite Hstop. reflexivity.
  - destruct (while_loop_never_returning Redis.check_interval _
                (fun w => negb (Redis.stop_event (self w))) Redis.cycle fuel w
                (redis_cycle_rejected _ Hv) eq_refl) as (Hone & _ & Hend).
    split; [exact Hone|]. apply Hend. rewrite Hstop. reflexivity.
  - destruct (while_loop_never_returning RabbitMQ.check_interval _
                (fun w => negb (RabbitMQ.stop_event (self w))) RabbitMQ.send_cycle fuel w
                (rabbitmq_send_cycle_rejected _ Hv) eq_refl) as (Hone & _ & Hend).
    split; [exact Hone|]. split; [apply Hend; rewrite Hstop; reflexivity|].
    intros Hp. pose proof (send_cycle_rejected_after_publish w Hv Hp) as Hm.
    unfold RabbitMQ.send_message_test. simpl. rewrite Hstop. simpl.
    destruct (RabbitMQ.send_cycle w) as [[[[]|e|] w1] ev1]; simpl in *;
      rewrite ?app_nil_r; exact Hm.
Qed.

Lemma rejected_interval_ends_the_loop_witness :
  RabbitMQ.send_message_test 4 hasty_publisher = RabbitMQ.send_message_test 1 hasty_publisher /\
  ((RabbitMQ.send_message_test 1 hasty_publisher).1.1 = Blocked \/
   crashed (RabbitMQ.send_message_test 1 hasty_publisher).1.1 = true) /\
  metric_writes (RabbitMQ.send_message_test 1 hasty_publisher).2 = [1; 0].
Proof.
  destruct (proj2 (proj2 (proj2 rejected_interval_ends_the_loop))
              Mock.script Mock.script_amqp 3%nat hasty_publisher eq_refl eq_refl)
    as (Hone & Hend & Hwrites).
  split; [exact Hone|]. split; [exact Hend|].
  apply Hwrites. eapply publishes_payload; reflexivity.
Defined.

(** ** What startup has started *)

Lemma thread_starts_app evs1 evs2 :
  thread_starts (evs1 ++ evs2) = thread_starts evs1 ++ thread_starts evs2.
Proof.
  induction evs1 as [|ev evs1 IH]; [reflexivity|].
  destruct ev; simpl; rewrite ?IH; reflexivity.
Qed.

Lemma create_monitoring_thread_started name data P t P' evs :
  create_monitoring_thread name data P = (Ok t, P', evs) ->
  exists q, t = ProbeThread q /\ started_for (name, data) q /\ evs = [ThreadStart name].
Proof.
  rewrite create_monitoring_thread_cases.
  destruct data as [| | | | |kvs]; try discriminate.
  destruct (resolve (field kvs "type")) as [k|e|] eqn:Hres; try discriminate.
  destruct (construct k _ _ _ P) as [[[a|e|] P1] ev]; try discriminate.
  intros [= <- <- <-]. eexists. split; [reflexivity|]. split; [|reflexivity].
  exists kvs. simpl. auto.
Qed.

Lemma start_services_started kvs P pool P' evs :
  start_services kvs P = (Ok pool, P', evs) ->
  pool = map ProbeThread (probes pool) /\
  Forall2 started_for kvs (probes pool) /\
  thread_starts evs = map fst kvs.
Proof.
  revert P pool P' evs. induction kvs as [|[name data] kvs IH]; intros P pool P' evs; simpl.
  - intros [= <- <- <-]. split; [reflexivity|]. split; [constructor | reflexivity].
  - unfold bind at 1.
    destruct (create_monitoring_thread name data P) as [[[t|e|] P1] ev1] eqn:Hc;
      try discriminate.
    destruct (create_monitoring_thread_started _ _ _ _ _ _ Hc) as (q & -> & Hq & ->).
    unfold bind at 1.
    destruct (start_services kvs P1) as [[[pool1|e|] P2] ev2] eqn:Hs; try discriminate.
    simpl. intros [= <- <- <-].
    destruct (IH _ _ _ _ Hs) as (Hpool & Hall & Hstarts).
    split; [simpl; f_equal; exact Hpool|].
    split; [simpl; constructor; assumption|].
    simpl. rewrite app_nil_r. f_equal. exact Hstarts.
Qed.

Lemma services_starts_nothing {S} env (s : S) :
  thread_starts (Config.services env s).2 = [].
Proof.
  unfold Config.services, Config.conf. unfold_monad. cbn.
  by_cases; reflexivity.
Qed.

Lemma started_for_name kvs qs :
  Forall2 started_for kvs qs ->
  map (fun q => l_name (metric q)) qs = map fst kvs /\ map service qs = map fst kvs.
Proof.
  induction 1 as [|kv q kvs qs (fields & _ & _ & Hq) _ [IH1 IH2]]; [split; reflexivity|].
  simpl. rewrite IH1, IH2, Hq. split; reflexivity.
Qed.

(** A startup that succeeds has started the census thread first and then
    one probe per entry of the [services] mapping, in the order of the
    mapping and nothing else; each probe has the name, the labels (name,
    fqdn, port, type) and the interval of its own entry, whichever
    connection object it shares. Services with different names therefore
    feed different children of the gauge. *)
Theorem startup_starts_one_probe_per_service :
  forall env kvs pool P evs,
    (Config.services env initial).1.1 = Ok (VDict kvs) ->
    trigger_monitoring env initial = (Ok pool, P, evs) ->
    pool = CensusThread :: map ProbeThread (probes pool) /\
    threads P = pool /\
    Forall2 started_for kvs (probes pool) /\
    thread_starts evs = "monitor_active_thread_count" :: map fst kvs /\
    (NoDup (map fst kvs) -> NoDup (map metric (probes pool))).
Proof.
  intros env kvs pool P evs Hcfg Hrun.
  rewrite trigger_monitoring_cases in Hrun.
  pose proof (services_starts_nothing env initial) as Hquiet.
  destruct (Config.services env initial) as [[[sv|e|] s0] ev0]; simpl in Hcfg, Hquiet;
    try discriminate.
  injection Hcfg as ->. simpl in Hrun.
  pose proof (start_services_effect kvs _ well_formed_initial) as Heff.
  destruct (start_services kvs (start CensusThread initial)) as [[[pool1|e|] P1] ev1] eqn:Hs;
    try discriminate.
  injection Hrun as <- <- <-.
  destruct Heff as (_ & Heff). destruct (Heff pool1 eq_refl) as (Hth & _).
  destruct (start_services_started _ _ _ _ _ Hs) as (Hpool & Hall & Hstarts).
  split; [simpl; f_equal; exact Hpool|].
  split; [exact Hth|].
  split; [exact Hall|].
  split.
  - rewrite thread_starts_app, Hquiet. simpl. f_equal. exact Hstarts.
  - intros Hnodup. simpl.
    destruct (started_for_name _ _ Hall) as [Hnames _].
    rewrite <- Hnames in Hnodup.
    rewrite <- (map_map metric l_name) in Hnodup.
    exact (NoDup_fmap_1 l_name _ Hnodup).
Qed.

Lemma startup_starts_one_probe_per_service_witness :
  let run := trigger_monitoring two_mysql initial in
  run.1.1 = Ok (CensusThread :: map ProbeThread [db1_probe; db2_probe]) /\
  threads run.1.2 = CensusThread :: map ProbeThread [db1_probe; db2_probe] /\
  thread_starts run.2 = ["monitor_active_thread_count"; "db1"; "db2"] /\
  NoDup (map metric [db1_probe; db2_probe]).
Proof.
  destruct (startup_starts_one_probe_per_service two_mysql
              [("db1", service_entry "mysql" "db1.internal" 3306 (VStr "health"));
               ("db2", service_entry "mysql" "db2.internal" 3307 (VStr "health"))]
              (CensusThread :: map ProbeThread [db1_probe; db2_probe])
              (trigger_monitoring two_mysql initial).1.2
              (trigger_monitoring two_mysql initial).2 eq_refl eq_refl)
    as (Hpool & Hthreads & _ & Hstarts & Hlabels).
  split; [reflexivity|]. split; [exact Hthreads|]. split; [exact Hstarts|].
  apply Hlabels. apply (bool_decide_unpack _). reflexivity.
Defined.

(** What [conf] gives back when the file is read and parsed. *)
Lemma conf_success {S} (env : os) (s : S) v :
  and_then (read_file env "/config/conf.yml") (safe_load env) = Ok v ->
  Config.conf env s = (Ok v, s, loaded).
Proof.
  intros Hload.
  unfold Config.conf, try_except, bind, emit, of_res, logger, emit, ret, loaded; simpl.
  destruct (read_file env "/config/conf.yml") as [f|e'|]; simpl in *; try discriminate.
  destruct (safe_load env f) as [v'|e'|]; simpl; congruence.
Qed.

(** A configuration file that parses decides by its shape how far startup
    gets. If the document is not a mapping (an empty file parses to [None]),
    [services] raises AttributeError before any thread exists. If it is a
    mapping whose [services] entry is missing or is not a mapping,
    [services.items()] raises AttributeError when only the census thread has
    been started. If [services] is the empty mapping, startup succeeds with
    the census thread alone. No critical record is logged in any of these
    cases. *)
Theorem configuration_shape_decides_startup :
  forall env v,
    and_then (read_file env "/config/conf.yml") (safe_load env) = Ok v ->
    (is_dict v = false ->
     trigger_monitoring env initial
     = (Err (Exn AttributeError "object has no attribute 'get'"), initial, loaded)) /\
    (forall top,
        v = VDict top -> is_dict (field top "services") = false ->
        trigger_monitoring env initial
        = (Err (Exn AttributeError "object has no attribute 'items'"),
           start CensusThread initial,
           loaded ++ [ThreadStart "monitor_active_thread_count"])) /\
    (forall top,
        v = VDict top -> field top "services" = VDict [] ->
        trigger_monitoring env initial
        = (Ok [CensusThread], start CensusThread initial,
           loaded ++ [ThreadStart "monitor_active_thread_count"])).
Proof.
  intros env v Hload.
  assert (Hconf := conf_success env initial v Hload).
  split; [|split].
  - intros Hv. unfold trigger_monitoring, Config.services. unfold bind at 1 2.
    rewrite Hconf. destruct v; try discriminate; reflexivity.
  - intros top -> Hs. rewrite trigger_monitoring_cases.
    unfold Config.services, bind. rewrite Hconf. cbn [of_res dict_get].
    fold (field top "services"). cbn.
    destruct (field top "services"); try discriminate; reflexivity.
  - intros top -> Hs. rewrite trigger_monitoring_cases.
    unfold Config.services, bind. rewrite Hconf. cbn [of_res dict_get].
    fold (field top "services"). rewrite Hs. reflexivity.
Qed.

Lemma configuration_shape_decides_startup_witness :
  trigger_monitoring (config_of VNone) initial
  = (Err (Exn AttributeError "object has no attribute 'get'"), initial, loaded).
Proof.
  apply (proj1 (configuration_shape_decides_startup (config_of VNone) VNone eq_refl)).
  reflexivity.
Defined.

Lemma int_returns v : Redis.int v <> Block.
Proof. unfold Redis.int. repeat case_match; discriminate. Qed.

Lemma init_object_returns k au f po : init_object k au f po <> Block.
Proof.
  unfold init_object, MySQL.init, PostgreSQL.init, Redis.init, RabbitMQ.init,
    and_then, dict_get.
  pose proof int_returns.
  destruct k; repeat case_match; intros; simplify_eq; try discriminate; naive_solver.
Qed.

Lemma resolve_returns ty : resolve ty <> Block.
Proof.
  unfold resolve, and_then, import_module, test_class.
  repeat case_match; intros; simplify_eq; discriminate.
Qed.

(** A service that is not started: nothing is logged, no thread is added. *)
Lemma create_monitoring_thread_failure name data P :
  match create_monitoring_thread name data P with
  | (Ok _, _, _) => True
  | (Err e, P', evs) =>
      evs = [] /\ threads P' = threads P /\ not_started P data e P'
  | (Block, _, _) => False
  end.
Proof.
  rewrite create_monitoring_thread_cases.
  destruct data as [| | | | |kvs];
    try (split; [|split]; [reflexivity | reflexivity | apply no_mapping; reflexivity]).
  destruct (resolve (field kvs "type")) as [k|e|] eqn:Hres.
  - rewrite construct_cases.
    destruct (instance P k) as [a|] eqn:Hinst; [exact I|].
    pose proof (init_object_returns k (field kvs "authentication") (field kvs "fqdn")
                  (field kvs "port")) as Hret.
    destruct (init_object k _ _ _) as [o|e|] eqn:Hinit; [exact I | | congruence].
    split; [reflexivity|]. split; [reflexivity|].
    eapply not_constructed; eauto.
  - split; [reflexivity|]. split; [reflexivity|].
    eapply type_unresolved; eauto.
  - destruct (resolve_returns _ Hres).
Qed.

Lemma start_services_failure kvs P :
  match start_services kvs P with
  | (Ok _, _, _) => True
  | (Err e, P', evs) =>
      exists pre name data post pool P1,
        kvs = pre ++ (name, data) :: post /\
        start_services pre P = (Ok pool, P1, evs) /\
        create_monitoring_thread name data P1 = (Err e, P', [])
  | (Block, _, _) => False
  end.
Proof.
  revert P. induction kvs as [|[name data] kvs IH]; intros P; simpl; [exact I|].
  unfold bind at 1.
  pose proof (create_monitoring_thread_failure name data P) as Hc.
  destruct (create_monitoring_thread name data P) as [[[t|e|] P1] ev1] eqn:Hcreate.
  - unfold bind at 1. specialize (IH P1).
    destruct (start_services kvs P1) as [[[pool|e|] P2] ev2] eqn:Hrest; simpl.
    + exact I.
    + destruct IH as (pre & name' & data' & post & pool & P3 & -> & Hpre & Hbad).
      exists ((name, data) :: pre), name', data', post, (t :: pool), P3.
      split; [reflexivity|]. split; [|exact Hbad].
      simpl. unfold bind at 1. rewrite Hcreate. unfold bind at 1. rewrite Hpre.
      simpl. rewrite app_nil_r. reflexivity.
    + exact IH.
  - destruct Hc as (-> & _ & _).
    exists [], name, data, kvs, [], P. split; [reflexivity|]. split; [reflexivity|].
    exact Hcreate.
  - exact Hc.
Qed.

(** Startup never hangs, and it stops at the first entry of the [services]
    mapping that cannot be started, whatever is wrong with it: the entry is
    no mapping, or its type does not resolve, or it is the first entry of
    its type and the [__new__] of the connection class raises on its
    authentication. The exception, whichever it is, leaves
    [trigger_monitoring]; the census thread and one probe per earlier entry
    have been started, and no thread for the failing entry or any later
    one. A startup that succeeds returns one thread per entry and the census
    thread. *)
Theorem startup_stops_at_first_bad_entry :
  forall env kvs,
    (Config.services env initial).1.1 = Ok (VDict kvs) ->
    match trigger_monitoring env initial with
    | (Ok pool, _, _) => length pool = S (length kvs)
    | (Err e, P, evs) =>
        exists pre name data post P1,
          kvs = pre ++ (name, data) :: post /\
          (start_services pre (start CensusThread initial)).1.1
          = Ok (map ProbeThread (probes (threads P))) /\
          (start_services pre (start CensusThread initial)).1.2 = P1 /\
          create_monitoring_thread name data P1 = (Err e, P, []) /\
          not_started P1 data e P /\
          map service (probes (threads P)) = map fst pre /\
          thread_starts evs = "monitor_active_thread_count" :: map fst pre
    | (Block, _, _) => False
    end.
Proof.
  intros env kvs Hcfg. rewrite trigger_monitoring_cases.
  pose proof (services_starts_nothing env initial) as Hquiet.
  destruct (Config.services env initial) as [[[sv|e|] s0] ev0]; simpl in Hcfg, Hquiet;
    try discriminate.
  injection Hcfg as ->. simpl.
  pose proof (start_services_failure kvs (start CensusThread initial)) as Hfail.
  destruct (start_services kvs (start CensusThread initial)) as [[[pool|e|] P] ev1] eqn:Hs.
  - destruct (start_services_started _ _ _ _ _ Hs) as (Hpool & Hall & _).
    simpl. f_equal. rewrite Hpool, length_map. symmetry. exact (Forall2_length _ _ _ Hall).
  - destruct Hfail as (pre & name & data & post & pool & P1 & -> & Hpre & Hbad).
    pose proof (create_monitoring_thread_failure name data P1) as Hc.
    rewrite Hbad in Hc. destruct Hc as (_ & Hth & Hwhy).
    pose proof (start_services_effect pre _ well_formed_initial) as Heff.
    rewrite Hpre in Heff. destruct Heff as (_ & Heff).
    destruct (Heff pool eq_refl) as (Hth1 & Hnames).
    destruct (start_services_started _ _ _ _ _ Hpre) as (Hpool & _ & Hstarts).
    assert (Hprobes : probes (threads P) = probes pool).
    { rewrite Hth, Hth1. simpl. reflexivity. }
    exists pre, name, data, post, P1.
    split; [reflexivity|]. rewrite Hpre. simpl.
    split; [rewrite Hprobes, <- Hpool; reflexivity|].
    split; [reflexivity|]. split; [exact Hbad|]. split; [exact Hwhy|].
    split; [rewrite Hprobes; exact Hnames|].
    rewrite thread_starts_app, Hquiet. simpl. f_equal. exact Hstarts.
  - exact Hfail.
Qed.

Lemma startup_stops_at_first_bad_entry_witness :
  exists pre name data post P1,
    [("cache1", service_entry "redis" "cache1.internal" 6379 (VInt 0));
     ("legacy", service_entry "mongodb" "legacy.internal" 27017 VNone);
     ("db1", service_entry "mysql" "db1.internal" 3306 (VStr "health"))]
    = pre ++ (name, data) :: post /\
    (start_services pre (start CensusThread initial)).1.1
    = Ok (map ProbeThread
            (probes (threads (trigger_monitoring unknown_type_between initial).1.2))) /\
    (start_services pre (start CensusThread initial)).1.2 = P1 /\
    create_monitoring_thread name data P1
    = (Err (Exn ModuleNotFoundError "No module named 'src.mongodb'"),
       (trigger_monitoring unknown_type_between initial).1.2, []) /\
    not_started P1 data (Exn ModuleNotFoundError "No module named 'src.mongodb'")
      (trigger_monitoring unknown_type_between initial).1.2 /\
    map service (probes (threads (trigger_monitoring unknown_type_between initial).1.2))
    = map fst pre /\
    thread_starts (trigger_monitoring unknown_type_between initial).2
    = "monitor_active_thread_count" :: map fst pre.
Proof.
  exact (startup_stops_at_first_bad_entry unknown_type_between
           [("cache1", service_entry "redis" "cache1.internal" 6379 (VInt 0));
            ("legacy", service_entry "mongodb" "legacy.internal" 27017 VNone);
            ("db1", service_entry "mysql" "db1.internal" 3306 (VStr "health"))]
           eq_refl).
Defined.

(** ** The JSON formatter *)

Import Logger LoggerSpec.

Lemma assoc_setitem k v d : assoc k (setitem k v d) = Some v.
Proof.
  induction d as [|[k' v'] d IH]; simpl.
  - rewrite String.eqb_refl. reflexivity.
  - destruct (String.eqb k k') eqn:Hk; simpl.
    + rewrite String.eqb_refl. reflexivity.
    + rewrite Hk. exact IH.
Qed.

Lemma assoc_setitem_ne k k' v d : k' <> k -> assoc k' (setitem k v d) = assoc k' d.
Proof.
  intros Hne. induction d as [|[k0 v0] d IH]; simpl.
  - apply String.eqb_neq in Hne. rewrite Hne. reflexivity.
  - destruct (String.eqb k k0) eqn:Hk; simpl.
    + apply String.eqb_eq in Hk as <-.
      apply String.eqb_neq in Hne. rewrite Hne. reflexivity.
    + destruct (String.eqb k' k0); [reflexivity | exact IH].
Qed.

Lemma keys_setitem_new k v d :
  ~ In k (map fst d) -> map fst (setitem k v d) = map fst d ++ [k].
Proof.
  induction d as [|[k' v'] d IH]; simpl; [reflexivity|].
  intros Hnew. destruct (String.eqb k k') eqn:Hk.
  - apply String.eqb_eq in Hk. destruct Hnew. auto.
  - simpl. rewrite IH; [reflexivity | tauto].
Qed.

Lemma assoc_None_keys k (d : dict) : ~ In k (map fst d) -> assoc k d = None.
Proof.
  induction d as [|[k' v'] d IH]; simpl; [reflexivity|].
  intros Hnew. destruct (String.eqb k k') eqn:Hk.
  - apply String.eqb_eq in Hk. destruct Hnew. auto.
  - apply IH. tauto.
Qed.

(** The comprehension, from any dict built so far. *)
Lemma comprehension_done items record acc d :
  comprehension items record acc = Done d ->
  NoDup (map fst acc ++ map fst items) ->
  map fst d = map fst acc ++ map fst items /\
  Forall (fun ka => assoc ka.1 d = assoc ka.2 record) items /\
  (forall k, ~ In k (map fst items) -> assoc k d = assoc k acc).
Proof.
  revert acc. induction items as [|[k a] items IH]; intros acc; simpl.
  - intros [= <-] _. rewrite app_nil_r. split; [reflexivity|]. split; [constructor | auto].
  - destruct (assoc a record) as [v|] eqn:Ha; [|discriminate].
    intros Hd Hnodup.
    assert (Hnew : ~ In k (map fst acc)).
    { apply NoDup_app in Hnodup as (_ & Hdisj & _). intros Hin.
      apply (Hdisj k); [apply list_elem_of_In, Hin | apply list_elem_of_here]. }
    assert (Hnot : ~ In k (map fst items)).
    { apply NoDup_app in Hnodup as (_ & _ & Hitems).
      apply NoDup_cons in Hitems as [Hk _]. intros Hin. apply Hk, list_elem_of_In, Hin. }
    destruct (IH (setitem k v acc) Hd) as (Hkeys & Hvals & Hrest).
    { rewrite keys_setitem_new by exact Hnew. rewrite <- app_assoc. exact Hnodup. }
    split; [rewrite Hkeys, keys_setitem_new by exact Hnew; rewrite <- app_assoc; reflexivity|].
    split.
    + constructor; [|exact Hvals]. simpl.
      rewrite (Hrest k Hnot), assoc_setitem, Ha. reflexivity.
    + intros k' Hk'. rewrite Hrest by tauto.
      apply assoc_setitem_ne. intros ->. tauto.
Qed.

Lemma comprehension_key_error items record acc a :
  comprehension items record acc = KeyError a ->
  exists pre k post,
    items = pre ++ (k, a) :: post /\
    Forall (fun ka => assoc ka.2 record <> None) pre /\
    assoc a record = None.
Proof.
  revert acc. induction items as [|[k a'] items IH]; intros acc; simpl; [discriminate|].
  destruct (assoc a' record) as [v|] eqn:Ha.
  - intros Hd. destruct (IH _ Hd) as (pre & k0 & post & -> & Hpre & Hnone).
    exists ((k, a') :: pre), k0, post. split; [reflexivity|].
    split; [constructor; [simpl; congruence | exact Hpre] | exact Hnone].
  - intros [= <-]. exists [], k, items. split; [reflexivity|]. split; [constructor | exact Ha].
Qed.

Lemma comprehension_total items record acc :
  Forall (fun ka => assoc ka.2 record <> None) items ->
  exists d, comprehension items record acc = Done d.
Proof.
  intros Hall. revert acc. induction Hall as [|[k a] items Ha _ IH]; intros acc; simpl.
  - eauto.
  - simpl in Ha. destruct (assoc a record) as [v|]; [apply IH | congruence].
Qed.

Lemma comprehension_done_present items record acc d :
  comprehension items record acc = Done d ->
  Forall (fun ka => assoc ka.2 record <> None) items.
Proof.
  revert acc. induction items as [|[k a] items IH]; intros acc; simpl; [constructor|].
  destruct (assoc a record) as [v|] eqn:Ha; [|discriminate].
  intros Hd. constructor; [simpl; congruence | exact (IH _ Hd)].
Qed.

Lemma comprehension_never_raises items record acc e :
  comprehension items record acc <> Raised e.
Proof.
  revert acc. induction items as [|[k a] items IH]; intros acc; simpl; [discriminate|].
  destruct (assoc a record); [apply IH | discriminate].
Qed.

(** [formatMessage] gives one entry per entry of [fmt_dict], under the same
    key and in the same order, holding the record attribute the entry names;
    it does so exactly when the record has every attribute named. Otherwise
    it raises KeyError, for the first named attribute the record lacks, and
    it raises nothing else. *)
Theorem format_message_follows_fmt_dict :
  forall f record,
    (forall d,
        formatMessage f record = Done d -> NoDup (map fst (fmt_dict f)) ->
        map fst d = map fst (fmt_dict f) /\
        Forall (fun ka => assoc ka.1 d = assoc ka.2 record) (fmt_dict f)) /\
    (forall a,
        formatMessage f record = KeyError a ->
        exists pre k post,
          fmt_dict f = pre ++ (k, a) :: post /\
          Forall (fun ka => assoc ka.2 record <> None) pre /\
          assoc a record = None) /\
    (forall e, formatMessage f record <> Raised e) /\
    ((exists d, formatMessage f record = Done d) <->
     Forall (fun ka => assoc ka.2 record <> None) (fmt_dict f)).
Proof.
  intros f record. unfold formatMessage. split; [|split; [|split]].
  - intros d Hd Hnodup.
    destruct (comprehension_done _ _ [] d Hd Hnodup) as (Hkeys & Hvals & _). auto.
  - intros a. apply comprehension_key_error.
  - intros e. apply comprehension_never_raises.
  - split.
    + intros [d Hd]. exact (comprehension_done_present _ _ _ _ Hd).
    + apply comprehension_total.
Qed.

Lemma format_message_follows_fmt_dict_witness :
  map fst [("level", VStr "INFO"); ("message", VStr "started")]
  = map fst (fmt_dict (init (Some [("level", "levelname"); ("message", "message")])
                         "%Y" "%s")) /\
  Forall (fun ka => assoc ka.1 [("level", VStr "INFO"); ("message", VStr "started")]
                    = assoc ka.2 [("levelname", VStr "INFO"); ("message", VStr "started")])
    (fmt_dict (init (Some [("level", "levelname"); ("message", "message")]) "%Y" "%s")).
Proof.
  apply (proj1 (format_message_follows_fmt_dict
                  (init (Some [("level", "levelname"); ("message", "message")]) "%Y" "%s")
                  [("levelname", VStr "INFO"); ("message", VStr "started")])).
  - reflexivity.
  - apply (bool_decide_unpack _). reflexivity.
Defined.

Section FormatProperties.
Variable getMessage : dict -> outcome string.
Variable formatTime : dict -> value -> string.
Variable formatException : value -> string.
Variable formatStack : value -> string.
Variable dumps : dict -> string.

Lemma usesTime_false f a :
  usesTime f = false -> In a (map snd (fmt_dict f)) -> a <> "asctime".
Proof.
  unfold usesTime. intros Hno Hin ->.
  assert (existsb (String.eqb "asctime") (map snd (fmt_dict f)) = true); [|congruence].
  apply existsb_exists. exists "asctime". split; [exact Hin | apply String.eqb_refl].
Qed.

(** [format] in two steps. *)
Lemma format_prepared f record message :
  getMessage record = Done message ->
  Logger.format getMessage formatTime formatException formatStack dumps f record =
    match formatMessage f (prepared formatTime f record message) with
    | Done d =>
        attach_traces formatException formatStack dumps d
          (prepared formatTime f record message)
    | KeyError a => (KeyError a, prepared formatTime f record message)
    | Raised e => (Raised e, prepared formatTime f record message)
    end.
Proof.
  intros Hmsg. unfold Logger.format, prepared, attach_traces.
  unfold then_ at 1. unfold reading at 1. rewrite Hmsg.
  unfold then_ at 1. unfold setattr at 1.
  unfold then_ at 1.
  destruct (usesTime f).
  - unfold then_ at 1. unfold reading at 1. unfold setattr at 1.
    unfold then_ at 1. unfold reading at 1.
    destruct (formatMessage f _); reflexivity.
  - unfold unit_ at 1.
    unfold then_ at 1. unfold reading at 1.
    destruct (formatMessage f _); reflexivity.
Qed.

Lemma attach_traces_cases d record :
  match attach_traces formatException formatStack dumps d record with
  | (Done _, r) | (Raised _, r) =>
      forall k, k <> "exc_text" -> assoc k r = assoc k record
  | (KeyError _, _) => False
  end.
Proof.
  unfold attach_traces, then_, unit_, attr, setattr, getattr.
  repeat (case_match; simplify_eq); try discriminate;
    intros k Hk; rewrite ?assoc_setitem_ne by exact Hk; reflexivity.
Qed.

Lemma prepared_message f record message :
  assoc "message" (prepared formatTime f record message) = Some (VStr message) /\
  (usesTime f = true ->
   assoc "asctime" (prepared formatTime f record message)
   = Some (VStr (formatTime (setitem "message" (VStr message) record) (datefmt f)))) /\
  (forall k, k <> "message" -> k <> "asctime" ->
             assoc k (prepared formatTime f record message) = assoc k record).
Proof.
  unfold prepared. destruct (usesTime f).
  - split; [rewrite assoc_setitem_ne by discriminate; apply assoc_setitem|].
    split; [intros _; apply assoc_setitem|].
    intros k Hm Ha. rewrite !assoc_setitem_ne by assumption. reflexivity.
  - split; [apply assoc_setitem|]. split; [discriminate|].
    intros k Hm Ha. rewrite assoc_setitem_ne by assumption. reflexivity.
Qed.

End FormatProperties.

(** [format] can always be asked for [message] and [asctime]: it sets
    [record.message] itself, and [record.asctime] whenever [fmt_dict] names
    it. When [getMessage] returns, [format] raises KeyError only for an
    attribute that [fmt_dict] names, that is neither of these two, and that
    the record lacks; and the record it leaves behind carries the message. *)
Theorem format_key_error_names_unknown_attribute :
  forall getMessage formatTime formatException formatStack dumps f record message,
    getMessage record = Done message ->
    let run := Logger.format getMessage formatTime formatException formatStack dumps
                 f record in
    (forall a,
        run.1 = KeyError a ->
        a <> "message" /\ a <> "asctime" /\ assoc a record = None /\
        In a (map snd (fmt_dict f))) /\
    assoc "message" run.2 = Some (VStr message) /\
    (usesTime f = true ->
     assoc "asctime" run.2
     = Some (VStr (formatTime (setitem "message" (VStr message) record) (datefmt f)))).
Proof.
  intros getMessage formatTime formatException formatStack dumps f record message Hmsg.
  cbv zeta. rewrite (format_prepared _ _ _ _ _ _ _ _ Hmsg).
  destruct (prepared_message formatTime f record message) as (Hm & Hasc & Hother).
  destruct (formatMessage f (prepared formatTime f record message)) as [d|a|e] eqn:Hf.
  - pose proof (attach_traces_cases formatException formatStack dumps d
                  (prepared formatTime f record message)) as Hrest.
    destruct (attach_traces _ _ _ d _) as [[s|a|e] r]; simpl in *; [|destruct Hrest|].
    + split; [discriminate|].
      split; [rewrite Hrest by discriminate; exact Hm|].
      intros Hu. rewrite Hrest by discriminate. exact (Hasc Hu).
    + split; [discriminate|].
      split; [rewrite Hrest by discriminate; exact Hm|].
      intros Hu. rewrite Hrest by discriminate. exact (Hasc Hu).
  - simpl. split; [|split; [exact Hm | exact Hasc]].
    intros a' [= <-].
    destruct (comprehension_key_error _ _ _ _ Hf) as (pre & k & post & Hitems & _ & Hnone).
    assert (Hin : In a (map snd (fmt_dict f))).
    { rewrite Hitems, map_app, in_app_iff. right. left. reflexivity. }
    assert (Hnm : a <> "message") by (intros ->; congruence).
    assert (Hna : a <> "asctime").
    { destruct (usesTime f) eqn:Hu.
      - intros ->. rewrite (Hasc eq_refl) in Hnone. discriminate.
      - exact (usesTime_false f a Hu Hin). }
    split; [exact Hnm|]. split; [exact Hna|]. split; [|exact Hin].
    rewrite <- (Hother a Hnm Hna). exact Hnone.
  - simpl. split; [discriminate|]. split; [exact Hm | exact Hasc].
Qed.

Lemma format_key_error_names_unknown_attribute_witness :
  let record := [("levelname", VStr "INFO"); ("exc_info", VNone); ("exc_text", VNone);
                 ("stack_info", VNone)] in
  let run := Logger.format (fun _ => Done "started") (fun _ _ => "2024-01-01T00:00:00.000Z")
               (fun _ => "") (fun _ => "") (fun _ => "{}")
               (init (Some [("host", "hostname")]) "%Y" "%s") record in
  (forall a,
      run.1 = KeyError a ->
      a <> "message" /\ a <> "asctime" /\ assoc a record = None /\
      In a (map snd (fmt_dict (init (Some [("host", "hostname")]) "%Y" "%s")))) /\
  assoc "message" run.2 = Some (VStr "started") /\
  (usesTime (init (Some [("host", "hostname")]) "%Y" "%s") = true ->
   assoc "asctime" run.2
   = Some (VStr ((fun _ _ => "2024-01-01T00:00:00.000Z")
                   (setitem "message" (VStr "started") record)
                   (datefmt (init (Some [("host", "hostname")]) "%Y" "%s"))))).
Proof.
  exact (format_key_error_names_unknown_attribute
           (fun _ => Done "started") (fun _ _ => "2024-01-01T00:00:00.000Z")
           (fun _ => "") (fun _ => "") (fun _ => "{}")
           (init (Some [("host", "hostname")]) "%Y" "%s")
           [("levelname", VStr "INFO"); ("exc_info", VNone); ("exc_text", VNone);
            ("stack_info", VNone)]
           "started" eq_refl).
Defined.

(** Every line the module's logger writes: for a record that has a level
    name (and the three attributes every LogRecord has), the installed
    formatter hands [json.dumps] a dict with exactly the keys level, message
    and timestamp, in this order, followed by exc_info when there is a
    traceback text and by stack_info when there is stack information. The
    message is what [getMessage] returned and the timestamp what [formatTime]
    returned, whatever the record held under these names before. *)
Theorem json_formatter_line_has_level_message_timestamp :
  forall getMessage formatTime formatException formatStack dumps
         record message level exc_info exc_text stack_info,
    getMessage record = Done message ->
    assoc "levelname" record = Some level ->
    assoc "exc_info" record = Some exc_info ->
    assoc "exc_text" record = Some exc_text ->
    assoc "stack_info" record = Some stack_info ->
    let text := traceback_text formatException exc_info exc_text in
    (Logger.format getMessage formatTime formatException formatStack dumps
       json_formatter record).1
    = Done (dumps
              ([("level", level); ("message", VStr message);
                ("timestamp",
                 VStr (formatTime (setitem "message" (VStr message) record) VNone))]
               ++ (if truthy text then [("exc_info", text)] else [])
               ++ (if truthy stack_info
                   then [("stack_info", VStr (formatStack stack_info))] else []))).
Proof.
  intros getMessage formatTime formatException formatStack dumps
         record message level exc_info exc_text stack_info
         Hmsg Hlevel Hinfo Htext Hstack.
  cbv zeta. rewrite (format_prepared _ _ _ _ _ _ _ _ Hmsg).
  destruct (prepared_message formatTime json_formatter record message)
    as (Hm & Hasc & Hother).
  specialize (Hasc eq_refl).
  set (r := prepared formatTime json_formatter record message) in *.
  assert (Hl : assoc "levelname" r = Some level)
    by (rewrite Hother by discriminate; exact Hlevel).
  assert (Hi : assoc "exc_info" r = Some exc_info)
    by (rewrite Hother by discriminate; exact Hinfo).
  assert (Ht : assoc "exc_text" r = Some exc_text)
    by (rewrite Hother by discriminate; exact Htext).
  assert (Hs : assoc "stack_info" r = Some stack_info)
    by (rewrite Hother by discriminate; exact Hstack).
  unfold formatMessage. cbn [json_formatter init fmt_dict comprehension].
  rewrite Hl, Hm, Hasc. cbn [setitem String.eqb Ascii.eqb Bool.eqb].
  unfold attach_traces, traceback_text, then_, unit_, attr, setattr, getattr.
  rewrite Hi.
  destruct (truthy exc_info); cbn [andb].
  - rewrite Ht. destruct (truthy exc_text) eqn:Htr; cbn [negb].
    + rewrite Ht, Htr, Hs. destruct (truthy stack_info); reflexivity.
    + rewrite assoc_setitem.
      rewrite assoc_setitem_ne by discriminate. rewrite Hs.
      destruct (truthy (VStr (formatException exc_info))), (truthy stack_info);
        reflexivity.
  - rewrite Ht, Hs. destruct (truthy exc_text), (truthy stack_info); reflexivity.
Qed.

Lemma json_formatter_line_has_level_message_timestamp_witness :
  (Logger.format (fun _ => Done "started") (fun _ _ => "2024-01-01T00:00:00.000Z")
     (fun _ => "") (fun _ => "") (fun d => String.concat "," (map fst d))
     json_formatter
     [("levelname", VStr "INFO"); ("exc_info", VNone); ("exc_text", VNone);
      ("stack_info", VNone)]).1
  = Done "level,message,timestamp".
Proof.
  exact (json_formatter_line_has_level_message_timestamp
           (fun _ => Done "started") (fun _ _ => "2024-01-01T00:00:00.000Z")
           (fun _ => "") (fun _ => "") (fun d => String.concat "," (map fst d))
           [("levelname", VStr "INFO"); ("exc_info", VNone); ("exc_text", VNone);
            ("stack_info", VNone)]
           "started" (VStr "INFO") VNone VNone VNone eq_refl eq_refl eq_refl eq_refl eq_refl).
Defined.
